(** * Quadrotor flight controller: examples/fly/fly.c

    A shallow embedding of the attitude core ([flight_core]), the arming
    sequence ([wait_for_arming_sequence]) and the radio watcher
    ([DSM2_watcher]) of fly.c.

    Numeric conventions.  A C [float] is modelled by an exact rational
    ([Q]); comparisons are the exact ones and [==] is equality of
    rationals.  Rounding is followed where the radio watcher converts
    the time since the last frame to a [float] ([to_float]) and is
    outside the model elsewhere; infinities, NaN and overflow are
    followed through the output stage only, in the definitions on
    [cfloat].  An [int] is a [Z]; the [unsigned long] loop counter wraps
    at 2^32.

    The globals [core_state], [core_setpoint], [user_interface] and the
    function-local statics are explicit state, threaded through each
    function.  Calls to the outside ([send_servo_pulse_normalized],
    [log_core_data], [get_dsm2_ch_normalized], ...) are recorded in output
    lists in the order in which the code makes them. *)

From Stdlib Require Import QArith Qabs Qround Qpower ZArith List Bool Lia Lqa.
Import ListNotations.
Open Scope Q_scope.

(** ** Comparisons on floats *)

(** [x > y] and [x < y] as the C conditions evaluate them. *)
Definition Qgtb (x y : Q) : bool := negb (Qle_bool x y).
Definition Qltb (x y : Q) : bool := Qgtb y x.

(** ** Constants (the #define block of fly.c) *)

Definition DT : Q := 0.005.
Definition MAX_YAW_COMPONENT : Q := 0.21.
Definition MAX_THRUST_COMPONENT : Q := 0.8.
Definition MAX_ROLL_COMPONENT : Q := 0.2.
Definition MAX_PITCH_COMPONENT : Q := 0.2.
Definition INT_CUTOFF_TH : Q := 0.3.
Definition YAW_CUTOFF_TH : Q := 0.1.
Definition ARM_TIP_THRESHOLD : Q := 0.2.
Definition LAND_SATURATION : Q := 0.05.
Definition TIP_THRESHOLD : Q := 1.5.
Definition DSM2_LAND_TIMEOUT : Q := 0.3.
Definition DSM2_DISARM_TIMEOUT : Q := 5.0.
Definition EMERGENCY_LAND_THR : Q := 0.15.

(** ** Type definitions *)

Inductive flight_mode_t : Type :=
| EMERGENCY_KILL
| EMERGENCY_LAND
| USER_ATTITUDE
| USER_LOITER
| USER_POSITION_CARTESIAN
| USER_POSITION_RADIAL
| TARGET_HOLD.

Inductive core_mode_t : Type :=
| DISARMED
| ATTITUDE
| POSITION.

Definition flight_mode_eqb (a b : flight_mode_t) : bool :=
  match a, b with
  | EMERGENCY_KILL, EMERGENCY_KILL
  | EMERGENCY_LAND, EMERGENCY_LAND
  | USER_ATTITUDE, USER_ATTITUDE
  | USER_LOITER, USER_LOITER
  | USER_POSITION_CARTESIAN, USER_POSITION_CARTESIAN
  | USER_POSITION_RADIAL, USER_POSITION_RADIAL
  | TARGET_HOLD, TARGET_HOLD => true
  | _, _ => false
  end.

Definition core_mode_eqb (a b : core_mode_t) : bool :=
  match a, b with
  | DISARMED, DISARMED | ATTITUDE, ATTITUDE | POSITION, POSITION => true
  | _, _ => false
  end.

Record core_setpoint_t : Type := mk_core_setpoint {
  core_mode : core_mode_t;
  throttle : Q;
  sp_roll : Q;
  sp_pitch : Q;
  yaw_rate : Q;
  sp_altitude : Q;
  position_X : Q;
  position_Y : Q;
  sp_yaw : Q
}.

Record user_interface_t : Type := mk_user_interface {
  flight_mode : flight_mode_t;
  throttle_stick : Q;
  yaw_stick : Q;
  roll_stick : Q;
  pitch_stick : Q;
  kill_switch : Z
}.

(** The interface of filter_lib.h as fly.c uses it.  The C functions
    update the filter through a pointer; here each returns the updated
    filter. *)
Class filter_lib : Type := {
  discrete_filter : Type;
  generatePID : Q -> Q -> Q -> Q -> Q -> discrete_filter;
  marchFilter : discrete_filter -> Q -> discrete_filter;
  saturateFilter : discrete_filter -> Q -> Q -> discrete_filter;
  zeroFilter : discrete_filter -> discrete_filter;
  current_output : discrete_filter -> Q
}.

(** What fly.c takes from math.h and robotics_cape.h: the cosine and
    three numeric macros. *)
Class cape_lib : Type := {
  cos : Q -> Q;
  PI : Q;
  GYRO_FSR : Q;
  DEGREE_TO_RAD : Q
}.

(** The fields of [core_config_t] (flight_core_config.h) that fly.c
    reads. *)
Record core_config_t : Type := mk_core_config {
  Droll_KP : Q; Droll_KI : Q; Droll_KD : Q;
  Dpitch_KP : Q; Dpitch_KI : Q; Dpitch_KD : Q;
  yaw_KP : Q; yaw_KI : Q; yaw_KD : Q;
  idle_speed : Q;
  max_roll_setpoint : Q;
  max_pitch_setpoint : Q;
  max_yaw_rate : Q;
  roll_rate_per_rad : Q;
  pitch_rate_per_rad : Q
}.

(** A three-vector indexed by VEC3_X, VEC3_Y, VEC3_Z. *)
Record vec3 (A : Type) : Type := mk_vec3 { VEC3_X : A; VEC3_Y : A; VEC3_Z : A }.
Arguments mk_vec3 {A} _ _ _.
Arguments VEC3_X {A} _.
Arguments VEC3_Y {A} _.
Arguments VEC3_Z {A} _.

(** The part of the IMU sample that [flight_core] reads. *)
Record mpudata_t : Type := mk_mpudata {
  fusedEuler : vec3 Q;
  rawGyro : vec3 Z
}.

(** One record handed to [log_core_data]. *)
Record core_log_entry_t : Type := mk_core_log_entry {
  num_loops : Z;
  log_roll : Q; log_pitch : Q; log_yaw : Q;
  log_dRoll : Q; log_dPitch : Q; log_dYaw : Q;
  u_0 : Q; u_1 : Q; u_2 : Q; u_3 : Q;
  esc_1 : Q; esc_2 : Q; esc_3 : Q; esc_4 : Q;
  log_v_batt : Q
}.

(** A call [send_servo_pulse_normalized(ch, val)]. *)
Definition pulse : Type := (Z * Q)%type.

(** ** Mixing and saturation (pure part of [flight_core]) *)

(** The X-quadrotor mixing matrix. *)
Definition mix (u0 u1 u2 u3 : Q) : list Q :=
  [ u0 - u1 + u2 - u3;
    u0 + u1 - u2 - u3;
    u0 + u1 + u2 + u3;
    u0 - u1 - u2 + u3 ].

(** The loop that finds the control output limits: one pass updating
    [largest_value] (from 0) and [smallest_value] (from 1). *)
Definition limits_step (acc : Q * Q) (x : Q) : Q * Q :=
  (if Qgtb x (fst acc) then x else fst acc,
   if Qltb x (snd acc) then x else snd acc).

Definition find_limits (new_esc : list Q) : Q * Q :=
  fold_left limits_step new_esc (0, 1).

Definition largest_value (new_esc : list Q) : Q := fst (find_limits new_esc).
Definition smallest_value (new_esc : list Q) : Q := snd (find_limits new_esc).

(** If upper saturation would have occurred, reduce all outputs evenly. *)
Definition reduce_evenly (new_esc : list Q) : list Q :=
  if Qgtb (largest_value new_esc) 1
  then map (fun x => x - (largest_value new_esc - 1)) new_esc
  else new_esc.

(** The per-channel clamp of the output loop. *)
Definition clamp01 (x : Q) : Q :=
  if Qgtb x 1 then 1 else if Qltb x 0 then 0 else x.

(** The pulses of a loop [for(i=...;...;i++) send_servo_pulse_normalized(i+1, v[i])]. *)
Fixpoint send_pulses (i : Z) (vals : list Q) : list pulse :=
  match vals with
  | [] => []
  | v :: rest => ((i + 1)%Z, v) :: send_pulses (i + 1)%Z rest
  end.

(** [nth] with the default the C array would never need. *)
Definition at_ (l : list Q) (i : nat) : Q := nth i l 0.

(** ** The same lines on the values of a C float

    Beside the numbers, a C [float] takes the values +inf, -inf and NaN,
    and an arithmetic result beyond FLT_MAX is an infinity.  The
    definitions of this section follow the throttle component, the mixing,
    the headroom step and the clamp of [flight_core] on these values.
    The rounding of the mantissa is still left out. *)

Inductive cfloat : Type :=
| Finite (q : Q)
| PlusInf
| MinusInf
| NaN.

(** FLT_MAX of float.h, (2 - 2^-23) * 2^127. *)
Definition FLT_MAX : Q := 340282346638528859811704183484516925440.

(** The float that a real result becomes. *)
Definition cf_of (q : Q) : cfloat :=
  if Qgtb q FLT_MAX then PlusInf
  else if Qltb q (- FLT_MAX) then MinusInf
  else Finite q.

Definition cf_opp (a : cfloat) : cfloat :=
  match a with
  | Finite x => Finite (- x)
  | PlusInf => MinusInf
  | MinusInf => PlusInf
  | NaN => NaN
  end.

(** [a + b]: NaN spreads, and so does the sum of opposite infinities. *)
Definition cf_add (a b : cfloat) : cfloat :=
  match a, b with
  | NaN, _ | _, NaN => NaN
  | PlusInf, MinusInf | MinusInf, PlusInf => NaN
  | PlusInf, _ | _, PlusInf => PlusInf
  | MinusInf, _ | _, MinusInf => MinusInf
  | Finite x, Finite y => cf_of (x + y)
  end.

Definition cf_sub (a b : cfloat) : cfloat := cf_add a (cf_opp b).

(** The product of an infinity and the number [x]. *)
Definition cf_scale_inf (x : Q) (inf : cfloat) : cfloat :=
  if Qgtb x 0 then inf else if Qltb x 0 then cf_opp inf else NaN.

Definition cf_mul (a b : cfloat) : cfloat :=
  match a, b with
  | NaN, _ | _, NaN => NaN
  | Finite x, Finite y => cf_of (x * y)
  | Finite x, inf | inf, Finite x => cf_scale_inf x inf
  | PlusInf, PlusInf | MinusInf, MinusInf => PlusInf
  | PlusInf, MinusInf | MinusInf, PlusInf => MinusInf
  end.

(** [a > b] and [a < b]: false as soon as one side is NaN. *)
Definition cf_gt (a b : cfloat) : bool :=
  match a, b with
  | NaN, _ | _, NaN => false
  | Finite x, Finite y => Qgtb x y
  | PlusInf, PlusInf | MinusInf, _ => false
  | PlusInf, _ => true
  | Finite _, PlusInf => false
  | Finite _, MinusInf => true
  end.

Definition cf_lt (a b : cfloat) : bool := cf_gt b a.

(** The throttle component [u[0]], from the throttle of the setpoint, the
    idle speed and the value of [throttle_compensation]. *)
Definition throttle_u_f (idle_speed : Q) (throttle throttle_compensation : cfloat)
    : cfloat :=
  let thr := cf_add (cf_mul throttle (Finite (MAX_THRUST_COMPONENT - idle_speed)))
                    (Finite idle_speed) in
  cf_mul throttle_compensation thr.

Definition mix_f (u0 u1 u2 u3 : cfloat) : list cfloat :=
  [ cf_sub (cf_add (cf_sub u0 u1) u2) u3;
    cf_sub (cf_sub (cf_add u0 u1) u2) u3;
    cf_add (cf_add (cf_add u0 u1) u2) u3;
    cf_add (cf_sub (cf_sub u0 u1) u2) u3 ].

Definition largest_value_f (new_esc : list cfloat) : cfloat :=
  fold_left (fun largest x => if cf_gt x largest then x else largest)
            new_esc (Finite 0).

Definition reduce_evenly_f (new_esc : list cfloat) : list cfloat :=
  if cf_gt (largest_value_f new_esc) (Finite 1)
  then map (fun x => cf_sub x (cf_sub (largest_value_f new_esc) (Finite 1)))
           new_esc
  else new_esc.

Definition clamp01_f (x : cfloat) : cfloat :=
  if cf_gt x (Finite 1) then Finite 1
  else if cf_lt x (Finite 0) then Finite 0
  else x.

(** What the output loop sends and records when the previous mode was
    not DISARMED, from the four control components. *)
Definition esc_out_f (u0 u1 u2 u3 : cfloat) : list cfloat :=
  map clamp01_f (reduce_evenly_f (mix_f u0 u1 u2 u3)).

(** A magnitude of the control components up to which no step of the
    output stage leaves the range of a float. *)
Definition U_RANGE : Q := 10000000000000000000000000000000000000.

(** ** The attitude core *)

Section Core.

Context {FL : filter_lib} {CL : cape_lib}.

Record core_state_t : Type := mk_core_state {
  control_loops : Z;
  altitude : Q;
  roll : Q;
  pitch : Q;
  yaw : Q;
  last_yaw : Q;
  dAltitude : Q;
  dRoll : Q;
  dPitch : Q;
  dYaw : Q;
  v_batt : Q;
  positionX : Q;
  positionY : Q;
  alt_err : Q;
  dRoll_err : Q;
  dPitch_err : Q;
  yaw_err : Q;
  roll_ctrl : discrete_filter;
  pitch_ctrl : discrete_filter;
  yaw_ctrl : discrete_filter;
  alt_err_integrator : Q;
  dRoll_err_integrator : Q;
  dPitch_err_integrator : Q;
  imu_roll_err : Q;
  imu_pitch_err : Q;
  yaw_err_integrator : Q;
  control_u : list Q;
  esc_out : list Q;
  num_yaw_spins : Z;
  imu_yaw_on_takeoff : Q
}.

(** The globals [flight_core] reads and writes, with its static
    [previous_core_mode]. *)
Record core_world : Type := mk_core_world {
  core_state : core_state_t;
  core_setpoint : core_setpoint_t;
  previous_core_mode : core_mode_t
}.

(** What one call of [flight_core] sends out. *)
Record core_output : Type := mk_core_output {
  pulses : list pulse;
  logged : list core_log_entry_t
}.

Definition set_sp_yaw (sp : core_setpoint_t) (y : Q) : core_setpoint_t :=
  {| core_mode := core_mode sp; throttle := throttle sp;
     sp_roll := sp_roll sp; sp_pitch := sp_pitch sp; yaw_rate := yaw_rate sp;
     sp_altitude := sp_altitude sp; position_X := position_X sp;
     position_Y := position_Y sp; sp_yaw := y |}.

Definition set_core_mode (sp : core_setpoint_t) (m : core_mode_t) : core_setpoint_t :=
  {| core_mode := m; throttle := throttle sp;
     sp_roll := sp_roll sp; sp_pitch := sp_pitch sp; yaw_rate := yaw_rate sp;
     sp_altitude := sp_altitude sp; position_X := position_X sp;
     position_Y := position_Y sp; sp_yaw := sp_yaw sp |}.

(** The yaw of a fused IMU reading, relative to take-off and compensated
    for full rotations. *)
Definition yaw_of (fused_z takeoff : Q) (spins : Z) : Q :=
  - (fused_z - takeoff) + (inject_Z spins * 2 * PI).

(** Detection of the crossover point at Z = +-PI. *)
Definition detect_crossover (new_yaw last : Q) (spins : Z) : Z :=
  if Qgtb (new_yaw - last) 6 then (spins - 1)%Z
  else if Qltb (new_yaw - last) (-6) then (spins + 1)%Z
  else spins.

(** "Estimate system state if DISARMED or not": the first part of
    [flight_core], up to the switch on the core mode. *)
Definition estimate_state (mpu : mpudata_t) (previous : core_mode_t)
    (mode : core_mode_t) (s : core_state_t) : core_state_t :=
  let first_armed := core_mode_eqb previous DISARMED
                     && negb (core_mode_eqb mode DISARMED) in
  let spins0 := if first_armed then 0%Z else num_yaw_spins s in
  let takeoff := if first_armed then VEC3_Z (fusedEuler mpu)
                 else imu_yaw_on_takeoff s in
  let new_yaw := yaw_of (VEC3_Z (fusedEuler mpu)) takeoff spins0 in
  let spins1 := detect_crossover new_yaw (last_yaw s) spins0 in
  {| control_loops := control_loops s;
     altitude := altitude s;
     roll := - (VEC3_Y (fusedEuler mpu) - imu_roll_err s);
     pitch := VEC3_X (fusedEuler mpu) - imu_pitch_err s;
     yaw := yaw_of (VEC3_Z (fusedEuler mpu)) takeoff spins1;
     last_yaw := yaw s;
     dAltitude := dAltitude s;
     dRoll := inject_Z (VEC3_Y (rawGyro mpu)) * GYRO_FSR * DEGREE_TO_RAD / 32767;
     dPitch := inject_Z (VEC3_X (rawGyro mpu)) * GYRO_FSR * DEGREE_TO_RAD / 32767;
     dYaw := inject_Z (VEC3_Z (rawGyro mpu)) * GYRO_FSR * DEGREE_TO_RAD / 32767;
     v_batt := v_batt s;
     positionX := positionX s;
     positionY := positionY s;
     alt_err := alt_err s;
     dRoll_err := dRoll_err s;
     dPitch_err := dPitch_err s;
     yaw_err := yaw_err s;
     roll_ctrl := roll_ctrl s;
     pitch_ctrl := pitch_ctrl s;
     yaw_ctrl := yaw_ctrl s;
     alt_err_integrator := alt_err_integrator s;
     dRoll_err_integrator := dRoll_err_integrator s;
     dPitch_err_integrator := dPitch_err_integrator s;
     imu_roll_err := imu_roll_err s;
     imu_pitch_err := imu_pitch_err s;
     yaw_err_integrator := yaw_err_integrator s;
     control_u := control_u s;
     esc_out := esc_out s;
     num_yaw_spins := spins1;
     imu_yaw_on_takeoff := takeoff |}.

(** [case DISARMED]: reset controllers (the state part; the branch also
    sets [core_setpoint.yaw] and [previous_core_mode]). *)
Definition reset_controllers (s : core_state_t) : core_state_t :=
  {| control_loops := control_loops s;
     altitude := altitude s;
     roll := roll s;
     pitch := pitch s;
     yaw := yaw s;
     last_yaw := last_yaw s;
     dAltitude := dAltitude s;
     dRoll := dRoll s;
     dPitch := dPitch s;
     dYaw := dYaw s;
     v_batt := v_batt s;
     positionX := positionX s;
     positionY := positionY s;
     alt_err := alt_err s;
     dRoll_err := dRoll_err s;
     dPitch_err := dPitch_err s;
     yaw_err := yaw_err s;
     roll_ctrl := zeroFilter (roll_ctrl s);
     pitch_ctrl := zeroFilter (pitch_ctrl s);
     yaw_ctrl := yaw_ctrl s;
     alt_err_integrator := alt_err_integrator s;
     dRoll_err_integrator := 0;
     dPitch_err_integrator := 0;
     imu_roll_err := imu_roll_err s;
     imu_pitch_err := imu_pitch_err s;
     yaw_err_integrator := 0;
     control_u := control_u s;
     esc_out := [0; 0; 0; 0];
     num_yaw_spins := num_yaw_spins s;
     imu_yaw_on_takeoff := imu_yaw_on_takeoff s |}.

(** The saturation window of a controller: tight while landed. *)
Definition saturate_ctrl (f : discrete_filter) (thr max_component : Q) : discrete_filter :=
  if Qltb thr 0.1
  then saturateFilter f (- LAND_SATURATION) LAND_SATURATION
  else saturateFilter f (- max_component) max_component.

(** The throttle component [u[0]]. *)
Definition throttle_u (cfg : core_config_t) (sp : core_setpoint_t)
    (s : core_state_t) : Q :=
  let throttle_compensation := (1 / cos (roll s)) * (1 / cos (pitch s)) in
  let thr := throttle sp * (MAX_THRUST_COMPONENT - idle_speed cfg)
             + idle_speed cfg in
  throttle_compensation * thr.

(** "Finally run the attitude feedback controllers", mixing, saturation
    and output: [flight_core] after the switch, for a core that is not
    disarmed.  [s] is the estimated state, [sp] the setpoint after the
    switch. *)
Definition run_controllers (cfg : core_config_t) (previous : core_mode_t)
    (sp : core_setpoint_t) (s : core_state_t) : core_state_t * core_output :=
  let u0 := throttle_u cfg sp s in
  let dRoll_setpoint := (sp_roll sp - roll s) * roll_rate_per_rad cfg in
  let dPitch_setpoint := (sp_pitch sp - pitch s) * pitch_rate_per_rad cfg in
  let dRoll_err' := dRoll_setpoint - dRoll s in
  let dPitch_err' := dPitch_setpoint - dPitch s in
  let dRoll_int := if Qgtb u0 INT_CUTOFF_TH
                   then dRoll_err_integrator s + dRoll_err' * DT
                   else dRoll_err_integrator s in
  let dPitch_int := if Qgtb u0 INT_CUTOFF_TH
                    then dPitch_err_integrator s + dPitch_err' * DT
                    else dPitch_err_integrator s in
  let roll_ctrl' := saturate_ctrl (marchFilter (roll_ctrl s) dRoll_err')
                                  (throttle sp) MAX_ROLL_COMPONENT in
  let pitch_ctrl' := saturate_ctrl (marchFilter (pitch_ctrl s) dPitch_err')
                                   (throttle sp) MAX_PITCH_COMPONENT in
  let u1 := current_output roll_ctrl' in
  let u2 := current_output pitch_ctrl' in
  let yaw_err' := sp_yaw sp - yaw s in
  let yaw_int := if Qgtb u0 INT_CUTOFF_TH
                 then yaw_err_integrator s + yaw_err' * DT
                 else yaw_err_integrator s in
  let yaw_ctrl' := saturate_ctrl (marchFilter (yaw_ctrl s) yaw_err')
                                 (throttle sp) MAX_YAW_COMPONENT in
  let u3 := current_output yaw_ctrl' in
  let new_esc := reduce_evenly (mix u0 u1 u2 u3) in
  let first_time := core_mode_eqb previous DISARMED in
  let sent := if first_time then [0; 0; 0; 0] else map clamp01 new_esc in
  let esc_out' := if first_time then esc_out s else map clamp01 new_esc in
  let control_u' := if first_time then control_u s else [u0; u1; u2; u3] in
  let new_entry :=
    {| num_loops := control_loops s;
       log_roll := roll s; log_pitch := pitch s; log_yaw := yaw s;
       log_dRoll := dRoll s; log_dPitch := dPitch s; log_dYaw := dYaw s;
       u_0 := at_ control_u' 0; u_1 := at_ control_u' 1;
       u_2 := at_ control_u' 2; u_3 := at_ control_u' 3;
       esc_1 := at_ esc_out' 0; esc_2 := at_ esc_out' 1;
       esc_3 := at_ esc_out' 2; esc_4 := at_ esc_out' 3;
       log_v_batt := v_batt s |} in
  ({| control_loops := ((control_loops s + 1) mod 2 ^ 32)%Z;
      altitude := altitude s;
      roll := roll s;
      pitch := pitch s;
      yaw := yaw s;
      last_yaw := last_yaw s;
      dAltitude := dAltitude s;
      dRoll := dRoll s;
      dPitch := dPitch s;
      dYaw := dYaw s;
      v_batt := v_batt s;
      positionX := positionX s;
      positionY := positionY s;
      alt_err := alt_err s;
      dRoll_err := dRoll_err';
      dPitch_err := dPitch_err';
      yaw_err := yaw_err';
      roll_ctrl := roll_ctrl';
      pitch_ctrl := pitch_ctrl';
      yaw_ctrl := yaw_ctrl';
      alt_err_integrator := alt_err_integrator s;
      dRoll_err_integrator := dRoll_int;
      dPitch_err_integrator := dPitch_int;
      imu_roll_err := imu_roll_err s;
      imu_pitch_err := imu_pitch_err s;
      yaw_err_integrator := yaw_int;
      control_u := control_u';
      esc_out := esc_out';
      num_yaw_spins := num_yaw_spins s;
      imu_yaw_on_takeoff := imu_yaw_on_takeoff s |},
   {| pulses := send_pulses 0 sent; logged := [new_entry] |}).

Definition no_output : core_output := {| pulses := []; logged := [] |}.

(** The switch on [core_setpoint.core_mode]: the setpoint after it, or
    [None] for the branch that returns. *)
Definition manage_setpoint (sp : core_setpoint_t) : option core_setpoint_t :=
  match core_mode sp with
  | POSITION => Some sp
  | ATTITUDE =>
      if Qgtb (throttle sp) YAW_CUTOFF_TH
      then Some (set_sp_yaw sp (sp_yaw sp + DT * yaw_rate sp))
      else Some sp
  | DISARMED => None
  end.

(** [flight_core()]: one call of the interrupt routine.  [mpu_read] is
    [Some mpu] when [mpu9150_read] returned 0 with the sample [mpu]. *)
Definition flight_core (cfg : core_config_t) (mpu_read : option mpudata_t)
    (w : core_world) : core_world * core_output :=
  match mpu_read with
  | None => (w, no_output)
  | Some mpu =>
      let s := estimate_state mpu (previous_core_mode w)
                 (core_mode (core_setpoint w)) (core_state w) in
      match manage_setpoint (core_setpoint w) with
      | None =>
          ({| core_state := reset_controllers s;
              core_setpoint := set_sp_yaw (core_setpoint w) 0;
              previous_core_mode := DISARMED |}, no_output)
      | Some sp =>
          let (s', out) := run_controllers cfg (previous_core_mode w) sp s in
          ({| core_state := s';
              core_setpoint := sp;
              previous_core_mode := core_mode sp |}, out)
      end
  end.

(** [initialize_filters()]. *)
Definition initialize_filters (cfg : core_config_t) (s : core_state_t) : core_state_t :=
  {| control_loops := control_loops s;
     altitude := altitude s;
     roll := roll s;
     pitch := pitch s;
     yaw := yaw s;
     last_yaw := last_yaw s;
     dAltitude := dAltitude s;
     dRoll := dRoll s;
     dPitch := dPitch s;
     dYaw := dYaw s;
     v_batt := v_batt s;
     positionX := positionX s;
     positionY := positionY s;
     alt_err := alt_err s;
     dRoll_err := dRoll_err s;
     dPitch_err := dPitch_err s;
     yaw_err := yaw_err s;
     roll_ctrl := zeroFilter (generatePID (Droll_KP cfg) (Droll_KI cfg)
                                (Droll_KD cfg) 0.015 DT);
     pitch_ctrl := zeroFilter (generatePID (Dpitch_KP cfg) (Dpitch_KI cfg)
                                 (Dpitch_KD cfg) 0.015 DT);
     yaw_ctrl := zeroFilter (generatePID (yaw_KP cfg) (yaw_KI cfg)
                               (yaw_KD cfg) 0.015 DT);
     alt_err_integrator := alt_err_integrator s;
     dRoll_err_integrator := dRoll_err_integrator s;
     dPitch_err_integrator := dPitch_err_integrator s;
     imu_roll_err := imu_roll_err s;
     imu_pitch_err := imu_pitch_err s;
     yaw_err_integrator := yaw_err_integrator s;
     control_u := control_u s;
     esc_out := esc_out s;
     num_yaw_spins := num_yaw_spins s;
     imu_yaw_on_takeoff := imu_yaw_on_takeoff s |}.

End Core.

(** ** Effects of the supervisor and of the radio watcher *)

(** The calls through which [wait_for_arming_sequence], [disarm] and
    [DSM2_watcher] act on the outside or on the shared setpoint. *)
Inductive effect : Type :=
| SendServoPulse (ch : Z) (v : Q)
| Usleep (us : Z)
| LoadCoreConfig
| InitializeFilters
| SetCoreMode (m : core_mode_t)
| Printf
| SetRED (level : Z)
| SetGRN (level : Z)
| GetDsm2Ch (ch : Z).

(** [disarm()]. *)
Definition disarm (sp : core_setpoint_t) : core_setpoint_t * list effect :=
  (set_core_mode sp DISARMED,
   (if core_mode_eqb (core_mode sp) DISARMED then [] else [Printf])
   ++ [SetCoreMode DISARMED; SetRED 1; SetGRN 0]).

(** ** The arming sequence *)

(** What [wait_for_arming_sequence] reads from the other threads at one
    instant: the measured attitude, the user's kill switch and throttle
    stick, and whether [get_state()] is EXITING. *)
Record arm_obs : Type := mk_arm_obs {
  obs_roll : Q;
  obs_pitch : Q;
  obs_kill_switch : Z;
  obs_throttle_stick : Q;
  obs_exiting : bool
}.

(** The condition of the first loop and of the final [if]. *)
Definition tipped (o : arm_obs) : bool :=
  Qgtb (Qabs (obs_roll o)) ARM_TIP_THRESHOLD
  || Qgtb (Qabs (obs_pitch o)) ARM_TIP_THRESHOLD.

(** The places of the function: its five waiting loops and the final
    check before arming. *)
Inductive arm_pc : Type :=
| WAIT_LEVEL
| WAIT_KILL_SWITCH
| WAIT_THROTTLE_DOWN
| WAIT_THROTTLE_UP
| WAIT_THROTTLE_DOWN_AGAIN
| CHECK_LEVEL.

Inductive arm_outcome : Type :=
| ARMED_AT (t : nat)
| EXITED.

Inductive arm_status : Type :=
| Polling (pc : arm_pc) (t : nat)
| Finished (o : arm_outcome).

(** The condition under which the loop at [pc] keeps waiting (for
    [CHECK_LEVEL], under which the function jumps back to START). *)
Definition keeps_waiting (pc : arm_pc) (o : arm_obs) : bool :=
  match pc with
  | WAIT_LEVEL => tipped o
  | WAIT_KILL_SWITCH => negb (obs_kill_switch o =? 0)%Z
  | WAIT_THROTTLE_DOWN => Qgtb (obs_throttle_stick o) (-0.9)
  | WAIT_THROTTLE_UP => Qltb (obs_throttle_stick o) 0.9
  | WAIT_THROTTLE_DOWN_AGAIN => Qgtb (obs_throttle_stick o) (-0.9)
  | CHECK_LEVEL => tipped o
  end.

Definition next_pc (pc : arm_pc) : arm_pc :=
  match pc with
  | WAIT_LEVEL => WAIT_KILL_SWITCH
  | WAIT_KILL_SWITCH => WAIT_THROTTLE_DOWN
  | WAIT_THROTTLE_DOWN => WAIT_THROTTLE_UP
  | WAIT_THROTTLE_UP => WAIT_THROTTLE_DOWN_AGAIN
  | WAIT_THROTTLE_DOWN_AGAIN => CHECK_LEVEL
  | CHECK_LEVEL => CHECK_LEVEL
  end.

(** One evaluation of a loop condition (or of the final [if]).  [env t]
    is what the other threads show after [t] sleeps of 100 ms.  A loop
    whose condition holds sleeps once and returns if the program is then
    exiting; one whose condition fails falls through to the next loop at
    the same instant. *)
Definition arm_step (env : nat -> arm_obs) (pc : arm_pc) (t : nat) : arm_status :=
  match pc with
  | CHECK_LEVEL =>
      if tipped (env t) then Polling WAIT_LEVEL t
      else Finished (ARMED_AT t)
  | _ =>
      if keeps_waiting pc (env t)
      then if obs_exiting (env (S t)) then Finished EXITED
           else Polling pc (S t)
      else Polling (next_pc pc) t
  end.

(** The polling part of the function, for at most [fuel] condition
    evaluations. *)
Fixpoint arm_run (fuel : nat) (env : nat -> arm_obs) (pc : arm_pc) (t : nat)
    : option arm_outcome :=
  match fuel with
  | O => None
  | S fuel' =>
      match arm_step env pc t with
      | Polling pc' t' => arm_run fuel' env pc' t'
      | Finished o => Some o
      end
  end.

(** The places and instants the same run goes through. *)
Fixpoint arm_trace (fuel : nat) (env : nat -> arm_obs) (pc : arm_pc) (t : nat)
    : list (arm_pc * nat) :=
  match fuel with
  | O => []
  | S fuel' =>
      (pc, t) ::
      match arm_step env pc t with
      | Polling pc' t' => arm_trace fuel' env pc' t'
      | Finished _ => []
      end
  end.

(** The calls of one evaluation: the [usleep(100000)] of a loop that
    keeps waiting, the [printf] of a restart. *)
Definition step_calls (env : nat -> arm_obs) (pc : arm_pc) (t : nat)
    : list effect :=
  match pc with
  | CHECK_LEVEL => if tipped (env t) then [Printf] else []
  | _ => if keeps_waiting pc (env t) then [Usleep 100000] else []
  end.

(** The calls the same run makes while it polls, in order. *)
Fixpoint arm_calls (fuel : nat) (env : nat -> arm_obs) (pc : arm_pc) (t : nat)
    : list effect :=
  match fuel with
  | O => []
  | S fuel' =>
      step_calls env pc t ++
      match arm_step env pc t with
      | Polling pc' t' => arm_calls fuel' env pc' t'
      | Finished _ => []
      end
  end.

(** "wake ESCs up at minimum throttle": [n] rounds of four minimum
    pulses and a 5 ms sleep. *)
Fixpoint wake_escs (n : nat) : list effect :=
  match n with
  | O => []
  | S n' =>
      [SendServoPulse 1 0; SendServoPulse 2 0;
       SendServoPulse 3 0; SendServoPulse 4 0; Usleep 5000] ++ wake_escs n'
  end.

Section Supervisor.

Context {FL : filter_lib}.

(** The globals [wait_for_arming_sequence] writes. *)
Record arm_world : Type := mk_arm_world {
  aw_config : core_config_t;
  aw_state : core_state_t;
  aw_setpoint : core_setpoint_t
}.

(** [wait_for_arming_sequence()].  [loaded] is the configuration that
    [load_core_config] reads from disk.  The list returned holds the
    calls the function makes once its polling is over; the calls of the
    polling itself are [arm_calls], and
    [wait_for_arming_sequence_calls] below has all of them. *)
Definition wait_for_arming_sequence (fuel : nat) (env : nat -> arm_obs)
    (loaded : core_config_t) (w : arm_world)
    : option (arm_outcome * arm_world * list effect) :=
  match arm_run fuel env WAIT_LEVEL 0 with
  | None => None
  | Some EXITED => Some (EXITED, w, [])
  | Some (ARMED_AT t) =>
      Some (ARMED_AT t,
            {| aw_config := loaded;
               aw_state := initialize_filters loaded (aw_state w);
               aw_setpoint := set_core_mode (aw_setpoint w) ATTITUDE |},
            wake_escs 10
            ++ [LoadCoreConfig; InitializeFilters; SetCoreMode ATTITUDE;
                Printf; SetRED 0])
  end.

(** Every call of a run of [wait_for_arming_sequence] that returns, in
    the order in which the function makes them. *)
Definition wait_for_arming_sequence_calls (fuel : nat) (env : nat -> arm_obs)
    (loaded : core_config_t) (w : arm_world) : option (list effect) :=
  match wait_for_arming_sequence fuel env loaded w with
  | None => None
  | Some (_, _, eff) => Some (arm_calls fuel env WAIT_LEVEL 0 ++ eff)
  end.

End Supervisor.

(** ** The radio watcher *)

(** The locals of [DSM2_watcher] and the globals it writes.  Times are in
    seconds. *)
Record watcher_world : Type := mk_watcher_world {
  using_dsm2 : Z;
  last_dsm2_time : Q;
  user_interface : user_interface_t;
  ww_setpoint : core_setpoint_t
}.

(** What one turn of the loop of [DSM2_watcher] gets from outside: the
    two clock readings, the answer of [is_new_dsm2_data], the channel
    values, and what the other threads wrote to the setpoint since the
    turn before. *)
Record dsm2_poll : Type := mk_dsm2_poll {
  current_time : Q;
  frame_time : Q;
  is_new_dsm2_data : Z;
  get_dsm2_ch_normalized : Z -> Q;
  other_threads : core_setpoint_t -> core_setpoint_t
}.

Definition set_kill_switch (ui : user_interface_t) (k : Z) : user_interface_t :=
  {| flight_mode := flight_mode ui; throttle_stick := throttle_stick ui;
     yaw_stick := yaw_stick ui; roll_stick := roll_stick ui;
     pitch_stick := pitch_stick ui; kill_switch := k |}.

(** *** The conversion to [float]

    [timeout_secs] is a [float], and the code compares it with
    constants of type [double], one of which (0.3) no float equals: the
    conversion is followed here.  A number becomes the nearest float of
    24 significant bits, a tie going to the even one.  Numbers beyond
    FLT_MAX, which a time in seconds does not reach, are rounded in the
    same way. *)

(** [2 ^ k], for any integer [k]. *)
Definition pow2 (k : Z) : Q := 2 ^ k.

(** The exponent [e] of a positive number: [2^e <= q < 2^(e+1)]. *)
Definition Qlog2 (q : Q) : Z :=
  let c := (Z.log2 (Qnum q) - Z.log2 (Zpos (Qden q)))%Z in
  if Qle_bool (pow2 c) q then c else (c - 1)%Z.

(** The nearest integer, a tie going to the even one. *)
Definition round_half_even (x : Q) : Z :=
  let f := Qfloor x in
  let r := x - inject_Z f in
  if Qltb r (1 # 2) then f
  else if Qgtb r (1 # 2) then (f + 1)%Z
  else if Z.even f then f else (f + 1)%Z.

(** The nearest multiple of [2^k]. *)
Definition round_to_grid (k : Z) (q : Q) : Q :=
  inject_Z (round_half_even (q / pow2 k)) * pow2 k.

(** The spacing of the floats around a positive number: 24 bits from
    its exponent down, and no finer than the subnormal floats. *)
Definition float_grid (q : Q) : Z := Z.max (Qlog2 q - 23) (-149).

Definition round_pos (q : Q) : Q := round_to_grid (float_grid q) q.

(** The value of [(float) q]. *)
Definition to_float (q : Q) : Q :=
  if Qltb 0 q then round_pos q
  else if Qltb q 0 then - round_pos (- q)
  else 0.

(** Modelled from the spec: [diff(last, now)] of robotics_cape.h, the
    time from [last] to [now], "compute elapsed since last frame".  Times
    are in seconds. *)
Definition diff (last now : Q) : Q := now - last.

(** [timeout_secs]: the seconds and nanoseconds of
    [diff(last_dsm2_time, current_time)] added up in seconds and stored
    in a [float].  The sum, which the code forms in double precision, is
    taken as exact. *)
Definition timeout_secs (last now : Q) : Q := to_float (diff last now).

(** The body of [case 1]: a new frame. *)
Definition on_new_frame (p : dsm2_poll) (w : watcher_world)
    : watcher_world * list effect :=
  let ch := get_dsm2_ch_normalized p in
  if Qltb (ch 5%Z) 0 then
    let (sp', eff) := disarm (ww_setpoint w) in
    ({| using_dsm2 := 1;
        last_dsm2_time := frame_time p;
        user_interface := set_kill_switch (user_interface w) 1;
        ww_setpoint := sp' |},
     GetDsm2Ch 5 :: eff)
  else
    ({| using_dsm2 := 1;
        last_dsm2_time := frame_time p;
        user_interface :=
          {| flight_mode := if Qgtb (ch 6%Z) 0 then USER_ATTITUDE
                            else USER_ATTITUDE;
             throttle_stick := ch 1%Z;
             yaw_stick := ch 4%Z;
             roll_stick := - ch 2%Z;
             pitch_stick := - ch 3%Z;
             kill_switch := 0 |};
        ww_setpoint := ww_setpoint w |},
     [GetDsm2Ch 5; GetDsm2Ch 1; GetDsm2Ch 2; GetDsm2Ch 3; GetDsm2Ch 4;
      GetDsm2Ch 6]).

(** The body of [case 0] when [using_dsm2] is set: check for time-outs. *)
Definition check_timeouts (p : dsm2_poll) (w : watcher_world)
    : watcher_world * list effect :=
  let secs := timeout_secs (last_dsm2_time w) (current_time p) in
  if negb (core_mode_eqb (core_mode (ww_setpoint w)) DISARMED)
     && Qgtb secs DSM2_DISARM_TIMEOUT
  then
    let (sp', eff) := disarm (ww_setpoint w) in
    ({| using_dsm2 := using_dsm2 w;
        last_dsm2_time := last_dsm2_time w;
        user_interface := user_interface w;
        ww_setpoint := sp' |}, Printf :: eff)
  else if negb (flight_mode_eqb (flight_mode (user_interface w)) EMERGENCY_LAND)
          && Qgtb secs DSM2_LAND_TIMEOUT
  then
    ({| using_dsm2 := using_dsm2 w;
        last_dsm2_time := last_dsm2_time w;
        user_interface :=
          {| flight_mode := EMERGENCY_LAND;
             throttle_stick := -1;
             yaw_stick := 0;
             roll_stick := 0;
             pitch_stick := 0;
             kill_switch := kill_switch (user_interface w) |};
        ww_setpoint := ww_setpoint w |}, [Printf; Printf])
  else (w, []).

(** The world a turn starts from: the one the turn before left, with the
    other threads' writes to the setpoint. *)
Definition seen_by (p : dsm2_poll) (w : watcher_world) : watcher_world :=
  {| using_dsm2 := using_dsm2 w;
     last_dsm2_time := last_dsm2_time w;
     user_interface := user_interface w;
     ww_setpoint := other_threads p (ww_setpoint w) |}.

(** One turn of the [while] loop of [DSM2_watcher], from the world it
    sees.  The [usleep(10000)] that ends the turn shows in the clock
    reading of the next turn. *)
Definition DSM2_watcher_turn (p : dsm2_poll) (w : watcher_world)
    : watcher_world * list effect :=
  match is_new_dsm2_data p with
  | 1%Z => on_new_frame p w
  | 0%Z => if (using_dsm2 w =? 0)%Z then (w, []) else check_timeouts p w
  | _ => (w, [])
  end.

(** The loop of [DSM2_watcher] over a sequence of turns: for each turn,
    the world it saw and the world it left. *)
Fixpoint DSM2_watcher (polls : list dsm2_poll) (w : watcher_world)
    : list (watcher_world * watcher_world) :=
  match polls with
  | [] => []
  | p :: rest =>
      let before := seen_by p w in
      let after := fst (DSM2_watcher_turn p before) in
      (before, after) :: DSM2_watcher rest after
  end.

(** A turn in which the flight mode goes to EMERGENCY_LAND. *)
Definition enters_land (turn : watcher_world * watcher_world) : bool :=
  negb (flight_mode_eqb (flight_mode (user_interface (fst turn))) EMERGENCY_LAND)
  && flight_mode_eqb (flight_mode (user_interface (snd turn))) EMERGENCY_LAND.

(** A turn in which the watcher disarms an armed core. *)
Definition disarms (turn : watcher_world * watcher_world) : bool :=
  negb (core_mode_eqb (core_mode (ww_setpoint (fst turn))) DISARMED)
  && core_mode_eqb (core_mode (ww_setpoint (snd turn))) DISARMED.

(** A turn without a new frame, [secs] after the last one. *)
Definition silent_poll (last secs : Q)
    (others : core_setpoint_t -> core_setpoint_t) : dsm2_poll :=
  {| current_time := last + secs;
     frame_time := last + secs;
     is_new_dsm2_data := 0;
     get_dsm2_ch_normalized := fun _ => 0;
     other_threads := others |}.

(** ** The flight stack, the safety thread, the pause button and the LEDs *)

(** The two levels of a GPIO pin in robotics_cape.h. *)
Definition LOW : Z := 0.
Definition HIGH : Z := 1.

(** The [switch] on [user_interface.flight_mode] in [flight_stack]: the
    setpoint it leaves. *)
Definition translate_flight_mode (cfg : core_config_t) (ui : user_interface_t)
    (sp : core_setpoint_t) : core_setpoint_t :=
  match flight_mode ui with
  | USER_ATTITUDE =>
      {| core_mode := ATTITUDE;
         throttle := (throttle_stick ui + 1.0) / 2.0;
         sp_roll := roll_stick ui * max_roll_setpoint cfg;
         sp_pitch := pitch_stick ui * max_pitch_setpoint cfg;
         yaw_rate := yaw_stick ui * max_yaw_rate cfg;
         sp_altitude := sp_altitude sp;
         position_X := position_X sp;
         position_Y := position_Y sp;
         sp_yaw := sp_yaw sp |}
  | EMERGENCY_LAND =>
      {| core_mode := ATTITUDE;
         throttle := EMERGENCY_LAND_THR;
         sp_roll := 0;
         sp_pitch := 0;
         yaw_rate := 0;
         sp_altitude := sp_altitude sp;
         position_X := position_X sp;
         position_Y := position_Y sp;
         sp_yaw := sp_yaw sp |}
  | _ => sp
  end.

(** The test "emergency kill mode or kill switch". *)
Definition kill_requested (ui : user_interface_t) : bool :=
  flight_mode_eqb (flight_mode ui) EMERGENCY_KILL
  || negb (kill_switch ui =? 0)%Z.

Section Stack.

Context {FL : filter_lib}.

(** One turn of the [while] loop of [flight_stack].  [ui] is the user
    interface the turn reads, [previous_flight_mode] the local of that
    name; [fuel], [env] and [loaded] are those of the arming sequence,
    should the turn enter it.  The arming sequence blocks, and the other
    threads go on writing the user interface meanwhile: [after_arming] is
    the flight mode the turn reads once the sequence has returned.  The
    result carries the new value of the local. *)
Definition flight_stack_turn (fuel : nat) (env : nat -> arm_obs)
    (loaded : core_config_t) (ui : user_interface_t)
    (after_arming : flight_mode_t)
    (previous_flight_mode : flight_mode_t) (w : arm_world)
    : option (arm_world * flight_mode_t * list effect) :=
  let printed :=
    if flight_mode_eqb previous_flight_mode (flight_mode ui) then []
    else [Printf; Printf] in
  let (sp1, disarmed) :=
    if kill_requested ui then disarm (aw_setpoint w)
    else (aw_setpoint w, []) in
  if core_mode_eqb (core_mode sp1) DISARMED then
    match wait_for_arming_sequence fuel env loaded
            {| aw_config := aw_config w;
               aw_state := aw_state w;
               aw_setpoint := sp1 |} with
    | None => None
    | Some (_, w2, arming) =>
        Some (w2, after_arming,
              printed ++ disarmed ++ arming ++ [Usleep 10000])
    end
  else
    Some ({| aw_config := aw_config w;
             aw_state := aw_state w;
             aw_setpoint := translate_flight_mode (aw_config w) ui sp1 |},
          flight_mode ui,
          printed ++ disarmed ++ [Usleep 10000]).

(** One turn of the loop of [safety_thread_func]. *)
Definition safety_turn (s : core_state_t) (sp : core_setpoint_t)
    : core_setpoint_t * list effect :=
  if negb (core_mode_eqb (core_mode sp) DISARMED) then
    if Qgtb (Qabs (roll s)) TIP_THRESHOLD
       || Qgtb (Qabs (pitch s)) TIP_THRESHOLD
    then let (sp', eff) := disarm sp in
         (sp', Printf :: eff ++ [Usleep 50000])
    else (sp, [Usleep 50000])
  else (sp, [Usleep 50000]).

End Stack.

(** The [do ... while(i<10)] loop of [on_pause_press] with [n] rounds
    left: [released i] says whether the button reads LOW in round [i].
    The result says whether the loop ran to its end. *)
Fixpoint pause_rounds (n : nat) (i : nat) (released : nat -> bool)
    : bool * list effect :=
  match n with
  | O => (true, [])
  | S n' =>
      if released i then (false, [Usleep 100000])
      else let (held, eff) := pause_rounds n' (S i) released in
           (held, Usleep 100000 :: eff)
  end.

(** What [on_pause_press] leaves: the setpoint, whether it called
    [set_state(EXITING)], and its effects. *)
Record pause_result : Type := mk_pause_result {
  pr_setpoint : core_setpoint_t;
  pr_exiting : bool;
  pr_effects : list effect
}.

(** [on_pause_press()]. *)
Definition on_pause_press (released : nat -> bool) (sp : core_setpoint_t)
    : pause_result :=
  let (sp', eff) := disarm sp in
  let (held, slept) := pause_rounds 10 0 released in
  {| pr_setpoint := sp'; pr_exiting := held; pr_effects := eff ++ slept |}.

(** One turn of the loop of [led_manager], from the value of its local
    [toggle]. *)
Definition led_manager_turn (mode : core_mode_t) (toggle : Z)
    : Z * list effect :=
  if core_mode_eqb mode DISARMED then
    if negb (toggle =? 0)%Z
    then (1%Z, [SetRED LOW; Usleep 500000])
    else (0%Z, [SetRED HIGH; Usleep 500000])
  else (0%Z, [SetGRN HIGH; SetRED LOW; Usleep 500000]).

(** The loop of [led_manager] over the core modes its turns see: the
    effects of each turn. *)
Fixpoint led_manager (modes : list core_mode_t) (toggle : Z)
    : list (list effect) :=
  match modes with
  | [] => []
  | m :: rest =>
      let (toggle', eff) := led_manager_turn m toggle in
      eff :: led_manager rest toggle'
  end.

(** ** Instances on which the model is evaluated

    The statements below hold for every [filter_lib] and every
    [cape_lib]; to evaluate the model on concrete inputs one instance of
    each is fixed here. *)

(** Modelled from the spec: the discrete filter of filter_lib.h, "a
    fixed-form second-order IIR realization of a PID controller with
    anti-windup saturation and reset", with input and output history, the
    last input and the current output. *)
Record pid_filter : Type := mk_pid_filter {
  numerator : list Q;
  denominator : list Q;
  inputs : list Q;
  outputs : list Q;
  last_input : Q;
  pid_current_output : Q
}.

(** Modelled from the spec: [generate(kp, ki, kd, tau, DT)], "P + I + D
    with a first-order derivative filter at time-constant tau and fixed
    sample period DT", as the transfer function
    kp + ki*dt/(z-1) + (kd/tau)*(z-1)/(z-(1-dt/tau)) over the common
    denominator, "a filter with cleared history". *)
Definition pid_generate (kp ki kd tf dt : Q) : pid_filter :=
  {| numerator := [ (kp * tf + kd) / tf;
                    (ki * dt * tf - kp * (2 * tf - dt) - 2 * kd) / tf;
                    ((kp - ki * dt) * (tf - dt) + kd) / tf ];
     denominator := [ 1; (dt - 2 * tf) / tf; (tf - dt) / tf ];
     inputs := [0; 0; 0];
     outputs := [0; 0; 0];
     last_input := 0;
     pid_current_output := 0 |}.

Fixpoint dot (a b : list Q) : Q :=
  match a, b with
  | x :: a', y :: b' => x * y + dot a' b'
  | _, _ => 0
  end.

(** Modelled from the spec: [march(e)], "advances one step and stores new
    output in current_output". *)
Definition pid_march (f : pid_filter) (e : Q) : pid_filter :=
  let ins := e :: removelast (inputs f) in
  let old := removelast (outputs f) in
  let y := (dot (numerator f) ins - dot (tl (denominator f)) old)
           / hd 1 (denominator f) in
  {| numerator := numerator f;
     denominator := denominator f;
     inputs := ins;
     outputs := y :: old;
     last_input := e;
     pid_current_output := y |}.

(** Modelled from the spec: [saturate(lo, hi)], "clamps current_output in
    place and, as anti-windup, freezes the internal integrator state if
    the clamp bound was active": the newest stored output is the clamped
    one. *)
Definition pid_saturate (f : pid_filter) (lo hi : Q) : pid_filter :=
  let set y :=
    {| numerator := numerator f;
       denominator := denominator f;
       inputs := inputs f;
       outputs := y :: tl (outputs f);
       last_input := last_input f;
       pid_current_output := y |} in
  if Qgtb (pid_current_output f) hi then set hi
  else if Qltb (pid_current_output f) lo then set lo
  else f.

(** Modelled from the spec: [zero()], "clears all history including
    current_output". *)
Definition pid_zero (f : pid_filter) : pid_filter :=
  {| numerator := numerator f;
     denominator := denominator f;
     inputs := map (fun _ => 0) (inputs f);
     outputs := map (fun _ => 0) (outputs f);
     last_input := 0;
     pid_current_output := 0 |}.

(** The state of a filter is zero: all its history and its current
    output. *)
Definition pid_state_zero (f : pid_filter) : Prop :=
  Forall (fun x => x == 0) (inputs f)
  /\ Forall (fun x => x == 0) (outputs f)
  /\ last_input f == 0
  /\ pid_current_output f == 0.

#[local] Instance pid_lib : filter_lib :=
  {| discrete_filter := pid_filter;
     generatePID := pid_generate;
     marchFilter := pid_march;
     saturateFilter := pid_saturate;
     zeroFilter := pid_zero;
     current_output := pid_current_output |}.

(** A cosine that is exact at 0 (the Taylor polynomial of degree 4), pi
    to fourteen decimals, and a 2000 degree-per-second gyro range. *)
#[local] Instance eval_cape : cape_lib :=
  {| cos := fun x => 1 - x * x / 2 + x * x * x * x / 24;
     PI := 3.14159265358979;
     GYRO_FSR := 2000;
     DEGREE_TO_RAD := 3.14159265358979 / 180 |}.

(** The configuration of the spec's scenarios: pure P = 1 on every axis,
    idle 0.1, rate gains 4 per radian. *)
Definition scenario_config : core_config_t :=
  {| Droll_KP := 1; Droll_KI := 0; Droll_KD := 0;
     Dpitch_KP := 1; Dpitch_KI := 0; Dpitch_KD := 0;
     yaw_KP := 1; yaw_KI := 0; yaw_KD := 0;
     idle_speed := 0.1;
     max_roll_setpoint := 0.4;
     max_pitch_setpoint := 0.4;
     max_yaw_rate := 1;
     roll_rate_per_rad := 4;
     pitch_rate_per_rad := 4 |}.

(** The zero-initialised globals at program start, after
    [initialize_filters]. *)
Definition boot_state : core_state_t :=
  initialize_filters scenario_config
    {| control_loops := 0; altitude := 0; roll := 0; pitch := 0; yaw := 0;
       last_yaw := 0; dAltitude := 0; dRoll := 0; dPitch := 0; dYaw := 0;
       v_batt := 0; positionX := 0; positionY := 0; alt_err := 0;
       dRoll_err := 0; dPitch_err := 0; yaw_err := 0;
       roll_ctrl := pid_generate 0 0 0 0.015 DT;
       pitch_ctrl := pid_generate 0 0 0 0.015 DT;
       yaw_ctrl := pid_generate 0 0 0 0.015 DT;
       alt_err_integrator := 0; dRoll_err_integrator := 0;
       dPitch_err_integrator := 0; imu_roll_err := 0; imu_pitch_err := 0;
       yaw_err_integrator := 0;
       control_u := [0; 0; 0; 0]; esc_out := [0; 0; 0; 0];
       num_yaw_spins := 0; imu_yaw_on_takeoff := 0 |}.

Definition setpoint_of (m : core_mode_t) (thr r p yr y : Q) : core_setpoint_t :=
  {| core_mode := m; throttle := thr; sp_roll := r; sp_pitch := p;
     yaw_rate := yr; sp_altitude := 0; position_X := 0; position_Y := 0;
     sp_yaw := y |}.

Definition boot_world : core_world :=
  {| core_state := boot_state;
     core_setpoint := setpoint_of DISARMED 0 0 0 0 0;
     previous_core_mode := DISARMED |}.

(** An IMU sample with the given fused Euler angles and a still gyro. *)
Definition sample (x y z : Q) : mpudata_t :=
  {| fusedEuler := mk_vec3 x y z; rawGyro := mk_vec3 0%Z 0%Z 0%Z |}.

(** ** Concrete runs *)

Definition with_setpoint (sp : core_setpoint_t) (w : core_world) : core_world :=
  {| core_state := core_state w;
     core_setpoint := set_sp_yaw sp (sp_yaw (core_setpoint w));
     previous_core_mode := previous_core_mode w |}.

(** Just armed: the supervisor has set the mode to ATTITUDE and a
    setpoint with throttle [thr] and roll [r]; the core has not run
    since. *)
Definition armed_world (thr r : Q) : core_world :=
  with_setpoint (setpoint_of ATTITUDE thr r 0 0 0) boot_world.

(** In flight at half throttle, after the first armed cycle. *)
Definition flying_world : core_world :=
  fst (flight_core scenario_config (Some (sample 0 0 0)) (armed_world 0.5 0)).

(** In flight with the throttle setpoint at 0.1 and a roll command. *)
Definition low_throttle_world : core_world :=
  with_setpoint (setpoint_of ATTITUDE 0.1 0.1 0 0 0) flying_world.

(** Armed, two cycles flown (the second with the vehicle yawed by 0.1 rad
    from take-off), then disarmed by another thread. *)
Definition disarmed_after_flight : core_world :=
  with_setpoint (setpoint_of DISARMED 0.5 0 0 0 0)
    (fst (flight_core scenario_config (Some (sample 0 0 0.1)) flying_world)).

(** The disarmed cycle that follows. *)
Definition after_disarmed_cycle : core_world :=
  fst (flight_core scenario_config (Some (sample 0 0 0.1)) disarmed_after_flight).

(** Armed again after that cycle: the arming sequence has reinitialised
    the filters and set the mode. *)
Definition rearmed_world : core_world :=
  with_setpoint (setpoint_of ATTITUDE 0.5 0 0 0 0)
    {| core_state := initialize_filters scenario_config
                       (core_state after_disarmed_cycle);
       core_setpoint := core_setpoint after_disarmed_cycle;
       previous_core_mode := previous_core_mode after_disarmed_cycle |}.

(** The core state in flight, steady at a fused yaw reading of 3.10 rad. *)
Definition steady_at_3_10 : core_state_t :=
  estimate_state (sample 0 0 3.10) ATTITUDE ATTITUDE
    (estimate_state (sample 0 0 3.10) ATTITUDE ATTITUDE boot_state).

(** The radio watcher's world in flight in USER_ATTITUDE, the last frame
    received at time 0. *)
Definition radio_flying_world : watcher_world :=
  {| using_dsm2 := 1;
     last_dsm2_time := 0;
     user_interface :=
       {| flight_mode := USER_ATTITUDE; throttle_stick := 0.2;
          yaw_stick := 0; roll_stick := 0.1; pitch_stick := 0;
          kill_switch := 0 |};
     ww_setpoint := setpoint_of ATTITUDE 0.6 0.04 0 0 0 |}.

(** Turns without a new frame at the given times, the other threads
    leaving the setpoint alone. *)
Definition silent_polls (times : list Q) : list dsm2_poll :=
  map (fun t => silent_poll 0 t (fun sp => sp)) times.

(** A frame with the kill switch engaged and all sticks at 0.5. *)
Definition kill_frame : dsm2_poll :=
  {| current_time := 1; frame_time := 1; is_new_dsm2_data := 1;
     get_dsm2_ch_normalized := fun c => if (c =? 5)%Z then -1 else 0.5;
     other_threads := fun sp => sp |}.

(** A frame with the kill switch released. *)
Definition stick_frame : dsm2_poll :=
  {| current_time := 1; frame_time := 1; is_new_dsm2_data := 1;
     get_dsm2_ch_normalized := fun c => if (c =? 5)%Z then 1 else 0.5;
     other_threads := fun sp => sp |}.

(** What the arming sequence sees when the pilot arms a level vehicle:
    throttle down, up after one sleep, down after another. *)
Definition obs_of (r : Q) (thr : Q) : arm_obs :=
  {| obs_roll := r; obs_pitch := 0; obs_kill_switch := 0;
     obs_throttle_stick := thr; obs_exiting := false |}.

Definition arming_env (t : nat) : arm_obs :=
  match t with
  | 0%nat => obs_of 0 (-1)
  | 1%nat => obs_of 0 1
  | _ => obs_of 0 (-1)
  end.

(** The same with a slower pilot and the vehicle rolled to 1 rad at the
    second instant, level again at the third. *)
Definition tip_env (t : nat) : arm_obs :=
  match t with
  | 0%nat => obs_of 0 (-1)
  | 1%nat => obs_of 1 (-1)
  | 2%nat => obs_of 0 1
  | _ => obs_of 0 (-1)
  end.

(** The pilot arms, but the vehicle is rolled to 1 rad when the throttle
    comes down again; with the vehicle level once more, the pilot goes
    through the sticks a second time. *)
Definition restart_env (t : nat) : arm_obs :=
  match t with
  | 0%nat => obs_of 0 (-1)
  | 1%nat => obs_of 0 1
  | 2%nat => obs_of 1 (-1)
  | 3%nat => obs_of 0 (-1)
  | 4%nat => obs_of 0 1
  | _ => obs_of 0 (-1)
  end.

(** The globals of the arming sequence at program start. *)
Definition boot_arm_world : arm_world :=
  {| aw_config := scenario_config;
     aw_state := boot_state;
     aw_setpoint := setpoint_of DISARMED 0 0 0 0 0 |}.

(** ** Predicates used in the statements *)

(** A value a speed controller accepts. *)
Definition in01 (x : Q) : Prop := 0 <= x /\ x <= 1.

(** The same of a float: a number, and in [0,1]. *)
Definition cf_in01 (x : cfloat) : Prop :=
  match x with
  | Finite q => in01 q
  | _ => False
  end.

(** The conditions whose observation ends each loop of the arming
    sequence. *)
Definition is_level (o : arm_obs) : Prop :=
  Qabs (obs_roll o) <= ARM_TIP_THRESHOLD /\ Qabs (obs_pitch o) <= ARM_TIP_THRESHOLD.
Definition kill_released (o : arm_obs) : Prop := obs_kill_switch o = 0%Z.
Definition throttle_down (o : arm_obs) : Prop := obs_throttle_stick o <= -0.9.
Definition throttle_up (o : arm_obs) : Prop := 0.9 <= obs_throttle_stick o.

(** The value of a C [float] or [double] is a dyadic rational, an
    integer over a power of two. *)
Definition dyadic (q : Q) : Prop :=
  exists (m : Z) (e : nat), q == inject_Z m / inject_Z (2 ^ Z.of_nat e).

(** The throttle stick below -0.9; above 0.9. *)
Definition throttle_below (o : arm_obs) : Prop := obs_throttle_stick o < -0.9.
Definition throttle_above (o : arm_obs) : Prop := 0.9 < obs_throttle_stick o.

(** The condition that lets the run leave the loop at [pc]. *)
Definition leaves (pc : arm_pc) : arm_obs -> Prop :=
  match pc with
  | WAIT_LEVEL => is_level
  | WAIT_KILL_SWITCH => kill_released
  | WAIT_THROTTLE_DOWN => throttle_down
  | WAIT_THROTTLE_UP => throttle_up
  | WAIT_THROTTLE_DOWN_AGAIN => throttle_down
  | CHECK_LEVEL => is_level
  end.

(** The loops already left when the run is at [pc]. *)
Definition loops_before (pc : arm_pc) : list arm_pc :=
  match pc with
  | WAIT_LEVEL => []
  | WAIT_KILL_SWITCH => [WAIT_LEVEL]
  | WAIT_THROTTLE_DOWN => [WAIT_LEVEL; WAIT_KILL_SWITCH]
  | WAIT_THROTTLE_UP => [WAIT_LEVEL; WAIT_KILL_SWITCH; WAIT_THROTTLE_DOWN]
  | WAIT_THROTTLE_DOWN_AGAIN =>
      [WAIT_LEVEL; WAIT_KILL_SWITCH; WAIT_THROTTLE_DOWN; WAIT_THROTTLE_UP]
  | CHECK_LEVEL =>
      [WAIT_LEVEL; WAIT_KILL_SWITCH; WAIT_THROTTLE_DOWN; WAIT_THROTTLE_UP;
       WAIT_THROTTLE_DOWN_AGAIN]
  end.

(** The conditions [conds] were observed one after the other, at
    instants [from <= t1 <= t2 <= ... <= upto]. *)
Fixpoint seen_in_order (env : nat -> arm_obs) (conds : list (arm_obs -> Prop))
    (from upto : nat) : Prop :=
  match conds with
  | [] => (from <= upto)%nat
  | c :: rest =>
      exists t, (from <= t)%nat /\ c (env t) /\ seen_in_order env rest t upto
  end.

(** What holds when the run of the arming sequence is at [pc] at instant
    [t]: the loops before [pc] were left in order, and the final check is
    reached at the instant the last loop saw the throttle down. *)
Definition arm_inv (env : nat -> arm_obs) (pc : arm_pc) (t : nat) : Prop :=
  seen_in_order env (map leaves (loops_before pc)) 0 t
  /\ (pc = CHECK_LEVEL -> throttle_down (env t)).

(** The restart rule as the spec words it: whenever the run is at an
    instant at which the vehicle is tipped, it is at, or later comes back
    to, the first loop. *)
Definition restarts_after_tip (env : nat -> arm_obs)
    (trace : list (arm_pc * nat)) : Prop :=
  forall i pc t, nth_error trace i = Some (pc, t) -> tipped (env t) = true ->
    exists j t', (i <= j)%nat /\ nth_error trace j = Some (WAIT_LEVEL, t').

(** A run of the radio watcher after the first frame, the last frame
    received at [last]; and a sequence of turns without a new frame. *)
Definition started (last : Q) (w : watcher_world) : Prop :=
  using_dsm2 w <> 0%Z /\ last_dsm2_time w = last.

Definition silent (polls : list dsm2_poll) : Prop :=
  Forall (fun p => is_new_dsm2_data p = 0%Z) polls.

(** The core is armed; the user's flight mode is EMERGENCY_LAND. *)
Definition armed (w : watcher_world) : Prop :=
  core_mode (ww_setpoint w) <> DISARMED.

Definition landing (w : watcher_world) : Prop :=
  flight_mode (user_interface w) = EMERGENCY_LAND.

(** What a turn of the radio watcher without a new frame does, by the
    value [secs] of [timeout_secs]. *)
Definition silent_turn (last : Q) (p : dsm2_poll)
    (turn : watcher_world * watcher_world) : Prop :=
  let (before, after) := turn in
  let secs := timeout_secs last (current_time p) in
  (armed before -> DSM2_DISARM_TIMEOUT < secs ->
     core_mode (ww_setpoint after) = DISARMED
     /\ user_interface after = user_interface before)
  /\ (~ (armed before /\ DSM2_DISARM_TIMEOUT < secs) ->
      ~ landing before -> DSM2_LAND_TIMEOUT < secs ->
      landing after
      /\ throttle_stick (user_interface after) == -1
      /\ roll_stick (user_interface after) == 0
      /\ pitch_stick (user_interface after) == 0
      /\ yaw_stick (user_interface after) == 0
      /\ ww_setpoint after = ww_setpoint before)
  /\ (~ (armed before /\ DSM2_DISARM_TIMEOUT < secs) ->
      ~ (~ landing before /\ DSM2_LAND_TIMEOUT < secs) ->
      after = before).

(** The pace of the loop of [DSM2_watcher], which sleeps 10 ms a turn:
    each turn reads the clock less than DSM2_DISARM_TIMEOUT -
    DSM2_LAND_TIMEOUT after the turn before it, the first of them after
    [prev]. *)
Fixpoint paced (prev : Q) (polls : list dsm2_poll) : Prop :=
  match polls with
  | [] => True
  | p :: rest =>
      current_time p - prev < DSM2_DISARM_TIMEOUT - DSM2_LAND_TIMEOUT
      /\ paced (current_time p) rest
  end.

(** What a turn without a new frame does in a paced run, by the value of
    [timeout_secs]: past DSM2_LAND_TIMEOUT the flight mode is
    EMERGENCY_LAND when the turn ends, and the turn that finds another
    mode enters it, with the sticks forced and the setpoint left alone;
    past DSM2_DISARM_TIMEOUT an armed core is disarmed; and a turn that
    disarms finds EMERGENCY_LAND already. *)
Definition paced_turn (last : Q) (p : dsm2_poll)
    (turn : watcher_world * watcher_world) : Prop :=
  let secs := timeout_secs last (current_time p) in
  (DSM2_LAND_TIMEOUT < secs -> landing (snd turn))
  /\ (DSM2_LAND_TIMEOUT < secs -> ~ landing (fst turn) ->
      enters_land turn = true
      /\ throttle_stick (user_interface (snd turn)) == -1
      /\ roll_stick (user_interface (snd turn)) == 0
      /\ pitch_stick (user_interface (snd turn)) == 0
      /\ yaw_stick (user_interface (snd turn)) == 0
      /\ ww_setpoint (snd turn) = ww_setpoint (fst turn))
  /\ (DSM2_DISARM_TIMEOUT < secs -> armed (fst turn) ->
      core_mode (ww_setpoint (snd turn)) = DISARMED)
  /\ (disarms turn = true ->
      landing (fst turn) /\ DSM2_DISARM_TIMEOUT < secs).

(** ** Inputs and predicates for the further properties *)

(** The torque and thrust combinations of four motor commands in the
    X layout: collective, roll, pitch and yaw. *)
Definition collective (e : list Q) : Q := at_ e 0 + at_ e 1 + at_ e 2 + at_ e 3.
Definition roll_torque (e : list Q) : Q := (at_ e 1 + at_ e 2) - (at_ e 0 + at_ e 3).
Definition pitch_torque (e : list Q) : Q := (at_ e 0 + at_ e 2) - (at_ e 1 + at_ e 3).
Definition yaw_torque (e : list Q) : Q := (at_ e 2 + at_ e 3) - (at_ e 0 + at_ e 1).

(** All four sticks are in [-1,1]. *)
Definition sticks_in_range (ui : user_interface_t) : Prop :=
  (-1 <= throttle_stick ui <= 1) /\ (-1 <= yaw_stick ui <= 1)
  /\ (-1 <= roll_stick ui <= 1) /\ (-1 <= pitch_stick ui <= 1).

(** The receiver hands out normalized channels. *)
Definition channels_in_range (p : dsm2_poll) : Prop :=
  forall c, -1 <= get_dsm2_ch_normalized p c <= 1.

(** The poll [p] with channel [c] reading [v] instead. *)
Definition with_channel (p : dsm2_poll) (c : Z) (v : Q) : dsm2_poll :=
  {| current_time := current_time p;
     frame_time := frame_time p;
     is_new_dsm2_data := is_new_dsm2_data p;
     get_dsm2_ch_normalized :=
       fun k => if (k =? c)%Z then v else get_dsm2_ch_normalized p k;
     other_threads := other_threads p |}.

(** The number of sleeps among some effects. *)
Definition sleeps (eff : list effect) : nat :=
  length (filter (fun e => match e with Usleep _ => true | _ => false end) eff).

(** The pilot never releases the kill switch and the program exits
    after the second sleep. *)
Definition killed_env (t : nat) : arm_obs :=
  {| obs_roll := 0; obs_pitch := 0; obs_kill_switch := 1;
     obs_throttle_stick := -1;
     obs_exiting := (2 <=? t)%nat |}.

(** The program is exiting when the sequence starts. *)
Definition exiting_env (t : nat) : arm_obs :=
  {| obs_roll := 0; obs_pitch := 0; obs_kill_switch := 0;
     obs_throttle_stick := -1; obs_exiting := true |}.

(** The arming world in flight: the globals of [flying_world]. *)
Definition flying_arm_world : arm_world :=
  {| aw_config := scenario_config;
     aw_state := core_state flying_world;
     aw_setpoint := core_setpoint flying_world |}.

(** The user interface after the frames of a pilot flying in
    USER_ATTITUDE. *)
Definition flying_ui : user_interface_t := user_interface radio_flying_world.

(** In flight, rolled to 1.6 rad by the last IMU sample. *)
Definition tipped_world : core_world :=
  fst (flight_core scenario_config (Some (sample 0 (-1.6) 0)) flying_world).

(** The pause button let go in the fourth round; held throughout. *)
Definition short_press (i : nat) : bool := (3 <=? i)%nat.
Definition long_press (i : nat) : bool := false.

(** * Properties *)

(** ** Comparisons *)

Lemma Qgtb_true (x y : Q) : Qgtb x y = true <-> y < x.
Proof.
  unfold Qgtb. rewrite negb_true_iff, <- not_true_iff_false, Qle_bool_iff.
  split; [apply Qnot_le_lt | apply Qlt_not_le].
Qed.

Lemma Qgtb_false (x y : Q) : Qgtb x y = false <-> x <= y.
Proof.
  unfold Qgtb. rewrite negb_false_iff. apply Qle_bool_iff.
Qed.

Lemma Qltb_true (x y : Q) : Qltb x y = true <-> x < y.
Proof. apply Qgtb_true. Qed.

Lemma Qltb_false (x y : Q) : Qltb x y = false <-> y <= x.
Proof. apply Qgtb_false. Qed.

(** Case analysis on a comparison, with the order fact in the context. *)
Ltac cmp x y :=
  let E := fresh "E" in
  destruct (Qgtb x y) eqn:E;
  [apply Qgtb_true in E | apply Qgtb_false in E].

Lemma core_mode_eqb_eq (a b : core_mode_t) : core_mode_eqb a b = true <-> a = b.
Proof. destruct a, b; simpl; split; congruence. Qed.

Lemma flight_mode_eqb_eq (a b : flight_mode_t) : flight_mode_eqb a b = true <-> a = b.
Proof. destruct a, b; simpl; split; congruence. Qed.

(** ** The search for the largest output *)

Lemma limits_fold_fst (l : list Q) (acc : Q * Q) :
  fst acc <= fst (fold_left limits_step l acc)
  /\ Forall (fun x => x <= fst (fold_left limits_step l acc)) l
  /\ (fst (fold_left limits_step l acc) = fst acc
      \/ In (fst (fold_left limits_step l acc)) l).
Proof.
  revert acc. induction l as [|x l IH]; intros acc.
  - simpl. split; [lra|]. split; [constructor | now left].
  - change (fold_left limits_step (x :: l) acc)
      with (fold_left limits_step l (limits_step acc x)).
    destruct (IH (limits_step acc x)) as (Hle & Hall & Hin).
    set (r := fst (fold_left limits_step l (limits_step acc x))) in *.
    assert (Hstep : fst (limits_step acc x)
                    = if Qgtb x (fst acc) then x else fst acc) by reflexivity.
    rewrite Hstep in Hle, Hin. clear Hstep.
    cmp x (fst acc).
    + split; [lra|]. split; [constructor; [exact Hle | exact Hall]|].
      destruct Hin as [Hr | Hin]; [right; left; now symmetry | right; now right].
    + split; [exact Hle|]. split; [constructor; [lra | exact Hall]|].
      destruct Hin as [Hr | Hin]; [now left | right; now right].
Qed.

Lemma largest_value_bounds (l : list Q) :
  0 <= largest_value l
  /\ Forall (fun x => x <= largest_value l) l
  /\ (largest_value l = 0 \/ In (largest_value l) l).
Proof. exact (limits_fold_fst l (0, 1)). Qed.

Lemma reduce_evenly_below (l : list Q) :
  Forall (fun x => x <= 1) l -> reduce_evenly l = l.
Proof.
  intros Hall. unfold reduce_evenly.
  cmp (largest_value l) 1; [|reflexivity].
  exfalso. destruct (largest_value_bounds l) as (_ & _ & [H0 | Hin]).
  - rewrite H0 in E. lra.
  - rewrite Forall_forall in Hall. specialize (Hall _ Hin). lra.
Qed.

Lemma reduce_evenly_above (l : list Q) :
  Exists (fun x => 1 < x) l ->
  1 < largest_value l
  /\ In (largest_value l) l
  /\ reduce_evenly l = map (fun x => x - (largest_value l - 1)) l.
Proof.
  intros Hex. destruct (largest_value_bounds l) as (_ & Hall & Hin).
  assert (Hgt : 1 < largest_value l).
  { apply Exists_exists in Hex. destruct Hex as (x & Hx & H1).
    rewrite Forall_forall in Hall. specialize (Hall _ Hx). lra. }
  split; [exact Hgt|]. split.
  - destruct Hin as [H0 | Hin]; [rewrite H0 in Hgt; lra | exact Hin].
  - unfold reduce_evenly. apply Qgtb_true in Hgt. now rewrite Hgt.
Qed.

Lemma at_map (f : Q -> Q) (l : list Q) (i : nat) :
  (i < length l)%nat -> at_ (map f l) i = f (at_ l i).
Proof.
  unfold at_. revert i. induction l as [|x l IH]; intros i Hi; simpl in *.
  - lia.
  - destruct i; [reflexivity | apply IH; lia].
Qed.

(** C3.  Headroom preservation.  If some entry of the mixed vector exceeds
    1, the largest entry m is found, m - 1 is subtracted from every entry,
    the largest entry of the result is exactly 1 and every difference
    between two entries is the one before the step; if no entry exceeds 1
    the vector is returned as it is. *)
Theorem headroom_preservation (new_esc : list Q) :
  (Exists (fun x => 1 < x) new_esc ->
   let m := largest_value new_esc in
   In m new_esc
   /\ Forall (fun x => x <= m) new_esc
   /\ reduce_evenly new_esc = map (fun x => x - (m - 1)) new_esc
   /\ Forall (fun x => x <= 1) (reduce_evenly new_esc)
   /\ Exists (fun x => x == 1) (reduce_evenly new_esc)
   /\ forall i j, (i < length new_esc)%nat -> (j < length new_esc)%nat ->
        at_ (reduce_evenly new_esc) i - at_ (reduce_evenly new_esc) j
        == at_ new_esc i - at_ new_esc j)
  /\ (Forall (fun x => x <= 1) new_esc -> reduce_evenly new_esc = new_esc).
Proof.
  split; [|apply reduce_evenly_below].
  intros Hex m. destruct (reduce_evenly_above new_esc Hex) as (Hgt & Hin & Heq).
  destruct (largest_value_bounds new_esc) as (_ & Hall & _).
  fold m in Hgt, Hin, Heq, Hall.
  split; [exact Hin|]. split; [exact Hall|]. split; [exact Heq|].
  rewrite Heq. split; [|split].
  - apply Forall_map. revert Hall. apply Forall_impl. intros x Hx. lra.
  - apply Exists_exists. exists (m - (m - 1)). split; [|lra].
    apply in_map_iff. now exists m.
  - intros i j Hi Hj. rewrite !at_map by assumption. lra.
Qed.

(** The spec's saturation scenario: u = [0.9, 0.2, 0, 0]. *)
Lemma headroom_preservation_witness :
  reduce_evenly (mix 0.9 0.2 0 0)
  = map (fun x => x - (largest_value (mix 0.9 0.2 0 0) - 1)) (mix 0.9 0.2 0 0)
  /\ reduce_evenly (mix 0.45 0 0 0) = mix 0.45 0 0 0.
Proof.
  split.
  - apply (headroom_preservation (mix 0.9 0.2 0 0)).
    apply Exists_cons_tl, Exists_cons_hd. reflexivity.
  - apply (headroom_preservation (mix 0.45 0 0 0)).
    repeat constructor; discriminate.
Defined.

(** ** The output stage *)

Lemma clamp01_in01 (x : Q) : in01 (clamp01 x).
Proof.
  unfold clamp01, in01, Qltb. cmp x 1; [lra|]. cmp 0 x; lra.
Qed.

Lemma clamp01_negative (x : Q) : x < 0 -> clamp01 x = 0.
Proof.
  intros H. unfold clamp01, Qltb. cmp x 1; [lra|]. cmp 0 x; [reflexivity | lra].
Qed.

Lemma clamp01_inside (x : Q) : 0 <= x -> x <= 1 -> clamp01 x = x.
Proof.
  intros H0 H1. unfold clamp01, Qltb. cmp x 1; [lra|]. cmp 0 x; [lra | reflexivity].
Qed.

Lemma send_pulses_values (i : Z) (vals : list Q) :
  map snd (send_pulses i vals) = vals.
Proof.
  revert i. induction vals as [|v vals IH]; intros i; simpl; [reflexivity|].
  now rewrite IH.
Qed.

Lemma Forall_in01_pulses (ps : list pulse) :
  Forall in01 (map snd ps) -> Forall (fun p => in01 (snd p)) ps.
Proof. intros H. now rewrite Forall_map in H. Qed.

(** *** The output stage on floats *)

Lemma cf_of_finite (q : Q) : - FLT_MAX <= q -> q <= FLT_MAX -> cf_of q = Finite q.
Proof.
  intros Hlo Hhi. unfold cf_of, Qltb.
  cmp q FLT_MAX; [lra|]. cmp (- FLT_MAX) q; [lra | reflexivity].
Qed.

Lemma cf_add_finite (x y : Q) :
  - FLT_MAX <= x + y -> x + y <= FLT_MAX ->
  cf_add (Finite x) (Finite y) = Finite (x + y).
Proof. intros Hlo Hhi. exact (cf_of_finite _ Hlo Hhi). Qed.

Lemma cf_sub_finite (x y : Q) :
  - FLT_MAX <= x - y -> x - y <= FLT_MAX ->
  cf_sub (Finite x) (Finite y) = Finite (x - y).
Proof. intros Hlo Hhi. exact (cf_of_finite _ Hlo Hhi). Qed.

Lemma mix_f_finite (u0 u1 u2 u3 : Q) :
  Forall (fun x => Qabs x <= U_RANGE) [u0; u1; u2; u3] ->
  mix_f (Finite u0) (Finite u1) (Finite u2) (Finite u3)
  = map Finite (mix u0 u1 u2 u3)
  /\ Forall (fun x => Qabs x <= 4 * U_RANGE) (mix u0 u1 u2 u3).
Proof.
  intros Hall.
  apply Forall_cons_iff in Hall. destruct Hall as (H0 & Hall).
  apply Forall_cons_iff in Hall. destruct Hall as (H1 & Hall).
  apply Forall_cons_iff in Hall. destruct Hall as (H2 & Hall).
  apply Forall_cons_iff in Hall. destruct Hall as (H3 & _).
  apply Qabs_Qle_condition in H0, H1, H2, H3.
  unfold U_RANGE in *.
  split.
  - unfold mix_f, mix. cbn [map].
    repeat first [ rewrite cf_add_finite by (unfold FLT_MAX; lra)
                 | rewrite cf_sub_finite by (unfold FLT_MAX; lra) ].
    reflexivity.
  - unfold mix. repeat (apply Forall_cons; [apply Qabs_Qle_condition; lra|]).
    apply Forall_nil.
Qed.

Lemma largest_fold_f (l : list Q) (a b : Q) :
  fold_left (fun largest x => if cf_gt x largest then x else largest)
            (map Finite l) (Finite a)
  = Finite (fst (fold_left limits_step l (a, b))).
Proof.
  revert a b. induction l as [|x l IH]; intros a b; [reflexivity|].
  cbn [map fold_left]. unfold limits_step at 2. cbn [fst snd cf_gt].
  destruct (Qgtb x a); apply IH.
Qed.

Lemma largest_value_f_finite (l : list Q) :
  largest_value_f (map Finite l) = Finite (largest_value l).
Proof. exact (largest_fold_f l 0 1). Qed.

Lemma reduce_evenly_f_finite (l : list Q) :
  Forall (fun x => Qabs x <= 4 * U_RANGE) l ->
  reduce_evenly_f (map Finite l) = map Finite (reduce_evenly l).
Proof.
  intros Hall. unfold reduce_evenly_f, reduce_evenly.
  rewrite largest_value_f_finite. cbn [cf_gt].
  destruct (Qgtb (largest_value l) 1); [|reflexivity].
  assert (Hm : 0 <= largest_value l <= 4 * U_RANGE).
  { destruct (largest_value_bounds l) as (H0 & _ & [Hz | Hin]).
    - rewrite Hz. unfold U_RANGE. lra.
    - rewrite Forall_forall in Hall. specialize (Hall _ Hin).
      apply Qabs_Qle_condition in Hall. lra. }
  unfold U_RANGE in *.
  rewrite cf_sub_finite by (unfold FLT_MAX; lra).
  rewrite !map_map. apply map_ext_in. intros x Hx.
  rewrite Forall_forall in Hall. specialize (Hall _ Hx).
  apply Qabs_Qle_condition in Hall.
  apply cf_sub_finite; unfold FLT_MAX; lra.
Qed.

Lemma clamp01_f_finite (x : Q) : clamp01_f (Finite x) = Finite (clamp01 x).
Proof.
  unfold clamp01_f, clamp01, cf_lt, Qltb. cbn [cf_gt].
  destruct (Qgtb x 1); [reflexivity|]. destruct (Qgtb 0 x); reflexivity.
Qed.

(** Within [U_RANGE] the stage on floats is the stage on numbers. *)
Lemma esc_out_f_finite (u0 u1 u2 u3 : Q) :
  Forall (fun x => Qabs x <= U_RANGE) [u0; u1; u2; u3] ->
  esc_out_f (Finite u0) (Finite u1) (Finite u2) (Finite u3)
  = map Finite (map clamp01 (reduce_evenly (mix u0 u1 u2 u3))).
Proof.
  intros Hall. destruct (mix_f_finite u0 u1 u2 u3 Hall) as (Hmix & Hb).
  unfold esc_out_f. rewrite Hmix, (reduce_evenly_f_finite _ Hb), !map_map.
  apply map_ext. intros x. apply clamp01_f_finite.
Qed.

Lemma Forall_cf_in01_finite (l : list Q) :
  Forall in01 l -> Forall cf_in01 (map Finite l).
Proof. intros H. apply Forall_map. exact H. Qed.

Lemma esc_out_f_in01 (u0 u1 u2 u3 : Q) :
  Forall (fun x => Qabs x <= U_RANGE) [u0; u1; u2; u3] ->
  Forall cf_in01 (esc_out_f (Finite u0) (Finite u1) (Finite u2) (Finite u3)).
Proof.
  intros Hall. rewrite (esc_out_f_finite _ _ _ _ Hall).
  apply Forall_cf_in01_finite, Forall_map, Forall_forall. intros x _.
  apply clamp01_in01.
Qed.

Section CoreProperties.

Context {FL : filter_lib} {CL : cape_lib}.

Lemma manage_setpoint_armed (sp0 : core_setpoint_t) :
  core_mode sp0 <> DISARMED ->
  exists y, manage_setpoint sp0 = Some (set_sp_yaw sp0 y).
Proof.
  intros Harmed. unfold manage_setpoint.
  destruct sp0 as [m thr r p yr a px py y]; simpl in *.
  destruct m; [congruence | | now exists y].
  destruct (Qgtb thr YAW_CUTOFF_TH); [now exists (y + DT * yr) | now exists y].
Qed.

Lemma manage_setpoint_disarmed (sp0 : core_setpoint_t) :
  core_mode sp0 = DISARMED -> manage_setpoint sp0 = None.
Proof. intros H. unfold manage_setpoint. now rewrite H. Qed.

(** An armed call is the estimate followed by the controllers. *)
Lemma flight_core_armed (cfg : core_config_t) (mpu : mpudata_t) (w : core_world) :
  core_mode (core_setpoint w) <> DISARMED ->
  exists y,
    let sp := set_sp_yaw (core_setpoint w) y in
    let s := estimate_state mpu (previous_core_mode w)
               (core_mode (core_setpoint w)) (core_state w) in
    flight_core cfg (Some mpu) w
    = ({| core_state := fst (run_controllers cfg (previous_core_mode w) sp s);
          core_setpoint := sp;
          previous_core_mode := core_mode (core_setpoint w) |},
       snd (run_controllers cfg (previous_core_mode w) sp s)).
Proof.
  intros Harmed. destruct (manage_setpoint_armed _ Harmed) as (y & Hy).
  exists y. unfold flight_core. rewrite Hy. reflexivity.
Qed.

(** A disarmed call resets and returns. *)
Lemma flight_core_disarmed (cfg : core_config_t) (mpu : mpudata_t) (w : core_world) :
  core_mode (core_setpoint w) = DISARMED ->
  flight_core cfg (Some mpu) w
  = ({| core_state := reset_controllers
                        (estimate_state mpu (previous_core_mode w) DISARMED
                           (core_state w));
        core_setpoint := set_sp_yaw (core_setpoint w) 0;
        previous_core_mode := DISARMED |}, no_output).
Proof.
  intros H. unfold flight_core. rewrite (manage_setpoint_disarmed _ H), H.
  reflexivity.
Qed.

Lemma run_controllers_first (cfg : core_config_t) (sp : core_setpoint_t)
    (s : core_state_t) :
  let r := run_controllers cfg DISARMED sp s in
  esc_out (fst r) = esc_out s
  /\ control_u (fst r) = control_u s
  /\ pulses (snd r) = [(1%Z, 0); (2%Z, 0); (3%Z, 0); (4%Z, 0)].
Proof. repeat split. Qed.

Lemma run_controllers_later (cfg : core_config_t) (previous : core_mode_t)
    (sp : core_setpoint_t) (s : core_state_t) :
  previous <> DISARMED ->
  let r := run_controllers cfg previous sp s in
  let u := control_u (fst r) in
  esc_out (fst r)
  = map clamp01 (reduce_evenly (mix (at_ u 0) (at_ u 1) (at_ u 2) (at_ u 3)))
  /\ at_ u 0 = throttle_u cfg sp s
  /\ map snd (pulses (snd r)) = esc_out (fst r).
Proof.
  intros Hprev.
  destruct previous; [congruence | |];
    (split; [reflexivity|]; split; [reflexivity|];
     exact (send_pulses_values 0 _)).
Qed.

Lemma reduce_evenly_length (l : list Q) : length (reduce_evenly l) = length l.
Proof.
  unfold reduce_evenly. destruct (Qgtb _ _); [apply length_map | reflexivity].
Qed.

(** C2.  On an armed cycle every pulse sent is in [0,1]; when the cycle
    records [esc_out] (the previous mode was not DISARMED) the four
    recorded values are the pulses sent and are in [0,1], and as long as
    the four control components of the cycle are at most [U_RANGE] in
    magnitude, the output stage on floats, with its infinities, its NaN
    and its overflow, yields these same values; on the first cycle
    after DISARMED nothing is recorded and [esc_out] is as before.  From
    any four control components of at most [U_RANGE] in magnitude the
    output stage on floats yields values in [0,1]. *)
Theorem esc_in_unit_interval (cfg : core_config_t) (mpu : mpudata_t)
    (w : core_world) :
  core_mode (core_setpoint w) <> DISARMED ->
  let r := flight_core cfg (Some mpu) w in
  let u := control_u (core_state (fst r)) in
  Forall (fun p => in01 (snd p)) (pulses (snd r))
  /\ length (pulses (snd r)) = 4%nat
  /\ (previous_core_mode w <> DISARMED ->
      Forall in01 (esc_out (core_state (fst r)))
      /\ map snd (pulses (snd r)) = esc_out (core_state (fst r))
      /\ (Forall (fun x => Qabs x <= U_RANGE)
                 [at_ u 0; at_ u 1; at_ u 2; at_ u 3] ->
          esc_out_f (Finite (at_ u 0)) (Finite (at_ u 1))
                    (Finite (at_ u 2)) (Finite (at_ u 3))
          = map Finite (esc_out (core_state (fst r)))
          /\ Forall cf_in01
                (esc_out_f (Finite (at_ u 0)) (Finite (at_ u 1))
                           (Finite (at_ u 2)) (Finite (at_ u 3)))))
  /\ (previous_core_mode w = DISARMED ->
      esc_out (core_state (fst r)) = esc_out (core_state w))
  /\ (forall u0 u1 u2 u3,
        Forall (fun x => Qabs x <= U_RANGE) [u0; u1; u2; u3] ->
        Forall cf_in01
          (esc_out_f (Finite u0) (Finite u1) (Finite u2) (Finite u3))).
Proof.
  intros Harmed. destruct (flight_core_armed cfg mpu w Harmed) as (y & Hfc).
  cbv zeta in Hfc. intros r u.
  enough (Hmain : Forall (fun p => in01 (snd p)) (pulses (snd r))
    /\ length (pulses (snd r)) = 4%nat
    /\ (previous_core_mode w <> DISARMED ->
        Forall in01 (esc_out (core_state (fst r)))
        /\ map snd (pulses (snd r)) = esc_out (core_state (fst r))
        /\ (Forall (fun x => Qabs x <= U_RANGE)
                   [at_ u 0; at_ u 1; at_ u 2; at_ u 3] ->
            esc_out_f (Finite (at_ u 0)) (Finite (at_ u 1))
                      (Finite (at_ u 2)) (Finite (at_ u 3))
            = map Finite (esc_out (core_state (fst r)))
            /\ Forall cf_in01
                  (esc_out_f (Finite (at_ u 0)) (Finite (at_ u 1))
                             (Finite (at_ u 2)) (Finite (at_ u 3)))))
    /\ (previous_core_mode w = DISARMED ->
        esc_out (core_state (fst r)) = esc_out (core_state w))).
  { destruct Hmain as (H1 & H2 & H3 & H4).
    repeat (split; [assumption|]). exact esc_out_f_in01. }
  subst u r. rewrite Hfc. cbn [fst snd core_state].
  set (sp := set_sp_yaw (core_setpoint w) y).
  set (s := estimate_state mpu _ _ _).
  destruct (core_mode_eqb (previous_core_mode w) DISARMED) eqn:Hprev.
  - apply core_mode_eqb_eq in Hprev. rewrite Hprev.
    destruct (run_controllers_first cfg sp s) as (Hesc & _ & Hp).
    cbv zeta in Hesc, Hp. rewrite Hp, Hesc.
    split; [repeat constructor; simpl; lra|].
    split; [reflexivity|]. split; [congruence | reflexivity].
  - assert (Hne : previous_core_mode w <> DISARMED).
    { intros H. apply core_mode_eqb_eq in H. congruence. }
    destruct (run_controllers_later cfg _ sp s Hne) as (Hesc & _ & Hp).
    cbv zeta in Hesc, Hp.
    assert (Hall : Forall in01 (esc_out (fst (run_controllers cfg
                     (previous_core_mode w) sp s)))).
    { rewrite Hesc. apply Forall_map, Forall_forall. intros x _.
      apply clamp01_in01. }
    split; [apply Forall_in01_pulses; now rewrite Hp|].
    split.
    { transitivity (length (map snd (pulses (snd (run_controllers cfg
                      (previous_core_mode w) sp s)))));
        [symmetry; apply length_map|].
      rewrite Hp, Hesc, length_map, reduce_evenly_length. reflexivity. }
    split; [|congruence].
    intros _. split; [exact Hall|]. split; [exact Hp|].
    intros Hrange.
    assert (Hf : esc_out_f
                   (Finite (at_ (control_u (fst (run_controllers cfg
                      (previous_core_mode w) sp s))) 0))
                   (Finite (at_ (control_u (fst (run_controllers cfg
                      (previous_core_mode w) sp s))) 1))
                   (Finite (at_ (control_u (fst (run_controllers cfg
                      (previous_core_mode w) sp s))) 2))
                   (Finite (at_ (control_u (fst (run_controllers cfg
                      (previous_core_mode w) sp s))) 3))
                 = map Finite (esc_out (fst (run_controllers cfg
                      (previous_core_mode w) sp s)))).
    { rewrite (esc_out_f_finite _ _ _ _ Hrange). f_equal. symmetry.
      exact Hesc. }
    split; [exact Hf|]. rewrite Hf. apply Forall_cf_in01_finite. exact Hall.
Qed.

Lemma at_mix_le (a b c d bound : Q) (j : nat) :
  Forall (fun x => x <= bound) (mix a b c d) -> (j < 4)%nat ->
  at_ (mix a b c d) j <= bound.
Proof.
  intros Hall Hj. rewrite Forall_forall in Hall. apply Hall.
  unfold at_. apply nth_In. simpl. exact Hj.
Qed.

(** C10.  Lower saturation.  On a cycle that records its outputs, when no
    entry of the mixed vector exceeds 1 no offset is applied: the recorded
    outputs are the entries clamped one by one.  An entry below 0 is
    recorded as 0, the entries in [0,1] are recorded as they are, and the
    difference to any entry that was not equal to the negative one is not
    the difference before the clamp. *)
Theorem lower_saturation_clamps_individually (cfg : core_config_t)
    (mpu : mpudata_t) (w : core_world) :
  core_mode (core_setpoint w) <> DISARMED ->
  previous_core_mode w <> DISARMED ->
  let s' := core_state (fst (flight_core cfg (Some mpu) w)) in
  let u := control_u s' in
  let raw := mix (at_ u 0) (at_ u 1) (at_ u 2) (at_ u 3) in
  Forall (fun x => x <= 1) raw ->
  esc_out s' = map clamp01 raw
  /\ forall i, (i < 4)%nat -> at_ raw i < 0 ->
       at_ (esc_out s') i = 0
       /\ (forall j, (j < 4)%nat -> 0 <= at_ raw j ->
             at_ (esc_out s') j = at_ raw j)
       /\ (forall j, (j < 4)%nat -> ~ at_ raw j == at_ raw i ->
             ~ at_ (esc_out s') j - at_ (esc_out s') i
               == at_ raw j - at_ raw i).
Proof.
  intros Harmed Hprev.
  destruct (flight_core_armed cfg mpu w Harmed) as (y & Hfc).
  cbv zeta in Hfc. intros s'.
  assert (Hs' : s' = fst (run_controllers cfg (previous_core_mode w)
                            (set_sp_yaw (core_setpoint w) y)
                            (estimate_state mpu (previous_core_mode w)
                               (core_mode (core_setpoint w)) (core_state w))))
    by (subst s'; rewrite Hfc; reflexivity).
  clearbody s'.
  destruct (run_controllers_later cfg _ (set_sp_yaw (core_setpoint w) y)
              (estimate_state mpu (previous_core_mode w)
                 (core_mode (core_setpoint w)) (core_state w)) Hprev)
    as (Hesc & _ & _).
  cbv zeta in Hesc. rewrite <- Hs' in Hesc. clear Hs' Hfc.
  intros u raw Hall. subst u. fold raw in Hesc.
  rewrite (reduce_evenly_below raw Hall) in Hesc. rewrite Hesc.
  split; [reflexivity|]. intros i Hi Hneg.
  assert (Hat : forall k, (k < 4)%nat ->
                  at_ (map clamp01 raw) k = clamp01 (at_ raw k)).
  { intros k Hk. apply at_map. exact Hk. }
  split; [|split].
  - rewrite (Hat i Hi). now apply clamp01_negative.
  - intros j Hj H0. rewrite (Hat j Hj). apply clamp01_inside; [exact H0|].
    now apply at_mix_le.
  - intros j Hj Hne. rewrite (Hat i Hi), (Hat j Hj).
    rewrite (clamp01_negative _ Hneg).
    pose proof (at_mix_le _ _ _ _ 1 j Hall Hj) as Hle. fold raw in Hle.
    destruct (Qlt_le_dec (at_ raw j) 0) as [Hj0 | Hj0].
    + rewrite (clamp01_negative _ Hj0). intros Heq. apply Hne. lra.
    + rewrite (clamp01_inside _ Hj0 Hle). intros Heq. lra.
Qed.

(** C4 as amended.  The integrators are gated on the throttle component
    u[0], the idle-offset throttle with its tilt compensation, not on the
    throttle setpoint: on an armed cycle with u[0] <= INT_CUTOFF_TH the
    three error integrators are left as they were, and with
    u[0] > INT_CUTOFF_TH each grows by its error times DT. *)
Theorem integrators_gated_on_u0 (cfg : core_config_t) (mpu : mpudata_t)
    (w : core_world) :
  core_mode (core_setpoint w) <> DISARMED ->
  let s := estimate_state mpu (previous_core_mode w)
             (core_mode (core_setpoint w)) (core_state w) in
  let u0 := throttle_u cfg (core_setpoint w) s in
  let s' := core_state (fst (flight_core cfg (Some mpu) w)) in
  (u0 <= INT_CUTOFF_TH ->
   dRoll_err_integrator s' = dRoll_err_integrator (core_state w)
   /\ dPitch_err_integrator s' = dPitch_err_integrator (core_state w)
   /\ yaw_err_integrator s' = yaw_err_integrator (core_state w))
  /\ (INT_CUTOFF_TH < u0 ->
      dRoll_err_integrator s'
      = dRoll_err_integrator (core_state w) + dRoll_err s' * DT
      /\ dPitch_err_integrator s'
         = dPitch_err_integrator (core_state w) + dPitch_err s' * DT
      /\ yaw_err_integrator s'
         = yaw_err_integrator (core_state w) + yaw_err s' * DT).
Proof.
  intros Harmed. destruct (flight_core_armed cfg mpu w Harmed) as (y & Hfc).
  cbv zeta in Hfc. intros s u0 s'. subst s'. rewrite Hfc.
  cbn [fst core_state]. fold s.
  unfold run_controllers. cbn [fst dRoll_err_integrator dPitch_err_integrator
    yaw_err_integrator dRoll_err dPitch_err yaw_err].
  change (throttle_u cfg (set_sp_yaw (core_setpoint w) y) s) with u0.
  split; intros Hu.
  - apply Qgtb_false in Hu. rewrite Hu. repeat split.
  - apply Qgtb_true in Hu. rewrite Hu. repeat split.
Qed.

(** What a disarmed cycle does: it zeroes the three integrators and the
    roll and pitch filters, clears [esc_out] and the yaw setpoint,
    remembers DISARMED and sends nothing.  The yaw filter is not touched. *)
Lemma disarmed_cycle (cfg : core_config_t) (mpu : mpudata_t) (w : core_world) :
  core_mode (core_setpoint w) = DISARMED ->
  let r := flight_core cfg (Some mpu) w in
  let s' := core_state (fst r) in
  dRoll_err_integrator s' = 0
  /\ dPitch_err_integrator s' = 0
  /\ yaw_err_integrator s' = 0
  /\ roll_ctrl s' = zeroFilter (roll_ctrl (core_state w))
  /\ pitch_ctrl s' = zeroFilter (pitch_ctrl (core_state w))
  /\ yaw_ctrl s' = yaw_ctrl (core_state w)
  /\ sp_yaw (core_setpoint (fst r)) = 0
  /\ esc_out s' = [0; 0; 0; 0]
  /\ control_u s' = control_u (core_state w)
  /\ previous_core_mode (fst r) = DISARMED
  /\ core_mode (core_setpoint (fst r)) = DISARMED
  /\ snd r = no_output.
Proof.
  intros H. cbv zeta. rewrite (flight_core_disarmed cfg mpu w H).
  cbn. repeat split. exact H.
Qed.

(** C8 as amended.  On a cycle whose previous core mode was DISARMED the
    core sends a pulse of 0 on each of the four channels and leaves
    [esc_out] and [control_u] as they were before the cycle.  After a
    disarmed cycle [esc_out] is all zeros, as that cycle cleared it;
    [control_u] is what it was before the disarmed cycle, which does not
    clear it. *)
Theorem first_armed_cycle (cfg : core_config_t) (mpu : mpudata_t) :
  (forall w : core_world,
     previous_core_mode w = DISARMED ->
     core_mode (core_setpoint w) <> DISARMED ->
     let r := flight_core cfg (Some mpu) w in
     pulses (snd r) = [(1%Z, 0); (2%Z, 0); (3%Z, 0); (4%Z, 0)]
     /\ esc_out (core_state (fst r)) = esc_out (core_state w)
     /\ control_u (core_state (fst r)) = control_u (core_state w))
  /\ (forall w : core_world,
        core_mode (core_setpoint w) = DISARMED ->
        let r := flight_core cfg (Some mpu) w in
        previous_core_mode (fst r) = DISARMED
        /\ esc_out (core_state (fst r)) = [0; 0; 0; 0]
        /\ control_u (core_state (fst r)) = control_u (core_state w)).
Proof.
  split.
  - intros w Hprev Harmed.
    destruct (flight_core_armed cfg mpu w Harmed) as (y & Hfc).
    cbv zeta in *. rewrite Hfc, Hprev. cbn [fst snd core_state].
    destruct (run_controllers_first cfg (set_sp_yaw (core_setpoint w) y)
                (estimate_state mpu DISARMED (core_mode (core_setpoint w))
                   (core_state w))) as (He & Hu & Hp).
    cbv zeta in He, Hu, Hp. rewrite He, Hu, Hp. repeat split.
  - intros w Hdis. destruct (disarmed_cycle cfg mpu w Hdis)
      as (_ & _ & _ & _ & _ & _ & _ & He & Hu & Hp & _).
    cbv zeta in *. split; [exact Hp|]. split; [exact He | exact Hu].
Qed.

End CoreProperties.

(** ** Yaw unwrap *)

Section YawUnwrap.

Context {FL : filter_lib} {CL : cape_lib}.

Lemma estimate_state_in_flight (mpu : mpudata_t) (previous mode : core_mode_t)
    (s : core_state_t) :
  previous <> DISARMED ->
  let new_yaw := yaw_of (VEC3_Z (fusedEuler mpu)) (imu_yaw_on_takeoff s)
                   (num_yaw_spins s) in
  let s' := estimate_state mpu previous mode s in
  num_yaw_spins s' = detect_crossover new_yaw (last_yaw s) (num_yaw_spins s)
  /\ imu_yaw_on_takeoff s' = imu_yaw_on_takeoff s
  /\ yaw s' = yaw_of (VEC3_Z (fusedEuler mpu)) (imu_yaw_on_takeoff s)
                (num_yaw_spins s')
  /\ last_yaw s' = yaw s.
Proof.
  intros Hprev. unfold estimate_state. cbn.
  destruct previous; [congruence | |]; cbn; repeat split.
Qed.

(** C5 as amended.  In flight the unwrap step computes
    new_yaw = -(fused_z - yaw_on_takeoff) + 2 pi num_spins, decrements
    num_spins when new_yaw - last_yaw > 6, increments it when < -6, and
    recomputes yaw with the updated count.  The reported yaw is the
    negated fused yaw: from the steady state at a fused reading of 3.10
    with zero spins, the readings 3.10 then -3.10 take the spin count to
    -1 and change the reported yaw by 6.20 - 2 pi, about -0.083 rad,
    where the change without the spin count would be +6.20 rad. *)
Theorem yaw_unwrap (m1 m2 : mpudata_t) (previous mode : core_mode_t)
    (s : core_state_t) :
  previous <> DISARMED ->
  3.14 <= PI <= 3.15 ->
  VEC3_Z (fusedEuler m1) == 3.10 ->
  VEC3_Z (fusedEuler m2) == -3.10 ->
  num_yaw_spins s = 0%Z ->
  yaw s == - (3.10 - imu_yaw_on_takeoff s) ->
  last_yaw s == yaw s ->
  let new_yaw m st := - (VEC3_Z (fusedEuler m) - imu_yaw_on_takeoff st)
                      + inject_Z (num_yaw_spins st) * 2 * PI in
  let s1 := estimate_state m1 previous mode s in
  let s2 := estimate_state m2 previous mode s1 in
  (forall m st, let st' := estimate_state m previous mode st in
     (6 < new_yaw m st - last_yaw st ->
        num_yaw_spins st' = (num_yaw_spins st - 1)%Z)
     /\ (new_yaw m st - last_yaw st < -6 ->
           num_yaw_spins st' = (num_yaw_spins st + 1)%Z)
     /\ (-6 <= new_yaw m st - last_yaw st <= 6 ->
           num_yaw_spins st' = num_yaw_spins st)
     /\ yaw st' = - (VEC3_Z (fusedEuler m) - imu_yaw_on_takeoff st)
                  + inject_Z (num_yaw_spins st') * 2 * PI
     /\ last_yaw st' = yaw st)
  /\ yaw s1 == yaw s
  /\ num_yaw_spins s1 = 0%Z
  /\ num_yaw_spins s2 = (-1)%Z
  /\ yaw s2 - yaw s1 == 6.20 - 2 * PI
  /\ -0.1 <= yaw s2 - yaw s1 <= -0.08
  /\ yaw_of (VEC3_Z (fusedEuler m2)) (imu_yaw_on_takeoff s1) (num_yaw_spins s1)
     - yaw s1 == 6.20.
Proof.
  intros Hprev HPI Hz1 Hz2 Hspins Hyaw Hlast new_yaw s1 s2.
  assert (Hrule : forall m st, let st' := estimate_state m previous mode st in
     (6 < new_yaw m st - last_yaw st ->
        num_yaw_spins st' = (num_yaw_spins st - 1)%Z)
     /\ (new_yaw m st - last_yaw st < -6 ->
           num_yaw_spins st' = (num_yaw_spins st + 1)%Z)
     /\ (-6 <= new_yaw m st - last_yaw st <= 6 ->
           num_yaw_spins st' = num_yaw_spins st)
     /\ yaw st' = - (VEC3_Z (fusedEuler m) - imu_yaw_on_takeoff st)
                  + inject_Z (num_yaw_spins st') * 2 * PI
     /\ last_yaw st' = yaw st).
  { intros m st st'.
    destruct (estimate_state_in_flight m previous mode st Hprev)
      as (Hs & _ & Hy & Hl).
    cbv zeta in Hs, Hy, Hl. fold st' in Hs, Hy, Hl.
    unfold yaw_of in Hs, Hy. fold (new_yaw m st) in Hs.
    unfold detect_crossover, Qltb in Hs.
    cmp (new_yaw m st - last_yaw st) 6.
    - repeat split; intros; try assumption; exfalso; lra.
    - cmp (-6) (new_yaw m st - last_yaw st);
        repeat split; intros; try assumption; exfalso; lra. }
  split; [exact Hrule|].
  destruct (Hrule m1 s) as (_ & _ & Hkeep1 & Hy1 & Hl1). fold s1 in Hkeep1, Hy1, Hl1.
  destruct (estimate_state_in_flight m1 previous mode s Hprev) as (_ & Ht1 & _).
  cbv zeta in Ht1. fold s1 in Ht1.
  assert (Hs1 : num_yaw_spins s1 = 0%Z).
  { rewrite Hkeep1; [exact Hspins|]. unfold new_yaw. rewrite Hspins.
    change (inject_Z 0) with 0. lra. }
  rewrite Hs1 in Hy1. change (inject_Z 0) with 0 in Hy1.
  assert (Hyaw1 : yaw s1 == yaw s) by (rewrite Hy1; lra).
  destruct (Hrule m2 s1) as (Hdec & _ & _ & Hy2 & _). fold s2 in Hdec, Hy2.
  assert (Hs2 : num_yaw_spins s2 = (-1)%Z).
  { rewrite Hdec; [rewrite Hs1; reflexivity|]. unfold new_yaw.
    rewrite Hs1, Ht1, Hl1. change (inject_Z 0) with 0. lra. }
  rewrite Hs2, Ht1 in Hy2. change (inject_Z (-1)) with (-1 # 1) in Hy2.
  assert (Hdelta : yaw s2 - yaw s1 == 6.20 - 2 * PI) by (rewrite Hy2; lra).
  repeat split; try assumption; try lra.
  unfold yaw_of. rewrite Hs1, Ht1. change (inject_Z 0) with 0. lra.
Qed.

End YawUnwrap.

(** ** The attitude core on concrete runs *)

Lemma esc_in_unit_interval_witness :
  let r := flight_core scenario_config (Some (sample 0 0 0)) low_throttle_world in
  let u := control_u (core_state (fst r)) in
  Forall (fun p => in01 (snd p)) (pulses (snd r))
  /\ Forall in01 (esc_out (core_state (fst r)))
  /\ Forall cf_in01
       (esc_out_f (Finite (at_ u 0)) (Finite (at_ u 1))
                  (Finite (at_ u 2)) (Finite (at_ u 3))).
Proof.
  pose proof (esc_in_unit_interval scenario_config (sample 0 0 0)
                low_throttle_world ltac:(discriminate)) as H.
  cbv zeta in H. destruct H as (Hp & _ & Hrec & _).
  destruct (Hrec ltac:(discriminate)) as (Hesc & _ & Hf).
  split; [exact Hp|]. split; [exact Hesc|].
  apply Hf.
  repeat (apply Forall_cons; [vm_compute; discriminate|]). apply Forall_nil.
Defined.

(** A throttle setpoint of 3e38 with the vehicle rolled to 1 rad (a
    throttle compensation of 1.85): [u[0]] overflows to +inf, the
    headroom step subtracts +inf from +inf, and the clamp, whose two
    comparisons are false of NaN, passes NaN to the four speed
    controllers.  The same with a NaN angle. *)
Lemma nan_passes_the_clamp :
  let u0 := throttle_u_f (idle_speed scenario_config)
              (Finite 300000000000000000000000000000000000000) (Finite 1.85) in
  u0 = PlusInf
  /\ esc_out_f u0 (Finite 0) (Finite 0) (Finite 0) = [NaN; NaN; NaN; NaN]
  /\ ~ Forall cf_in01 (esc_out_f u0 (Finite 0) (Finite 0) (Finite 0))
  /\ esc_out_f (throttle_u_f (idle_speed scenario_config) (Finite 0.5) NaN)
               (Finite 0) (Finite 0) (Finite 0)
     = [NaN; NaN; NaN; NaN].
Proof.
  split; [reflexivity|]. split; [reflexivity|]. split; [|reflexivity].
  intros H. apply Forall_cons_iff in H. destruct H as (H & _). exact H.
Qed.

Lemma lower_saturation_witness :
  let s' := core_state (fst (flight_core scenario_config (Some (sample 0 0 0))
                               low_throttle_world)) in
  at_ (esc_out s') 0 = 0.
Proof.
  pose proof (lower_saturation_clamps_individually scenario_config
                (sample 0 0 0) low_throttle_world
                ltac:(discriminate) ltac:(discriminate)) as H.
  cbv zeta in H.
  assert (Hall : Forall (fun x => x <= 1)
            (let u := control_u (core_state (fst (flight_core scenario_config
                        (Some (sample 0 0 0)) low_throttle_world))) in
             mix (at_ u 0) (at_ u 1) (at_ u 2) (at_ u 3))).
  { vm_compute. repeat constructor; discriminate. }
  destruct (H Hall) as (_ & Hneg).
  apply (Hneg 0%nat); [lia | vm_compute; reflexivity].
Defined.

(** C4, counterexample.  On the first cycle after arming with the
    throttle setpoint at 0.3 and the idle speed at 0.1, the vehicle level,
    u[0] is 0.31 and the roll integrator grows. *)
Lemma integrators_run_at_cutoff_throttle :
  let w := armed_world 0.3 0.1 in
  let s' := core_state (fst (flight_core scenario_config (Some (sample 0 0 0)) w)) in
  core_mode (core_setpoint w) <> DISARMED
  /\ throttle (core_setpoint w) <= INT_CUTOFF_TH
  /\ ~ dRoll_err_integrator s' == dRoll_err_integrator (core_state w).
Proof.
  cbv zeta. split; [discriminate|]. split; [vm_compute; discriminate|].
  vm_compute. discriminate.
Qed.

Lemma integrators_gated_on_u0_witness :
  let w := armed_world 0.2 0.1 in
  let s' := core_state (fst (flight_core scenario_config (Some (sample 0 0 0)) w)) in
  dRoll_err_integrator s' = dRoll_err_integrator (core_state w)
  /\ dRoll_err_integrator
       (core_state (fst (flight_core scenario_config (Some (sample 0 0 0))
                           (armed_world 0.3 0.1))))
     = dRoll_err_integrator (core_state (armed_world 0.3 0.1))
       + dRoll_err (core_state (fst (flight_core scenario_config
                      (Some (sample 0 0 0)) (armed_world 0.3 0.1)))) * DT.
Proof.
  split.
  - apply (integrators_gated_on_u0 scenario_config (sample 0 0 0)
             (armed_world 0.2 0.1) ltac:(discriminate)).
    vm_compute. discriminate.
  - apply (integrators_gated_on_u0 scenario_config (sample 0 0 0)
             (armed_world 0.3 0.1) ltac:(discriminate)).
    vm_compute. reflexivity.
Defined.

(** C8, counterexample.  After a flight and a disarmed cycle, the first
    cycle after arming again leaves in [control_u] the components of the
    last cycle flown: its entry 0 is 0.45, not 0. *)
Lemma control_u_not_cleared :
  let r := flight_core scenario_config (Some (sample 0 0 0)) rearmed_world in
  previous_core_mode rearmed_world = DISARMED
  /\ core_mode (core_setpoint rearmed_world) <> DISARMED
  /\ esc_out (core_state rearmed_world) = [0; 0; 0; 0]
  /\ control_u (core_state (fst r)) = control_u (core_state rearmed_world)
  /\ at_ (control_u (core_state (fst r))) 0 == 0.45
  /\ ~ Forall (fun x => x == 0) (control_u (core_state (fst r))).
Proof.
  cbv zeta. split; [vm_compute; reflexivity|].
  split; [vm_compute; discriminate|].
  split; [vm_compute; reflexivity|]. split; [vm_compute; reflexivity|].
  split; [vm_compute; reflexivity|].
  intros H. apply Forall_inv in H. vm_compute in H. discriminate.
Qed.

Lemma first_armed_cycle_witness :
  pulses (snd (flight_core scenario_config (Some (sample 0 0 0)) rearmed_world))
  = [(1%Z, 0); (2%Z, 0); (3%Z, 0); (4%Z, 0)]
  /\ esc_out (core_state after_disarmed_cycle) = [0; 0; 0; 0].
Proof.
  destruct (first_armed_cycle scenario_config (sample 0 0 0)) as (H1 & _).
  destruct (first_armed_cycle scenario_config (sample 0 0 0.1)) as (_ & H2).
  split.
  - apply (H1 rearmed_world); [reflexivity | discriminate].
  - apply (H2 disarmed_after_flight). reflexivity.
Defined.

(** The spec's first two scenarios: hover trim, and a roll-right command
    of 0.1 rad saturating the roll component at 0.2. *)
Example hover_trim :
  map Qred (esc_out (core_state (fst (flight_core scenario_config
              (Some (sample 0 0 0)) flying_world))))
  = [9 # 20; 9 # 20; 9 # 20; 9 # 20].
Proof. vm_compute. reflexivity. Qed.

Example roll_right :
  map Qred (esc_out (core_state (fst (flight_core scenario_config
              (Some (sample 0 0 0))
              (with_setpoint (setpoint_of ATTITUDE 0.5 0.1 0 0 0)
                 flying_world)))))
  = [1 # 4; 13 # 20; 13 # 20; 1 # 4].
Proof. vm_compute. reflexivity. Qed.

(** C1, at the failing input.  A core that has flown with a yaw error
    and is then disarmed runs a disarmed cycle: the integrators, the roll
    and pitch filters and [esc_out] are zero, the remembered mode is
    DISARMED and nothing is sent, but the yaw filter still holds the
    output 0.1 of the last cycle flown. *)
Theorem disarmed_cycle_keeps_yaw_filter :
  let r := flight_core scenario_config (Some (sample 0 0 0.1))
             disarmed_after_flight in
  let s' := core_state (fst r) in
  core_mode (core_setpoint disarmed_after_flight) = DISARMED
  /\ previous_core_mode (fst r) = DISARMED
  /\ snd r = no_output
  /\ esc_out s' = [0; 0; 0; 0]
  /\ sp_yaw (core_setpoint (fst r)) = 0
  /\ dRoll_err_integrator s' = 0
  /\ dPitch_err_integrator s' = 0
  /\ yaw_err_integrator s' = 0
  /\ pid_state_zero (roll_ctrl s')
  /\ pid_state_zero (pitch_ctrl s')
  /\ yaw_ctrl s' = yaw_ctrl (core_state disarmed_after_flight)
  /\ pid_current_output (yaw_ctrl s') == 0.1
  /\ ~ pid_state_zero (yaw_ctrl s').
Proof.
  cbv zeta.
  destruct (disarmed_cycle scenario_config (sample 0 0 0.1)
              disarmed_after_flight eq_refl)
    as (Hr & Hp & Hy & Hrc & Hpc & Hyc & Hsp & He & _ & Hprev & _ & Hout).
  cbv zeta in *.
  split; [reflexivity|]. split; [exact Hprev|]. split; [exact Hout|].
  split; [exact He|]. split; [exact Hsp|]. split; [exact Hr|].
  split; [exact Hp|]. split; [exact Hy|].
  split; [rewrite Hrc; vm_compute; repeat split; repeat constructor|].
  split; [rewrite Hpc; vm_compute; repeat split; repeat constructor|].
  split; [exact Hyc|]. split; [vm_compute; reflexivity|].
  intros (_ & _ & _ & H). vm_compute in H. discriminate.
Qed.

(** C5, counterexample.  From the steady state at 3.10 rad, the readings
    3.10 then -3.10 change the reported yaw by about -0.083 rad, not
    +0.08 rad; the change without the spin count would be +6.20 rad, not
    -6.20 rad. *)
Lemma yaw_wrap_delta_is_negative :
  let s1 := estimate_state (sample 0 0 3.10) ATTITUDE ATTITUDE steady_at_3_10 in
  let s2 := estimate_state (sample 0 0 (-3.10)) ATTITUDE ATTITUDE s1 in
  yaw steady_at_3_10 == -3.10
  /\ last_yaw steady_at_3_10 == -3.10
  /\ num_yaw_spins steady_at_3_10 = 0%Z
  /\ yaw s2 - yaw s1 < -0.083
  /\ ~ (0.07 <= yaw s2 - yaw s1 <= 0.09)
  /\ yaw_of (-3.10) (imu_yaw_on_takeoff s1) (num_yaw_spins s1) - yaw s1 == 6.20.
Proof.
  cbv zeta. split; [vm_compute; reflexivity|]. split; [vm_compute; reflexivity|].
  split; [reflexivity|]. split; [vm_compute; reflexivity|].
  split; [|vm_compute; reflexivity].
  intros [H _]. vm_compute in H. apply H. reflexivity.
Qed.

Lemma yaw_unwrap_witness :
  let s1 := estimate_state (sample 0 0 3.10) ATTITUDE ATTITUDE steady_at_3_10 in
  let s2 := estimate_state (sample 0 0 (-3.10)) ATTITUDE ATTITUDE s1 in
  num_yaw_spins s2 = (-1)%Z /\ -0.1 <= yaw s2 - yaw s1 <= -0.08.
Proof.
  pose proof (yaw_unwrap (sample 0 0 3.10) (sample 0 0 (-3.10))
                ATTITUDE ATTITUDE steady_at_3_10) as H.
  cbv zeta in H.
  destruct H as (_ & _ & _ & Hs & _ & Hd & _).
  - discriminate.
  - split; vm_compute; discriminate.
  - vm_compute. reflexivity.
  - vm_compute. reflexivity.
  - reflexivity.
  - vm_compute. reflexivity.
  - vm_compute. reflexivity.
  - split; [exact Hs | exact Hd].
Defined.

(** ** The conversion to float *)

Lemma pow2_pos (k : Z) : 0 < pow2 k.
Proof. apply Qpower_0_lt. reflexivity. Qed.

Lemma pow2_add (a b : Z) : pow2 (a + b) == pow2 a * pow2 b.
Proof. apply Qpower_plus. discriminate. Qed.

Lemma pow2_le (a b : Z) : (a <= b)%Z -> pow2 a <= pow2 b.
Proof. intros H. apply Qpower_le_compat_l; [exact H | discriminate]. Qed.

Lemma pow2_lt_inv (a b : Z) : pow2 a < pow2 b -> (a < b)%Z.
Proof. intros H. apply (Qpower_lt_compat_l_inv 2); [exact H | reflexivity]. Qed.

Lemma pow2_Z (z : Z) : (0 <= z)%Z -> pow2 z == inject_Z (2 ^ z).
Proof. intros H. unfold pow2. now rewrite (Zpower_Qpower 2 z H). Qed.

Lemma Qlog2_spec (q : Q) :
  0 < q -> pow2 (Qlog2 q) <= q /\ q < pow2 (Qlog2 q + 1).
Proof.
  intros Hq. destruct q as [n d].
  assert (Hn : (0 < n)%Z).
  { unfold Qlt in Hq. simpl in Hq. lia. }
  unfold Qlog2. cbn [Qnum Qden].
  set (a := Z.log2 n). set (b := Z.log2 (Z.pos d)).
  destruct (Z.log2_spec n Hn) as [Ha1 Ha2].
  destruct (Z.log2_spec (Z.pos d) ltac:(lia)) as [Hb1 Hb2].
  fold a in Ha1, Ha2. fold b in Hb1, Hb2.
  assert (Ha0 : (0 <= a)%Z) by apply Z.log2_nonneg.
  assert (Hb0 : (0 <= b)%Z) by apply Z.log2_nonneg.
  assert (Hq' : (n # d) * inject_Z (Z.pos d) == inject_Z n).
  { unfold Qeq, inject_Z. simpl. lia. }
  assert (HD : 0 < inject_Z (Z.pos d)).
  { change 0 with (inject_Z 0). rewrite <- Zlt_Qlt. lia. }
  assert (HN1 : pow2 a <= inject_Z n).
  { rewrite (pow2_Z a Ha0). now rewrite <- Zle_Qle. }
  assert (HN2 : inject_Z n < pow2 (a + 1)).
  { rewrite (pow2_Z (a + 1)) by lia. rewrite <- Zlt_Qlt.
    now rewrite <- Z.add_1_r in Ha2. }
  assert (HD1 : pow2 b <= inject_Z (Z.pos d)).
  { rewrite (pow2_Z b Hb0). now rewrite <- Zle_Qle. }
  assert (HD2 : inject_Z (Z.pos d) < pow2 (b + 1)).
  { rewrite (pow2_Z (b + 1)) by lia. rewrite <- Zlt_Qlt.
    now rewrite <- Z.add_1_r in Hb2. }
  set (q := n # d) in *. set (D := inject_Z (Z.pos d)) in *.
  set (N := inject_Z n) in *.
  destruct (Qle_bool (pow2 (a - b)) q) eqn:Hc.
  - apply Qle_bool_iff in Hc. split; [exact Hc|].
    assert (Hsplit : pow2 (a + 1) == pow2 (a - b + 1) * pow2 b).
    { rewrite <- pow2_add. apply Qpower_comp; [reflexivity | lia]. }
    pose proof (pow2_pos (a - b + 1)) as HP. pose proof (pow2_pos b) as HPb.
    set (P := pow2 (a - b + 1)) in *. set (Pb := pow2 b) in *.
    set (Pa := pow2 (a + 1)) in *.
    apply Qnot_le_lt. intros Hle. 
    assert (P * D <= q * D) by (apply Qmult_le_compat_r; lra).
    assert (P * Pb <= P * D) by (apply Qmult_le_l; lra).
    lra.
  - assert (Hlt : q < pow2 (a - b)).
    { apply Qnot_le_lt. intros H. apply Qle_bool_iff in H. congruence. }
    split.
    + assert (Hsplit : pow2 a == pow2 (a - b - 1) * pow2 (b + 1)).
      { rewrite <- pow2_add. apply Qpower_comp; [reflexivity | lia]. }
      pose proof (pow2_pos (a - b - 1)) as HP.
      pose proof (pow2_pos (b + 1)) as HPb.
      set (P := pow2 (a - b - 1)) in *. set (Pb := pow2 (b + 1)) in *.
      set (Pa := pow2 a) in *.
      apply Qnot_lt_le. intros Hgt.
      assert (q * D <= P * D) by (apply Qmult_le_compat_r; lra).
      assert (P * D < P * Pb) by (apply Qmult_lt_l; lra).
      lra.
    + assert (Heq : pow2 (a - b - 1 + 1) == pow2 (a - b)).
      { apply Qpower_comp; [reflexivity | lia]. }
      rewrite Heq. exact Hlt.
Qed.

Lemma Qlog2_mono (x y : Q) : 0 < x -> x <= y -> (Qlog2 x <= Qlog2 y)%Z.
Proof.
  intros Hx Hxy.
  destruct (Qlog2_spec x Hx) as [Hx1 _].
  destruct (Qlog2_spec y ltac:(lra)) as [_ Hy2].
  assert (H : pow2 (Qlog2 x) < pow2 (Qlog2 y + 1)) by lra.
  apply pow2_lt_inv in H. lia.
Qed.

Lemma round_half_even_bounds (x : Q) :
  (Qfloor x <= round_half_even x <= Qfloor x + 1)%Z.
Proof.
  unfold round_half_even. destruct (Qltb _ _); [lia|].
  destruct (Qgtb _ _); [lia|]. destruct (Z.even _); lia.
Qed.

Lemma round_half_even_mono (x y : Q) :
  x <= y -> (round_half_even x <= round_half_even y)%Z.
Proof.
  intros Hxy. pose proof (Qfloor_resp_le x y Hxy) as Hf.
  destruct (Z.eq_dec (Qfloor x) (Qfloor y)) as [Heq | Hne].
  - unfold round_half_even. rewrite <- Heq.
    set (f := Qfloor x) in *. unfold Qltb.
    cmp (1 # 2) (x - inject_Z f); cmp (1 # 2) (y - inject_Z f);
      try lia; try (exfalso; lra);
      cmp (x - inject_Z f) (1 # 2); cmp (y - inject_Z f) (1 # 2);
      try lia; try (exfalso; lra); destruct (Z.even f); lia.
  - pose proof (round_half_even_bounds x). pose proof (round_half_even_bounds y).
    lia.
Qed.

Lemma round_half_even_Z (z : Z) : round_half_even (inject_Z z) = z.
Proof.
  unfold round_half_even. rewrite Qfloor_Z. unfold Qltb.
  cmp (1 # 2) (inject_Z z - inject_Z z); [reflexivity | exfalso; lra].
Qed.

Lemma round_to_grid_mono (k : Z) (x y : Q) :
  x <= y -> round_to_grid k x <= round_to_grid k y.
Proof.
  intros Hxy. unfold round_to_grid. pose proof (pow2_pos k) as Hk.
  apply Qmult_le_compat_r; [|lra].
  rewrite <- Zle_Qle. apply round_half_even_mono.
  apply Qmult_le_compat_r; [exact Hxy|].
  apply Qlt_le_weak, Qinv_lt_0_compat, Hk.
Qed.

Lemma round_to_grid_pow2 (k b : Z) :
  (k <= b)%Z -> round_to_grid k (pow2 b) == pow2 b.
Proof.
  intros Hkb. unfold round_to_grid. pose proof (pow2_pos k) as Hk.
  assert (Hdiv : pow2 b / pow2 k == inject_Z (2 ^ (b - k))).
  { rewrite <- (pow2_Z (b - k)) by lia.
    assert (Hb : pow2 b == pow2 (b - k) * pow2 k).
    { rewrite <- pow2_add. apply Qpower_comp; [reflexivity | lia]. }
    rewrite Hb. field. lra. }
  assert (Hr : round_half_even (pow2 b / pow2 k) = (2 ^ (b - k))%Z).
  { rewrite <- (round_half_even_Z (2 ^ (b - k))).
    apply Z.le_antisymm; apply round_half_even_mono; rewrite Hdiv; lra. }
  rewrite Hr, <- (pow2_Z (b - k)) by lia. rewrite <- pow2_add.
  apply Qpower_comp; [reflexivity | lia].
Qed.

Lemma round_pos_mono (x y : Q) : 0 < x -> x <= y -> round_pos x <= round_pos y.
Proof.
  intros Hx Hxy. unfold round_pos, float_grid.
  pose proof (Qlog2_mono x y Hx Hxy) as He.
  destruct (Qlog2_spec x Hx) as [_ Hx2].
  destruct (Qlog2_spec y ltac:(lra)) as [Hy1 _].
  set (ex := Qlog2 x) in *. set (ey := Qlog2 y) in *.
  set (kx := Z.max (ex - 23) (-149)). set (ky := Z.max (ey - 23) (-149)).
  destruct (Z.eq_dec kx ky) as [Heq | Hne].
  - rewrite Heq. now apply round_to_grid_mono.
  - assert (Hlt : (kx < ky)%Z) by lia.
    set (b := Z.max (ex + 1) kx).
    apply (Qle_trans _ (round_to_grid kx (pow2 b))).
    { apply round_to_grid_mono.
      apply (Qle_trans _ (pow2 (ex + 1))); [lra | apply pow2_le; lia]. }
    rewrite (round_to_grid_pow2 kx b) by lia.
    apply (Qle_trans _ (pow2 ey)); [apply pow2_le; lia|].
    rewrite <- (round_to_grid_pow2 ky ey) by lia.
    now apply round_to_grid_mono.
Qed.

Lemma round_pos_nonneg (q : Q) : 0 < q -> 0 <= round_pos q.
Proof.
  intros Hq. unfold round_pos, round_to_grid.
  pose proof (pow2_pos (float_grid q)) as Hk.
  apply Qmult_le_0_compat; [|lra].
  change 0 with (inject_Z 0). rewrite <- Zle_Qle.
  pose proof (round_half_even_bounds (q / pow2 (float_grid q))) as [Hb _].
  assert (H0 : (0 <= Qfloor (q / pow2 (float_grid q)))%Z).
  { rewrite <- (Qfloor_Z 0). apply Qfloor_resp_le.
    apply Qle_shift_div_l; [exact Hk | change (inject_Z 0) with 0; lra]. }
  lia.
Qed.

(** The conversion is monotone. *)
Lemma to_float_mono (x y : Q) : x <= y -> to_float x <= to_float y.
Proof.
  intros Hxy. unfold to_float, Qltb.
  cmp x 0; cmp y 0; try (exfalso; lra).
  - now apply round_pos_mono.
  - pose proof (round_pos_nonneg y ltac:(lra)).
    cmp 0 x; [|assumption].
    pose proof (round_pos_nonneg (- x) ltac:(lra)). lra.
  - cmp 0 x; cmp 0 y; try (exfalso; lra).
    + apply Qopp_le_compat. apply round_pos_mono; lra.
    + pose proof (round_pos_nonneg (- x) ltac:(lra)). lra.
    + lra.
Qed.

(** DSM2_DISARM_TIMEOUT is a float; the float next to DSM2_LAND_TIMEOUT
    is above it. *)
Lemma to_float_DSM2_DISARM_TIMEOUT :
  to_float DSM2_DISARM_TIMEOUT == DSM2_DISARM_TIMEOUT.
Proof. vm_compute. reflexivity. Qed.

Lemma to_float_DSM2_LAND_TIMEOUT :
  DSM2_LAND_TIMEOUT < to_float DSM2_LAND_TIMEOUT.
Proof. vm_compute. reflexivity. Qed.

(** Some conversions: a tenth, a tie between two floats, a time just
    past five seconds, a subnormal. *)
Example to_float_values :
  to_float 0.1 == 13421773 # 134217728
  /\ to_float 16777217 == 16777216
  /\ to_float 5.0000001 == 5
  /\ to_float (3 * pow2 (-150)) == pow2 (-148).
Proof. repeat split; vm_compute; reflexivity. Qed.

(** A time past DSM2_LAND_TIMEOUT is past it as a float too; a time
    within DSM2_DISARM_TIMEOUT is within it as a float too. *)
Lemma timeout_secs_land (last now : Q) :
  DSM2_LAND_TIMEOUT < now - last -> DSM2_LAND_TIMEOUT < timeout_secs last now.
Proof.
  intros H. unfold timeout_secs, diff.
  pose proof (to_float_mono DSM2_LAND_TIMEOUT (now - last) ltac:(lra)).
  pose proof to_float_DSM2_LAND_TIMEOUT. lra.
Qed.

Lemma timeout_secs_disarm (last now : Q) :
  now - last <= DSM2_DISARM_TIMEOUT ->
  timeout_secs last now <= DSM2_DISARM_TIMEOUT.
Proof.
  intros H. unfold timeout_secs, diff.
  pose proof (to_float_mono (now - last) DSM2_DISARM_TIMEOUT H).
  pose proof to_float_DSM2_DISARM_TIMEOUT. lra.
Qed.

(** The floats next to DSM2_DISARM_TIMEOUT are 2^-21 apart: a time past
    it by 0.3 microseconds is past it as a float. *)
Lemma timeout_secs_past_disarm (last now : Q) :
  DSM2_DISARM_TIMEOUT + 0.0000003 < now - last ->
  DSM2_DISARM_TIMEOUT < timeout_secs last now.
Proof.
  intros H. unfold timeout_secs, diff.
  pose proof (to_float_mono (DSM2_DISARM_TIMEOUT + 0.0000003) (now - last)
                ltac:(lra)) as Hm.
  assert (Hc : DSM2_DISARM_TIMEOUT < to_float (DSM2_DISARM_TIMEOUT + 0.0000003))
    by (vm_compute; reflexivity).
  lra.
Qed.

(** ** The radio watcher *)

Lemma no_channel_read_in_disarm (sp : core_setpoint_t) (c : Z) :
  ~ In (GetDsm2Ch c) (snd (disarm sp)).
Proof.
  unfold disarm. simpl. destruct (core_mode_eqb (core_mode sp) DISARMED);
    simpl; intuition discriminate.
Qed.

Lemma no_channel_read_in_check (p : dsm2_poll) (w : watcher_world) (c : Z) :
  ~ In (GetDsm2Ch c) (snd (check_timeouts p w)).
Proof.
  unfold check_timeouts.
  destruct (negb (core_mode_eqb (core_mode (ww_setpoint w)) DISARMED)
            && Qgtb (timeout_secs (last_dsm2_time w) (current_time p))
                 DSM2_DISARM_TIMEOUT).
  - simpl. intros [H | H]; [discriminate|].
    exact (no_channel_read_in_disarm _ _ H).
  - destruct (negb (flight_mode_eqb (flight_mode (user_interface w))
                      EMERGENCY_LAND)
              && Qgtb (timeout_secs (last_dsm2_time w) (current_time p))
                   DSM2_LAND_TIMEOUT);
      simpl; intuition discriminate.
Qed.

(** C9.  A new frame with channel 5 below 0 sets the kill switch to 1 and
    disarms; the four sticks and the flight mode stay as they were and
    channel 5 is the only channel read.  A channel other than 5 is read
    only in a turn with a new frame whose channel 5 is at least 0; such a
    frame clears the kill switch and decodes channels 1 to 4 into the
    sticks. *)
Theorem kill_switch_frame (p : dsm2_poll) (w : watcher_world) :
  let r := DSM2_watcher_turn p w in
  let ch := get_dsm2_ch_normalized p in
  let ui := user_interface (fst r) in
  (is_new_dsm2_data p = 1%Z -> ch 5%Z < 0 ->
     kill_switch ui = 1%Z
     /\ core_mode (ww_setpoint (fst r)) = DISARMED
     /\ throttle_stick ui = throttle_stick (user_interface w)
     /\ roll_stick ui = roll_stick (user_interface w)
     /\ pitch_stick ui = pitch_stick (user_interface w)
     /\ yaw_stick ui = yaw_stick (user_interface w)
     /\ flight_mode ui = flight_mode (user_interface w)
     /\ forall c, In (GetDsm2Ch c) (snd r) -> c = 5%Z)
  /\ (forall c, In (GetDsm2Ch c) (snd r) -> c <> 5%Z ->
        is_new_dsm2_data p = 1%Z /\ 0 <= ch 5%Z)
  /\ (is_new_dsm2_data p = 1%Z -> 0 <= ch 5%Z ->
        kill_switch ui = 0%Z
        /\ throttle_stick ui = ch 1%Z
        /\ roll_stick ui = - ch 2%Z
        /\ pitch_stick ui = - ch 3%Z
        /\ yaw_stick ui = ch 4%Z
        /\ flight_mode ui = USER_ATTITUDE
        /\ ww_setpoint (fst r) = ww_setpoint w
        /\ forall c, In c [1; 2; 3; 4; 6]%Z -> In (GetDsm2Ch c) (snd r)).
Proof.
  cbv zeta. unfold DSM2_watcher_turn.
  destruct (is_new_dsm2_data p) as [|[q|q|]|q] eqn:Hnew;
    try (split; [intros H; discriminate H|];
         split; [|intros H; discriminate H]).
  - (* no new frame *)
    destruct (using_dsm2 w =? 0)%Z; intros c Hin _; exfalso.
    + exact Hin.
    + exact (no_channel_read_in_check p w c Hin).
  - intros c [].
  - intros c [].
  - (* a new frame *)
    unfold on_new_frame, Qltb.
    cmp 0 (get_dsm2_ch_normalized p 5%Z).
    + split; [intros _ _|split; [|intros _ H; lra]].
      * cbn. repeat (split; [reflexivity|]).
        intros c [Hc | Hc]; [congruence|].
        exfalso. exact (no_channel_read_in_disarm _ _ Hc).
      * cbn. intros c [Hc | Hc] Hne; [congruence|].
        exfalso. exact (no_channel_read_in_disarm _ _ Hc).
    + split; [intros _ H; lra|]. split; [intros c _ _; now split|].
      intros _ _. cbn. destruct (Qgtb _ 0); repeat (split; [reflexivity|]);
        intros c Hc; simpl in Hc;
        destruct Hc as [<- | [<- | [<- | [<- | [<- | []]]]]]; simpl; tauto.
  - intros c [].
Qed.

Lemma kill_switch_frame_witness :
  kill_switch (user_interface (fst (DSM2_watcher_turn kill_frame
                                      radio_flying_world))) = 1%Z
  /\ throttle_stick (user_interface (fst (DSM2_watcher_turn stick_frame
                                             radio_flying_world))) = 0.5.
Proof.
  split.
  - apply (kill_switch_frame kill_frame radio_flying_world); reflexivity.
  - apply (kill_switch_frame stick_frame radio_flying_world);
      [reflexivity | discriminate].
Defined.

(** *** Loss of signal *)

Lemma not_landing_eqb (w : watcher_world) :
  flight_mode_eqb (flight_mode (user_interface w)) EMERGENCY_LAND = false
  <-> ~ landing w.
Proof.
  unfold landing. rewrite <- flight_mode_eqb_eq.
  destruct (flight_mode_eqb _ _); split; congruence.
Qed.

Lemma armed_eqb (w : watcher_world) :
  core_mode_eqb (core_mode (ww_setpoint w)) DISARMED = false <-> armed w.
Proof.
  unfold armed. rewrite <- core_mode_eqb_eq.
  destruct (core_mode_eqb _ _); split; congruence.
Qed.

(** What the time-out check does to the world it sees. *)
Lemma check_timeouts_turn (p : dsm2_poll) (w : watcher_world) :
  let after := fst (check_timeouts p w) in
  silent_turn (last_dsm2_time w) p (w, after)
  /\ using_dsm2 after = using_dsm2 w
  /\ last_dsm2_time after = last_dsm2_time w
  /\ (landing w -> landing after)
  /\ (~ landing after -> user_interface after = user_interface w).
Proof.
  cbv zeta. unfold check_timeouts, silent_turn.
  set (secs := timeout_secs (last_dsm2_time w) (current_time p)).
  destruct (core_mode_eqb (core_mode (ww_setpoint w)) DISARMED) eqn:Hmode;
    [apply core_mode_eqb_eq in Hmode | apply armed_eqb in Hmode];
    (destruct (flight_mode_eqb (flight_mode (user_interface w)) EMERGENCY_LAND)
       eqn:Hfm;
     [apply flight_mode_eqb_eq in Hfm | apply not_landing_eqb in Hfm]);
    cbn [negb andb];
    cmp secs DSM2_DISARM_TIMEOUT; try cmp secs DSM2_LAND_TIMEOUT;
    unfold armed, landing in *; cbn;
    repeat split; intros;
    try reflexivity; try assumption; try tauto; try congruence;
    try (exfalso; lra).
Qed.

(** A turn without a new frame, once [using_dsm2] is set. *)
Lemma silent_step (p : dsm2_poll) (w : watcher_world) :
  using_dsm2 w <> 0%Z -> is_new_dsm2_data p = 0%Z ->
  let before := seen_by p w in
  let after := fst (DSM2_watcher_turn p before) in
  silent_turn (last_dsm2_time w) p (before, after)
  /\ using_dsm2 after <> 0%Z
  /\ last_dsm2_time after = last_dsm2_time w
  /\ (landing w -> landing after)
  /\ (~ landing before <-> ~ landing w).
Proof.
  intros Husing Hnew. cbv zeta. unfold DSM2_watcher_turn. rewrite Hnew.
  change (using_dsm2 (seen_by p w)) with (using_dsm2 w).
  destruct (using_dsm2 w =? 0)%Z eqn:Hu; [apply Z.eqb_eq in Hu; congruence|].
  destruct (check_timeouts_turn p (seen_by p w)) as (Ht & Hus & Hl & Hland & _).
  cbv zeta in Ht, Hus, Hl, Hland.
  change (last_dsm2_time (seen_by p w)) with (last_dsm2_time w) in Ht, Hl.
  change (using_dsm2 (seen_by p w)) with (using_dsm2 w) in Hus.
  split; [exact Ht|]. split; [congruence|]. split; [exact Hl|].
  split; [exact Hland | reflexivity].
Qed.

Lemma enters_land_iff (turn : watcher_world * watcher_world) :
  enters_land turn = true <-> ~ landing (fst turn) /\ landing (snd turn).
Proof.
  unfold enters_land. rewrite andb_true_iff, negb_true_iff, not_landing_eqb.
  unfold landing at 2. now rewrite flight_mode_eqb_eq.
Qed.

Section SilentRun.

(** The time of the last frame, fixed along a run without a new frame. *)
Variable last : Q.

Lemma silent_run_turns (polls : list dsm2_poll) (w : watcher_world) :
  started last w -> silent polls ->
  Forall2 (silent_turn last) polls (DSM2_watcher polls w).
Proof.
  revert w. induction polls as [|p polls IH]; intros w [Hu Hl] Hs; simpl.
  - constructor.
  - apply Forall_cons_iff in Hs. destruct Hs as [Hp Hs'].
    destruct (silent_step p w Hu Hp) as (Ht & Hu' & Hl' & _).
    cbv zeta in Ht, Hu', Hl'. rewrite Hl in Ht, Hl'. constructor.
    + exact Ht.
    + apply IH; [split; [exact Hu' | exact Hl'] | exact Hs'].
Qed.

(** Once the flight mode is EMERGENCY_LAND it stays so. *)
Lemma landing_stays (polls : list dsm2_poll) (w : watcher_world) :
  started last w -> silent polls -> landing w ->
  Forall (fun turn => landing (fst turn) /\ landing (snd turn))
         (DSM2_watcher polls w).
Proof.
  revert w. induction polls as [|p polls IH]; intros w [Hu Hl] Hs Hland; simpl.
  - constructor.
  - apply Forall_cons_iff in Hs. destruct Hs as [Hp Hs'].
    destruct (silent_step p w Hu Hp) as (_ & Hu' & Hl' & Hstay & _).
    cbv zeta in Hu', Hl', Hstay. rewrite Hl in Hl'. constructor.
    + split; [exact Hland | exact (Hstay Hland)].
    + apply IH; [split; [exact Hu' | exact Hl'] | exact Hs' | exact (Hstay Hland)].
Qed.

Lemma landing_enters_no_more (polls : list dsm2_poll) (w : watcher_world) :
  started last w -> silent polls -> landing w ->
  filter enters_land (DSM2_watcher polls w) = [].
Proof.
  intros Hst Hs Hland. pose proof (landing_stays polls w Hst Hs Hland) as Hall.
  induction Hall as [|turn trace [Hb _] _ IH]; simpl; [reflexivity|].
  destruct (enters_land turn) eqn:He; [|exact IH].
  apply enters_land_iff in He. tauto.
Qed.

Lemma enters_land_at_most_once (polls : list dsm2_poll) (w : watcher_world) :
  started last w -> silent polls ->
  (length (filter enters_land (DSM2_watcher polls w)) <= 1)%nat.
Proof.
  revert w. induction polls as [|p polls IH]; intros w [Hu Hl] Hs; simpl.
  - lia.
  - apply Forall_cons_iff in Hs. destruct Hs as [Hp Hs'].
    destruct (silent_step p w Hu Hp) as (_ & Hu' & Hl' & _).
    cbv zeta in Hu', Hl'. rewrite Hl in Hl'.
    destruct (enters_land _) eqn:He.
    + apply enters_land_iff in He. destruct He as [_ Hafter]. simpl in Hafter.
      rewrite landing_enters_no_more;
        [simpl; lia | split; [exact Hu' | exact Hl'] | exact Hs' | exact Hafter].
    + apply IH; [split; [exact Hu' | exact Hl'] | exact Hs'].
Qed.

(** If the flight mode was not EMERGENCY_LAND at the start and is after
    turn [j], some turn up to [j] entered it. *)
Lemma landing_was_entered (polls : list dsm2_poll) (w : watcher_world)
    (j : nat) (tj : watcher_world * watcher_world) :
  started last w -> silent polls -> ~ landing w ->
  nth_error (DSM2_watcher polls w) j = Some tj -> landing (snd tj) ->
  exists i ti, (i <= j)%nat
    /\ nth_error (DSM2_watcher polls w) i = Some ti
    /\ enters_land ti = true.
Proof.
  revert w j. induction polls as [|p polls IH]; intros w j [Hu Hl] Hs Hnot Htj Hland.
  - destruct j; discriminate.
  - apply Forall_cons_iff in Hs. destruct Hs as [Hp Hs'].
    destruct (silent_step p w Hu Hp) as (_ & Hu' & Hl' & _ & Hsame).
    cbv zeta in Hu', Hl', Hsame. rewrite Hl in Hl'. simpl in Htj |- *.
    set (before := seen_by p w) in *.
    set (after := fst (DSM2_watcher_turn p before)) in *.
    destruct (enters_land (before, after)) eqn:He.
    + exists 0%nat, (before, after). split; [lia|]. split; [reflexivity | exact He].
    + assert (Hafter : ~ landing after).
      { intros H. apply not_true_iff_false in He. apply He.
        apply enters_land_iff. split; [now apply Hsame | exact H]. }
      destruct j as [|j].
      * injection Htj as <-. simpl in Hland. contradiction.
      * simpl in Htj.
        destruct (IH after j (conj Hu' Hl') Hs' Hafter Htj Hland)
          as (i & ti & Hi & Hti & Hent).
        exists (S i), ti. split; [lia|]. split; [exact Hti | exact Hent].
Qed.

End SilentRun.

Lemma disarms_iff (turn : watcher_world * watcher_world) :
  disarms turn = true
  <-> armed (fst turn) /\ core_mode (ww_setpoint (snd turn)) = DISARMED.
Proof.
  unfold disarms. rewrite andb_true_iff, negb_true_iff, armed_eqb.
  now rewrite core_mode_eqb_eq.
Qed.

Lemma Forall2_Exists_nth {A B : Type} (R : A -> B -> Prop) (P : A -> Prop)
    (l : list A) (l' : list B) :
  Forall2 R l l' -> Exists P l ->
  exists j x y, nth_error l j = Some x /\ nth_error l' j = Some y
                /\ P x /\ R x y.
Proof.
  intros H. induction H as [|x y l l' Hxy _ IH]; intros Hex.
  - apply Exists_nil in Hex. contradiction.
  - apply Exists_cons in Hex. destruct Hex as [Hx | Hex].
    + exists 0%nat, x, y. repeat split; assumption.
    + destruct (IH Hex) as (j & a & b & Ha & Hb & HP & HR).
      exists (S j), a, b. repeat split; assumption.
Qed.

Lemma Forall2_nth_right {A B : Type} (R : A -> B -> Prop)
    (l : list A) (l' : list B) (k : nat) (y : B) :
  Forall2 R l l' -> nth_error l' k = Some y ->
  exists x, nth_error l k = Some x /\ R x y.
Proof.
  intros H. revert k. induction H as [|x0 y0 l l' Hxy _ IH]; intros k Hk.
  - destruct k; discriminate.
  - destruct k as [|k].
    + injection Hk as <-. exists x0. split; [reflexivity | exact Hxy].
    + exact (IH k Hk).
Qed.

Section PacedRun.

Variable last : Q.

(** One turn of a paced run: if the turn before came no later than
    DSM2_LAND_TIMEOUT after the last frame, or the flight mode is
    EMERGENCY_LAND already, the turn is a [paced_turn] and the same holds
    of the turn after it. *)
Lemma paced_step (p : dsm2_poll) (w : watcher_world) (prev : Q) :
  started last w -> is_new_dsm2_data p = 0%Z ->
  current_time p - prev < DSM2_DISARM_TIMEOUT - DSM2_LAND_TIMEOUT ->
  prev - last <= DSM2_LAND_TIMEOUT \/ landing w ->
  let before := seen_by p w in
  let after := fst (DSM2_watcher_turn p before) in
  paced_turn last p (before, after)
  /\ started last after
  /\ (current_time p - last <= DSM2_LAND_TIMEOUT \/ landing after).
Proof.
  intros [Hu Hl] Hp Hgap Hinv before after.
  destruct (silent_step p w Hu Hp) as (Ht & Hu' & Hl' & Hstay & Hsame).
  cbv zeta in Ht, Hu', Hl', Hstay, Hsame. rewrite Hl in Ht, Hl'.
  fold before in Ht, Hu', Hl', Hstay, Hsame.
  fold after in Ht, Hu', Hl', Hstay.
  unfold silent_turn in Ht. cbv zeta in Ht.
  destruct Ht as (Hdis & Henter & Hnone).
  assert (Hturn : paced_turn last p (before, after)).
  { unfold paced_turn. cbv zeta. cbn [fst snd].
    set (secs := timeout_secs last (current_time p)) in *.
    destruct (flight_mode_eqb (flight_mode (user_interface w)) EMERGENCY_LAND)
      eqn:Hfm.
    - apply flight_mode_eqb_eq in Hfm.
      split; [intros _; exact (Hstay Hfm)|].
      split; [intros _ Hnot; exfalso; exact (Hnot Hfm)|].
      split; [intros H5 Harmed; exact (proj1 (Hdis Harmed H5))|].
      intros Hd. split; [exact Hfm|].
      apply disarms_iff in Hd. cbn [fst snd] in Hd. destruct Hd as [Harmed Hoff].
      destruct (Qlt_le_dec DSM2_DISARM_TIMEOUT secs) as [H5 | H5]; [exact H5|].
      exfalso. apply Harmed.
      rewrite Hnone in Hoff;
        [exact Hoff | intros [_ H]; lra | intros [H _]; exact (H Hfm)].
    - apply not_landing_eqb in Hfm.
      assert (Hprev : prev - last <= DSM2_LAND_TIMEOUT).
      { destruct Hinv as [H | H]; [exact H | contradiction]. }
      assert (Hlt : secs <= DSM2_DISARM_TIMEOUT).
      { apply timeout_secs_disarm.
        unfold DSM2_DISARM_TIMEOUT, DSM2_LAND_TIMEOUT in *. lra. }
      assert (Hnd : ~ (armed before /\ DSM2_DISARM_TIMEOUT < secs)).
      { intros [_ H]. lra. }
      assert (Hnl : ~ landing before) by (apply Hsame; exact Hfm).
      split; [intros H3; exact (proj1 (Henter Hnd Hnl H3))|].
      split.
      { intros H3 _. destruct (Henter Hnd Hnl H3) as (Hland & Hrest).
        split; [apply enters_land_iff; split; assumption | exact Hrest]. }
      split; [intros H5; exfalso; lra|].
      intros Hd. exfalso.
      apply disarms_iff in Hd. cbn [fst snd] in Hd. destruct Hd as [Harmed Hoff].
      apply Harmed.
      destruct (Qlt_le_dec DSM2_LAND_TIMEOUT secs) as [H3 | H3].
      + destruct (Henter Hnd Hnl H3) as (_ & _ & _ & _ & _ & Hsp).
        rewrite Hsp in Hoff. exact Hoff.
      + rewrite Hnone in Hoff; [exact Hoff | exact Hnd | intros [_ H]; lra]. }
  split; [exact Hturn|]. split; [split; assumption|].
  destruct (Qlt_le_dec DSM2_LAND_TIMEOUT (current_time p - last)) as [H3 | H3];
    [right | left; exact H3].
  exact (proj1 Hturn (timeout_secs_land _ _ H3)).
Qed.

Lemma paced_run (polls : list dsm2_poll) (w : watcher_world) (prev : Q) :
  started last w -> silent polls -> paced prev polls ->
  prev - last <= DSM2_LAND_TIMEOUT \/ landing w ->
  Forall2 (paced_turn last) polls (DSM2_watcher polls w).
Proof.
  revert w prev. induction polls as [|p polls IH]; intros w prev Hst Hs Hpace Hinv.
  - constructor.
  - apply Forall_cons_iff in Hs. destruct Hs as [Hp Hs'].
    destruct Hpace as [Hgap Hpace'].
    destruct (paced_step p w prev Hst Hp Hgap Hinv) as (Hturn & Hst' & Hinv').
    cbv zeta in Hturn, Hst', Hinv'.
    cbn [DSM2_watcher]. constructor; [exact Hturn|].
    exact (IH _ _ Hst' Hs' Hpace' Hinv').
Qed.

(** A turn that finds EMERGENCY_LAND, in a run that did not start with
    it, comes after the turn that entered it. *)
Lemma landing_seen_was_entered (polls : list dsm2_poll) (w : watcher_world)
    (k : nat) (tk : watcher_world * watcher_world) :
  started last w -> silent polls -> ~ landing w ->
  nth_error (DSM2_watcher polls w) k = Some tk -> landing (fst tk) ->
  exists i ti, (i < k)%nat
    /\ nth_error (DSM2_watcher polls w) i = Some ti
    /\ enters_land ti = true.
Proof.
  revert w k. induction polls as [|p polls IH]; intros w k [Hu Hl] Hs Hnot Htk Hland.
  - destruct k; discriminate.
  - apply Forall_cons_iff in Hs. destruct Hs as [Hp Hs'].
    destruct (silent_step p w Hu Hp) as (_ & Hu' & Hl' & _ & Hsame).
    cbv zeta in Hu', Hl', Hsame. rewrite Hl in Hl'. simpl in Htk |- *.
    set (before := seen_by p w) in *.
    set (after := fst (DSM2_watcher_turn p before)) in *.
    destruct k as [|k].
    + injection Htk as <-. cbn [fst] in Hland. exfalso.
      apply Hsame in Hnot. exact (Hnot Hland).
    + destruct (enters_land (before, after)) eqn:He.
      * exists 0%nat, (before, after).
        split; [lia|]. split; [reflexivity | exact He].
      * assert (Hafter : ~ landing after).
        { intros H. apply not_true_iff_false in He. apply He.
          apply enters_land_iff. split; [now apply Hsame | exact H]. }
        destruct (IH after k (conj Hu' Hl') Hs' Hafter Htk Hland)
          as (i & ti & Hi & Hti & Hent).
        exists (S i), ti. split; [lia|]. split; [exact Hti | exact Hent].
Qed.

End PacedRun.

(** C7.  In a run of the radio watcher after the first frame, its turns
    paced as the loop paces them and none of them with a new frame: the
    turn that finds [timeout_secs] above DSM2_LAND_TIMEOUT and a flight
    mode other than EMERGENCY_LAND sets the flight mode to
    EMERGENCY_LAND, the throttle stick to -1 and the other sticks to 0,
    and leaves the core as it is; this happens in exactly one turn of a
    run that goes past DSM2_LAND_TIMEOUT (in none if the flight mode was
    EMERGENCY_LAND from the start); a turn that finds [timeout_secs]
    above DSM2_DISARM_TIMEOUT and the core armed disarms; and every turn
    that disarms finds the flight mode EMERGENCY_LAND, entered in an
    earlier turn.  [timeout_secs] is the time since the last frame as a
    float: it is above DSM2_LAND_TIMEOUT as soon as that time is, and
    above DSM2_DISARM_TIMEOUT once that time is, by 0.3 microseconds. *)
Theorem loss_of_signal (polls : list dsm2_poll) (w : watcher_world) :
  using_dsm2 w <> 0%Z ->
  silent polls ->
  paced (last_dsm2_time w) polls ->
  let last := last_dsm2_time w in
  let trace := DSM2_watcher polls w in
  Forall2 (paced_turn last) polls trace
  /\ (length (filter enters_land trace) <= 1)%nat
  /\ (~ landing w ->
      Exists (fun p => DSM2_LAND_TIMEOUT < timeout_secs last (current_time p))
             polls ->
      length (filter enters_land trace) = 1%nat)
  /\ (forall k tk, nth_error trace k = Some tk -> disarms tk = true ->
        landing (fst tk)
        /\ (~ landing w ->
            exists i ti, (i < k)%nat /\ nth_error trace i = Some ti
                         /\ enters_land ti = true))
  /\ (forall now,
        (DSM2_LAND_TIMEOUT < now - last ->
         DSM2_LAND_TIMEOUT < timeout_secs last now)
        /\ (DSM2_DISARM_TIMEOUT + 0.0000003 < now - last ->
            DSM2_DISARM_TIMEOUT < timeout_secs last now)).
Proof.
  intros Hu Hs Hpace last trace.
  assert (Hst : started last w) by (split; [exact Hu | reflexivity]).
  assert (Hrun : Forall2 (paced_turn last) polls trace).
  { apply (paced_run last polls w last Hst Hs Hpace).
    left. unfold DSM2_LAND_TIMEOUT. lra. }
  pose proof (enters_land_at_most_once last polls w Hst Hs) as Hmost.
  fold trace in Hmost.
  split; [exact Hrun|]. split; [exact Hmost|]. split; [|split].
  - intros Hnot Hex.
    destruct (Forall2_Exists_nth _ _ _ _ Hrun Hex)
      as (j & pj & tj & _ & Htj & H3 & Hturn).
    destruct Hturn as (Hland & _). cbv zeta in Hland.
    destruct (landing_was_entered last polls w j tj Hst Hs Hnot Htj (Hland H3))
      as (i & ti & _ & Hti & Hent).
    assert (Hin : In ti (filter enters_land trace)).
    { apply filter_In. split; [exact (nth_error_In _ _ Hti) | exact Hent]. }
    destruct (filter enters_land trace) as [|x [|y l]];
      [contradiction | reflexivity | simpl in Hmost; lia].
  - intros k tk Htk Hd.
    destruct (Forall2_nth_right _ _ _ _ _ Hrun Htk) as (pk & _ & Hturn).
    destruct Hturn as (_ & _ & _ & Hfinds). cbv zeta in Hfinds.
    destruct (Hfinds Hd) as (Hland & _).
    split; [exact Hland|]. intros Hnot.
    exact (landing_seen_was_entered last polls w k tk Hst Hs Hnot Htk Hland).
  - intros now.
    split; [apply timeout_secs_land | apply timeout_secs_past_disarm].
Qed.

Lemma loss_of_signal_witness :
  let trace := DSM2_watcher (silent_polls [0.2; 0.31; 4.9; 5.01])
                 radio_flying_world in
  map (fun turn => (disarms turn, enters_land turn)) trace
  = [(false, false); (false, true); (false, false); (true, false)]
  /\ length (filter enters_land trace) = 1%nat
  /\ landing (fst (nth 3 trace (radio_flying_world, radio_flying_world))).
Proof.
  cbv zeta. split; [vm_compute; reflexivity|].
  pose proof (loss_of_signal (silent_polls [0.2; 0.31; 4.9; 5.01])
                radio_flying_world) as H.
  cbv zeta in H. destruct H as (_ & _ & Honce & Horder & _).
  - discriminate.
  - repeat (apply Forall_cons; [reflexivity|]). apply Forall_nil.
  - repeat (split; [vm_compute; reflexivity|]). exact I.
  - split.
    + apply Honce.
      * intros Hl. vm_compute in Hl. discriminate Hl.
      * apply Exists_cons_tl, Exists_cons_hd. vm_compute. reflexivity.
    + refine (proj1 (Horder 3%nat _ _ _)); [reflexivity | vm_compute; reflexivity].
Defined.

(** ** The arming sequence *)

Lemma tipped_false (o : arm_obs) : tipped o = false -> is_level o.
Proof.
  unfold tipped, is_level. intros H. apply orb_false_iff in H.
  destruct H as [Hr Hp]. apply Qgtb_false in Hr, Hp. now split.
Qed.

Lemma keeps_waiting_false (pc : arm_pc) (o : arm_obs) :
  keeps_waiting pc o = false -> leaves pc o.
Proof.
  destruct pc; simpl; intros H;
    try (now apply tipped_false);
    try (now apply Qgtb_false in H);
    try (now apply Qltb_false in H).
  apply negb_false_iff, Z.eqb_eq in H. exact H.
Qed.

Section ArmingRun.

Variable env : nat -> arm_obs.

Lemma seen_later (conds : list (arm_obs -> Prop)) (from upto upto' : nat) :
  seen_in_order env conds from upto -> (upto <= upto')%nat ->
  seen_in_order env conds from upto'.
Proof.
  revert from. induction conds as [|c conds IH]; simpl; intros from H Hle.
  - lia.
  - destruct H as (t & Hft & Hc & Hrest). exists t. eauto.
Qed.

Lemma seen_one_more (conds : list (arm_obs -> Prop)) (c : arm_obs -> Prop)
    (from t : nat) :
  seen_in_order env conds from t -> c (env t) ->
  seen_in_order env (conds ++ [c]) from t.
Proof.
  revert from. induction conds as [|c0 conds IH]; simpl; intros from H Hc.
  - exists t. auto.
  - destruct H as (t0 & Hft & Hc0 & Hrest). exists t0. auto.
Qed.

Lemma loops_before_next (pc : arm_pc) :
  pc <> CHECK_LEVEL -> loops_before (next_pc pc) = loops_before pc ++ [pc].
Proof. destruct pc; intros H; try reflexivity. congruence. Qed.

(** One evaluation keeps the invariant, and a run that ends armed ends at
    an instant with the throttle down and the vehicle level. *)
Lemma arm_step_inv (pc : arm_pc) (t : nat) :
  arm_inv env pc t ->
  match arm_step env pc t with
  | Polling pc' t' => arm_inv env pc' t' /\ (t <= t')%nat
  | Finished (ARMED_AT te) =>
      te = t /\ pc = CHECK_LEVEL /\ is_level (env t)
  | Finished EXITED => True
  end.
Proof.
  intros [Hseen Hdown]. unfold arm_step.
  assert (Hloop : pc <> CHECK_LEVEL ->
            match (if keeps_waiting pc (env t)
                   then if obs_exiting (env (S t)) then Finished EXITED
                        else Polling pc (S t)
                   else Polling (next_pc pc) t) with
            | Polling pc' t' => arm_inv env pc' t' /\ (t <= t')%nat
            | Finished (ARMED_AT te) =>
                te = t /\ pc = CHECK_LEVEL /\ is_level (env t)
            | Finished EXITED => True
            end).
  { intros Hpc. destruct (keeps_waiting pc (env t)) eqn:Hk.
    - destruct (obs_exiting (env (S t))); [exact I|].
      split; [|lia]. split; [|congruence].
      apply (seen_later _ _ t); [exact Hseen | lia].
    - apply keeps_waiting_false in Hk. split; [|lia]. split.
      + rewrite (loops_before_next pc Hpc), map_app. simpl.
        now apply seen_one_more.
      + intros Hnext. destruct pc; try discriminate Hnext; [exact Hk | congruence]. }
  destruct pc; try exact (Hloop ltac:(discriminate)).
  destruct (tipped (env t)) eqn:Htip.
  - split; [|lia]. split; [simpl; lia | discriminate].
  - split; [reflexivity|]. split; [reflexivity|]. now apply tipped_false.
Qed.

Lemma arm_run_armed (fuel : nat) (pc : arm_pc) (t te : nat) :
  arm_inv env pc t ->
  arm_run fuel env pc t = Some (ARMED_AT te) ->
  arm_inv env CHECK_LEVEL te /\ is_level (env te) /\ (t <= te)%nat.
Proof.
  revert pc t. induction fuel as [|fuel IH]; intros pc t Hinv Hrun; simpl in Hrun.
  - discriminate.
  - pose proof (arm_step_inv pc t Hinv) as Hstep.
    destruct (arm_step env pc t) as [pc' t' | [te' |]].
    + destruct Hstep as [Hinv' Hle].
      destruct (IH pc' t' Hinv' Hrun) as (H1 & H2 & H3).
      split; [exact H1|]. split; [exact H2 | lia].
    + injection Hrun as ->. destruct Hstep as (-> & -> & Hlevel).
      split; [exact Hinv|]. split; [exact Hlevel | lia].
    + discriminate.
Qed.

(** More fuel does not change the outcome of a run that ended. *)
Lemma arm_run_more_fuel (fuel k : nat) (pc : arm_pc) (t : nat) (o : arm_outcome) :
  arm_run fuel env pc t = Some o -> arm_run (fuel + k) env pc t = Some o.
Proof.
  revert pc t. induction fuel as [|fuel IH]; intros pc t H; simpl in *.
  - discriminate.
  - destruct (arm_step env pc t) as [pc' t' | o']; [now apply IH | exact H].
Qed.

End ArmingRun.

Lemma five_not_pow2 (e : nat) : ~ (5 | 2 ^ Z.of_nat e)%Z.
Proof.
  induction e as [|e IH].
  - simpl. intros [k Hk]. lia.
  - rewrite Nat2Z.inj_succ, Z.pow_succ_r by lia. intros H.
    apply IH. apply (Z.gauss 5 2); [exact H | reflexivity].
Qed.

(** Nine tenths is not a dyadic rational: no float or double equals
    0.9 or -0.9. *)
Lemma dyadic_not_nine_tenths (q : Q) :
  dyadic q -> ~ q == 0.9 /\ ~ q == -0.9.
Proof.
  intros (m & e & Hq).
  assert (Hpos : (0 < 2 ^ Z.of_nat e)%Z) by (apply Z.pow_pos_nonneg; lia).
  assert (HposQ : 0 < inject_Z (2 ^ Z.of_nat e)).
  { change 0 with (inject_Z 0). now rewrite <- Zlt_Qlt. }
  assert (Hm : q * inject_Z (2 ^ Z.of_nat e) == inject_Z m).
  { rewrite Hq. field. lra. }
  split; intros H9; rewrite H9 in Hm.
  - assert (Hz : (9 * 2 ^ Z.of_nat e = 10 * m)%Z).
    { apply inject_Z_injective. rewrite !inject_Z_mult.
      change (inject_Z 9) with 9. change (inject_Z 10) with 10. lra. }
    apply (five_not_pow2 e). apply (Z.gauss 5 9); [|reflexivity].
    exists (2 * m)%Z. lia.
  - assert (Hz : (9 * 2 ^ Z.of_nat e = 10 * - m)%Z).
    { apply inject_Z_injective. rewrite !inject_Z_mult, inject_Z_opp.
      change (inject_Z 9) with 9. change (inject_Z 10) with 10. lra. }
    apply (five_not_pow2 e). apply (Z.gauss 5 9); [|reflexivity].
    exists (2 * - m)%Z. lia.
Qed.

Lemma seen_weaken (env : nat -> arm_obs) (cs cs' : list (arm_obs -> Prop))
    (from upto : nat) :
  Forall2 (fun c c' : arm_obs -> Prop => forall t, c (env t) -> c' (env t))
          cs cs' ->
  seen_in_order env cs from upto -> seen_in_order env cs' from upto.
Proof.
  intros Hcs. revert from. induction Hcs as [|c c' cs cs' Hc _ IH];
    intros from H; [exact H|].
  destruct H as (t & Hft & Hct & Hrest). exists t. auto.
Qed.

Lemma arm_calls_polling (fuel : nat) (env : nat -> arm_obs) (pc : arm_pc)
    (t : nat) :
  Forall (fun e => e = Usleep 100000 \/ e = Printf) (arm_calls fuel env pc t).
Proof.
  revert pc t. induction fuel as [|fuel IH]; intros pc t; [constructor|].
  cbn [arm_calls]. apply Forall_app. split.
  - unfold step_calls.
    destruct pc; try (destruct (keeps_waiting _ _); repeat constructor; tauto).
    destruct (tipped _); repeat constructor; tauto.
  - destruct (arm_step env pc t); [apply IH | constructor].
Qed.

(** C6 as amended.  The arming sequence succeeds only after observing, in
    order: vehicle level (|roll| and |pitch| at most 0.2 rad), kill switch
    released, throttle stick below -0.9, above +0.9, below -0.9 again,
    and the vehicle level at the instant the throttle was last seen
    down.  (The stick is a float, and no float equals 0.9 or -0.9.)  The
    attitude is looked at only before the first of these and at that
    last instant: a tip-over seen there sends the sequence back to its
    first loop, one that has gone by then is not noticed.  While it
    polls the function only sleeps, 100 ms at a time, and prints the
    message of a restart; on success it then sends ten rounds of minimum
    pulses, reloads the configuration, reinitialises the filters and
    only then sets the core mode to ATTITUDE. *)
Theorem arming_sequence {FL : filter_lib} (fuel : nat) (env : nat -> arm_obs)
    (loaded : core_config_t) (w w' : arm_world) (te : nat) (eff : list effect) :
  (forall t, dyadic (obs_throttle_stick (env t))) ->
  wait_for_arming_sequence fuel env loaded w = Some (ARMED_AT te, w', eff) ->
  seen_in_order env
    [is_level; kill_released; throttle_below; throttle_above; throttle_below;
     is_level] 0 te
  /\ throttle_below (env te)
  /\ is_level (env te)
  /\ (forall t, tipped (env t) = true ->
        arm_step env CHECK_LEVEL t = Polling WAIT_LEVEL t
        /\ step_calls env CHECK_LEVEL t = [Printf])
  /\ (forall pc t, pc <> WAIT_LEVEL -> pc <> CHECK_LEVEL ->
        keeps_waiting pc (env t) = keeps_waiting pc
          {| obs_roll := 0; obs_pitch := 0;
             obs_kill_switch := obs_kill_switch (env t);
             obs_throttle_stick := obs_throttle_stick (env t);
             obs_exiting := obs_exiting (env t) |})
  /\ wait_for_arming_sequence_calls fuel env loaded w
     = Some (arm_calls fuel env WAIT_LEVEL 0
             ++ wake_escs 10
             ++ [LoadCoreConfig; InitializeFilters; SetCoreMode ATTITUDE;
                 Printf; SetRED 0])
  /\ Forall (fun e => e = Usleep 100000 \/ e = Printf)
            (arm_calls fuel env WAIT_LEVEL 0)
  /\ w' = {| aw_config := loaded;
             aw_state := initialize_filters loaded (aw_state w);
             aw_setpoint := set_core_mode (aw_setpoint w) ATTITUDE |}
  /\ core_mode (aw_setpoint w') = ATTITUDE.
Proof.
  intros Hfloat H.
  assert (Hcalls : wait_for_arming_sequence_calls fuel env loaded w
                   = Some (arm_calls fuel env WAIT_LEVEL 0 ++ eff)).
  { unfold wait_for_arming_sequence_calls. now rewrite H. }
  unfold wait_for_arming_sequence in H.
  destruct (arm_run fuel env WAIT_LEVEL 0) as [[t |]|] eqn:Hrun;
    try discriminate H.
  injection H as -> <- <-.
  assert (H0 : arm_inv env WAIT_LEVEL 0).
  { split; [simpl; lia | discriminate]. }
  destruct (arm_run_armed env fuel WAIT_LEVEL 0 te H0 Hrun)
    as ([Hseen Hdown] & Hlevel & _).
  assert (Hbelow : forall t, throttle_down (env t) -> throttle_below (env t)).
  { intros t Ht. unfold throttle_down in Ht. unfold throttle_below.
    destruct (dyadic_not_nine_tenths _ (Hfloat t)) as (_ & Hne).
    destruct (Qlt_le_dec (obs_throttle_stick (env t)) (-0.9)) as [Hlt | Hge];
      [exact Hlt|].
    exfalso. apply Hne. apply Qle_antisym; assumption. }
  assert (Habove : forall t, throttle_up (env t) -> throttle_above (env t)).
  { intros t Ht. unfold throttle_up in Ht. unfold throttle_above.
    destruct (dyadic_not_nine_tenths _ (Hfloat t)) as (Hne & _).
    destruct (Qlt_le_dec 0.9 (obs_throttle_stick (env t))) as [Hlt | Hge];
      [exact Hlt|].
    exfalso. apply Hne. apply Qle_antisym; assumption. }
  split.
  { apply (seen_weaken env
             (map leaves (loops_before CHECK_LEVEL) ++ [is_level])).
    - cbn [loops_before map leaves app].
      repeat (apply Forall2_cons; [auto|]). apply Forall2_nil.
    - now apply seen_one_more. }
  split; [apply Hbelow; now apply Hdown|]. split; [exact Hlevel|].
  split.
  { intros t Ht. unfold arm_step, step_calls. now rewrite Ht. }
  split; [intros pc t H1 H2; destruct pc; try reflexivity; congruence|].
  split; [exact Hcalls|].
  split; [apply arm_calls_polling|].
  split; reflexivity.
Qed.

Lemma arming_sequence_witness :
  seen_in_order restart_env
    [is_level; kill_released; throttle_below; throttle_above; throttle_below;
     is_level] 0 5
  /\ wait_for_arming_sequence_calls 30 restart_env scenario_config
       boot_arm_world
     = Some ([Usleep 100000; Usleep 100000; Printf; Usleep 100000;
              Usleep 100000; Usleep 100000]
             ++ wake_escs 10
             ++ [LoadCoreConfig; InitializeFilters; SetCoreMode ATTITUDE;
                 Printf; SetRED 0]).
Proof.
  assert (Hfloat : forall t, dyadic (obs_throttle_stick (restart_env t))).
  { intros t.
    do 5 (destruct t as [|t];
          [first [ now exists (-1)%Z, 0%nat | now exists 1%Z, 0%nat ]|]).
    now exists (-1)%Z, 0%nat. }
  assert (H : wait_for_arming_sequence 30 restart_env scenario_config
                boot_arm_world
              = Some (ARMED_AT 5,
                      {| aw_config := scenario_config;
                         aw_state := initialize_filters scenario_config boot_state;
                         aw_setpoint := setpoint_of ATTITUDE 0 0 0 0 0 |},
                      wake_escs 10
                      ++ [LoadCoreConfig; InitializeFilters;
                          SetCoreMode ATTITUDE; Printf; SetRED 0]))
    by reflexivity.
  destruct (arming_sequence 30 restart_env scenario_config boot_arm_world
              _ 5 _ Hfloat H) as (Hseen & _ & _ & _ & _ & Hcalls & _).
  split; [exact Hseen | exact Hcalls].
Defined.

(** C6, counterexample.  The vehicle is rolled to 1 rad while the
    sequence waits for the throttle to go up and is level again before
    the final check: the sequence arms without going back to its first
    loop. *)
Lemma tip_over_goes_unnoticed :
  arm_run 20 tip_env WAIT_LEVEL 0 = Some (ARMED_AT 3)
  /\ nth_error (arm_trace 20 tip_env WAIT_LEVEL 0) 4
     = Some (WAIT_THROTTLE_UP, 1%nat)
  /\ tipped (tip_env 1) = true
  /\ ~ restarts_after_tip tip_env (arm_trace 20 tip_env WAIT_LEVEL 0).
Proof.
  split; [reflexivity|]. split; [reflexivity|]. split; [reflexivity|].
  intros H.
  destruct (H 4%nat WAIT_THROTTLE_UP 1%nat eq_refl eq_refl)
    as (j & t' & Hj & Hnth).
  vm_compute in Hnth.
  do 9 (destruct j as [|j]; [first [lia | simpl in Hnth; discriminate Hnth]|]).
  simpl in Hnth. destruct j; discriminate Hnth.
Qed.

(** * Further properties of fly.c *)

(** ** Mixing and headroom *)

Lemma reduce_evenly_shift (l : list Q) :
  exists c, 0 <= c
    /\ ((c == 0 /\ largest_value l <= 1)
        \/ (1 < largest_value l /\ c = largest_value l - 1))
    /\ forall i, (i < length l)%nat ->
         at_ (reduce_evenly l) i == at_ l i - c.
Proof.
  unfold reduce_evenly. cmp (largest_value l) 1.
  - exists (largest_value l - 1). split; [lra|]. split; [right; now split|].
    intros i Hi. rewrite at_map by exact Hi. reflexivity.
  - exists 0. split; [lra|]. split; [left; split; [reflexivity | exact E]|].
    intros i _. lra.
Qed.

(** X1.  Mixing followed by the headroom step keeps the three torque
    combinations of the four motor commands at four times the roll,
    pitch and yaw components; only the collective gives way, by four
    times the excess of the largest command over 1, and no command is
    above 1 afterwards. *)
Theorem mix_then_headroom (u0 u1 u2 u3 : Q) :
  let raw := mix u0 u1 u2 u3 in
  let e := reduce_evenly raw in
  roll_torque e == 4 * u1
  /\ pitch_torque e == 4 * u2
  /\ yaw_torque e == 4 * u3
  /\ collective raw == 4 * u0
  /\ collective e <= 4 * u0
  /\ (Forall (fun x => x <= 1) raw -> collective e == 4 * u0)
  /\ (Exists (fun x => 1 < x) raw ->
      collective e == 4 * u0 - 4 * (largest_value raw - 1))
  /\ Forall (fun x => x <= 1) e.
Proof.
  intros raw e.
  destruct (reduce_evenly_shift raw) as (c & Hc & Hcase & Hat).
  assert (H0 := Hat 0%nat ltac:(simpl; lia)).
  assert (H1 := Hat 1%nat ltac:(simpl; lia)).
  assert (H2 := Hat 2%nat ltac:(simpl; lia)).
  assert (H3 := Hat 3%nat ltac:(simpl; lia)).
  fold e in H0, H1, H2, H3.
  unfold roll_torque, pitch_torque, yaw_torque, collective.
  assert (R0 : at_ raw 0 = u0 - u1 + u2 - u3) by reflexivity.
  assert (R1 : at_ raw 1 = u0 + u1 - u2 - u3) by reflexivity.
  assert (R2 : at_ raw 2 = u0 + u1 + u2 + u3) by reflexivity.
  assert (R3 : at_ raw 3 = u0 - u1 - u2 + u3) by reflexivity.
  rewrite R0, R1, R2, R3 in *.
  split; [lra|]. split; [lra|]. split; [lra|]. split; [lra|].
  split; [lra|]. split; [|split].
  - intros Hall. destruct Hcase as [[Hz _] | [Hgt _]]; [lra|].
    exfalso. destruct (largest_value_bounds raw) as (_ & _ & [Hl | Hin]).
    + rewrite Hl in Hgt. lra.
    + rewrite Forall_forall in Hall. specialize (Hall _ Hin). lra.
  - intros Hex. destruct (reduce_evenly_above raw Hex) as (Hgt & _ & _).
    destruct Hcase as [[_ Hle] | [_ ->]]; lra.
  - unfold e, reduce_evenly. cmp (largest_value raw) 1.
    + destruct (largest_value_bounds raw) as (_ & Hle & _).
      apply Forall_map. revert Hle. apply Forall_impl. intros x Hx. lra.
    + destruct (largest_value_bounds raw) as (_ & Hle & _).
      revert Hle. apply Forall_impl. intros x Hx. lra.
Qed.

(** ** More of the attitude core *)

Lemma detect_crossover_cases (new_yaw last : Q) (spins : Z) :
  (6 < new_yaw - last -> detect_crossover new_yaw last spins = (spins - 1)%Z)
  /\ (new_yaw - last < -6 ->
      detect_crossover new_yaw last spins = (spins + 1)%Z)
  /\ (-6 <= new_yaw - last <= 6 ->
      detect_crossover new_yaw last spins = spins).
Proof.
  unfold detect_crossover, Qltb.
  cmp (new_yaw - last) 6; [|cmp (-6) (new_yaw - last)];
    repeat split; intros; try reflexivity; exfalso; lra.
Qed.


Section MoreCore.

Context {FL : filter_lib} {CL : cape_lib}.

(** X2.  On the first cycle after arming the fused yaw of the sample
    becomes the take-off yaw.  The reported yaw is then 0 only if the yaw
    remembered from before arming is within 6 rad of 0; a remembered yaw
    below -6 makes the crossover test fire and the vehicle takes off with
    a spin count of -1 and a reported yaw of -2 pi, one above 6 with a
    spin count of 1 and a reported yaw of 2 pi. *)
Theorem first_cycle_yaw (mpu : mpudata_t) (mode : core_mode_t)
    (s : core_state_t) :
  mode <> DISARMED ->
  let s' := estimate_state mpu DISARMED mode s in
  imu_yaw_on_takeoff s' = VEC3_Z (fusedEuler mpu)
  /\ last_yaw s' = yaw s
  /\ (-6 <= last_yaw s <= 6 -> num_yaw_spins s' = 0%Z /\ yaw s' == 0)
  /\ (last_yaw s < -6 -> num_yaw_spins s' = (-1)%Z /\ yaw s' == - (2 * PI))
  /\ (6 < last_yaw s -> num_yaw_spins s' = 1%Z /\ yaw s' == 2 * PI).
Proof.
  intros Hmode s'.
  assert (Hfirst : core_mode_eqb DISARMED DISARMED
                   && negb (core_mode_eqb mode DISARMED) = true).
  { destruct mode; [congruence | reflexivity | reflexivity]. }
  assert (Ht : imu_yaw_on_takeoff s' = VEC3_Z (fusedEuler mpu)).
  { unfold s', estimate_state. cbn [imu_yaw_on_takeoff]. now rewrite Hfirst. }
  assert (Hs : num_yaw_spins s'
               = detect_crossover (yaw_of (VEC3_Z (fusedEuler mpu))
                                      (VEC3_Z (fusedEuler mpu)) 0)
                   (last_yaw s) 0).
  { unfold s', estimate_state. cbn [num_yaw_spins]. now rewrite Hfirst. }
  assert (Hy : yaw s' = yaw_of (VEC3_Z (fusedEuler mpu))
                          (VEC3_Z (fusedEuler mpu)) (num_yaw_spins s')).
  { rewrite Hs. unfold s', estimate_state. cbn [yaw]. now rewrite Hfirst. }
  split; [exact Ht|]. split; [reflexivity|].
  rewrite Hy. clear Hy. rewrite Hs. clear Hs.
  set (z := VEC3_Z (fusedEuler mpu)).
  assert (Hnew : yaw_of z z 0 == 0).
  { unfold yaw_of. change (inject_Z 0) with 0. lra. }
  destruct (detect_crossover_cases (yaw_of z z 0) (last_yaw s) 0)
    as (Hdec & Hinc & Hkeep).
  split; [|split]; intros H.
  - rewrite Hkeep by lra. split; [reflexivity | exact Hnew].
  - rewrite Hdec by lra. split; [reflexivity|].
    unfold yaw_of. change (inject_Z (0 - 1)) with (-1 # 1). lra.
  - rewrite Hinc by lra. split; [reflexivity|].
    unfold yaw_of. change (inject_Z (0 + 1)) with (1 # 1). lra.
Qed.

(** X3.  On a cycle that records its outputs the entry handed to the
    logger carries the four pulse values just sent, the four control
    components just recorded and the loop counter as it was before the
    cycle; the counter then goes up by one, wrapping at 2^32. *)
Theorem log_entry_matches_outputs (cfg : core_config_t) (mpu : mpudata_t)
    (w : core_world) :
  core_mode (core_setpoint w) <> DISARMED ->
  previous_core_mode w <> DISARMED ->
  let r := flight_core cfg (Some mpu) w in
  exists entry,
    logged (snd r) = [entry]
    /\ [esc_1 entry; esc_2 entry; esc_3 entry; esc_4 entry]
       = map snd (pulses (snd r))
    /\ map fst (pulses (snd r)) = [1; 2; 3; 4]%Z
    /\ [u_0 entry; u_1 entry; u_2 entry; u_3 entry]
       = control_u (core_state (fst r))
    /\ num_loops entry = control_loops (core_state w)
    /\ control_loops (core_state (fst r))
       = ((control_loops (core_state w) + 1) mod 2 ^ 32)%Z.
Proof.
  intros Harmed Hprev.
  destruct (flight_core_armed cfg mpu w Harmed) as (y & Hfc).
  cbv zeta in Hfc |- *. rewrite Hfc. cbn [fst snd core_state].
  set (sp := set_sp_yaw (core_setpoint w) y).
  set (s := estimate_state mpu _ _ _).
  unfold run_controllers.
  destruct (previous_core_mode w); [congruence | |];
    cbn [core_mode_eqb fst snd logged pulses control_u control_loops];
    (eexists; split; [reflexivity|]);
    cbn [esc_1 esc_2 esc_3 esc_4 u_0 u_1 u_2 u_3 num_loops];
    unfold reduce_evenly;
    destruct (Qgtb (largest_value (mix _ _ _ _)) 1);
    repeat split.
Qed.

(** X4.  The safety thread and the core together: a turn of the safety
    thread that finds an armed core rolled or pitched beyond
    TIP_THRESHOLD disarms it, and the next control cycle then sends no
    pulse, clears [esc_out] and remembers DISARMED; a turn that finds
    the vehicle within the threshold on both axes leaves the setpoint as
    it is. *)
Theorem tip_over_disarms (cfg : core_config_t) (mpu : mpudata_t)
    (w : core_world) :
  let sp' := fst (safety_turn (core_state w) (core_setpoint w)) in
  let r := flight_core cfg (Some mpu)
             {| core_state := core_state w;
                core_setpoint := sp';
                previous_core_mode := previous_core_mode w |} in
  (core_mode (core_setpoint w) <> DISARMED ->
   TIP_THRESHOLD < Qabs (roll (core_state w))
   \/ TIP_THRESHOLD < Qabs (pitch (core_state w)) ->
   sp' = set_core_mode (core_setpoint w) DISARMED
   /\ pulses (snd r) = []
   /\ esc_out (core_state (fst r)) = [0; 0; 0; 0]
   /\ previous_core_mode (fst r) = DISARMED)
  /\ (Qabs (roll (core_state w)) <= TIP_THRESHOLD ->
      Qabs (pitch (core_state w)) <= TIP_THRESHOLD ->
      sp' = core_setpoint w).
Proof.
  cbv zeta. unfold safety_turn. split.
  - intros Harmed Htip.
    destruct (core_mode_eqb (core_mode (core_setpoint w)) DISARMED) eqn:Hm;
      [apply core_mode_eqb_eq in Hm; congruence|].
    cbn [negb].
    assert (Hb : Qgtb (Qabs (roll (core_state w))) TIP_THRESHOLD
                 || Qgtb (Qabs (pitch (core_state w))) TIP_THRESHOLD = true).
    { apply orb_true_iff. destruct Htip as [H | H];
        [left | right]; now apply Qgtb_true. }
    rewrite Hb. cbn [disarm fst].
    split; [reflexivity|].
    destruct (disarmed_cycle cfg mpu
                {| core_state := core_state w;
                   core_setpoint := set_core_mode (core_setpoint w) DISARMED;
                   previous_core_mode := previous_core_mode w |} eq_refl)
      as (_ & _ & _ & _ & _ & _ & _ & He & _ & Hp & _ & Hout).
    cbv zeta in He, Hp, Hout. rewrite Hout. now split.
  - intros Hr Hp. apply Qgtb_false in Hr, Hp. rewrite Hr, Hp.
    now destruct (negb _).
Qed.

End MoreCore.

Lemma first_cycle_yaw_witness :
  yaw (estimate_state (sample 0 0 1) DISARMED ATTITUDE steady_at_3_10) == 0.
Proof.
  apply (first_cycle_yaw (sample 0 0 1) ATTITUDE steady_at_3_10
           ltac:(discriminate)).
  split; vm_compute; discriminate.
Defined.

Lemma log_entry_matches_outputs_witness :
  exists entry,
    logged (snd (flight_core scenario_config (Some (sample 0 0 0))
                   low_throttle_world)) = [entry]
    /\ [esc_1 entry; esc_2 entry; esc_3 entry; esc_4 entry]
       = map snd (pulses (snd (flight_core scenario_config
                                 (Some (sample 0 0 0)) low_throttle_world))).
Proof.
  destruct (log_entry_matches_outputs scenario_config (sample 0 0 0)
              low_throttle_world ltac:(discriminate) ltac:(discriminate))
    as (entry & Hl & He & _).
  exists entry. split; [exact Hl | exact He].
Defined.

Lemma tip_over_disarms_witness :
  let sp' := fst (safety_turn (core_state tipped_world)
                    (core_setpoint tipped_world)) in
  core_mode sp' = DISARMED
  /\ esc_out (core_state (fst (flight_core scenario_config
                (Some (sample 0 (-1.6) 0))
                {| core_state := core_state tipped_world;
                   core_setpoint := sp';
                   previous_core_mode := previous_core_mode tipped_world |})))
     = [0; 0; 0; 0].
Proof.
  pose proof (tip_over_disarms scenario_config (sample 0 (-1.6) 0)
                tipped_world) as H.
  cbv zeta in H. destruct H as (H & _).
  destruct H as (Hsp & _ & He & _).
  - vm_compute. discriminate.
  - left. vm_compute. reflexivity.
  - cbv zeta. split; [rewrite Hsp; reflexivity | exact He].
Defined.

(** ** More of the arming sequence *)

Lemma leaves_stops_waiting (pc : arm_pc) (o : arm_obs) :
  leaves pc o -> keeps_waiting pc o = false.
Proof.
  assert (Hlevel : is_level o -> tipped o = false).
  { intros [Hr Hp]. unfold tipped. apply orb_false_iff.
    split; now apply Qgtb_false. }
  destruct pc; simpl; intros H;
    try (now apply Hlevel);
    try (now apply Qgtb_false);
    try (now apply Qltb_false).
  unfold kill_released in H. rewrite H. reflexivity.
Qed.

Section ArmingProgress.

Variable env : nat -> arm_obs.

(** What the run needs to go through: somewhere in it each of these
    conditions holds. *)
Lemma armed_needs (fuel te : nat) :
  arm_run fuel env WAIT_LEVEL 0 = Some (ARMED_AT te) ->
  (exists t, is_level (env t))
  /\ (exists t, kill_released (env t))
  /\ (exists t, throttle_down (env t))
  /\ (exists t, throttle_up (env t)).
Proof.
  intros Hrun.
  assert (H0 : arm_inv env WAIT_LEVEL 0) by (split; [simpl; lia | discriminate]).
  destruct (arm_run_armed env fuel WAIT_LEVEL 0 te H0 Hrun) as ([Hseen _] & _).
  simpl in Hseen.
  destruct Hseen as (t1 & _ & H1 & t2 & _ & H2 & t3 & _ & H3 & t4 & _ & H4 & _).
  repeat split; eauto.
Qed.

(** A waiting loop whose condition fails [d] sleeps from now, with the
    program not exiting until then, is left at or before that instant,
    and the run goes on from the next loop. *)
Lemma loop_is_left (pc : arm_pc) (d t : nat) :
  pc <> CHECK_LEVEL ->
  (forall k, (t < k <= t + d)%nat -> obs_exiting (env k) = false) ->
  leaves pc (env (t + d)) ->
  exists t', (t <= t' <= t + d)%nat
    /\ forall fuel o, arm_run fuel env (next_pc pc) t' = Some o ->
         exists fuel', arm_run fuel' env pc t = Some o.
Proof.
  intros Hpc. revert t. induction d as [|d IH]; intros t Hrun Hleave.
  - exists t. split; [lia|]. intros fuel o Ho. exists (S fuel). simpl.
    rewrite Nat.add_0_r in Hleave. apply leaves_stops_waiting in Hleave.
    unfold arm_step. rewrite Hleave. destruct pc; congruence.
  - destruct (keeps_waiting pc (env t)) eqn:Hk.
    + destruct (IH (S t)) as (t' & Ht' & Hgo).
      * intros k Hk'. apply Hrun. lia.
      * now replace (S t + d)%nat with (t + S d)%nat by lia.
      * exists t'. split; [lia|]. intros fuel o Ho.
        destruct (Hgo fuel o Ho) as (fuel' & Hf). exists (S fuel'). simpl.
        unfold arm_step. rewrite Hk, (Hrun (S t)) by lia.
        destruct pc; congruence.
    + exists t. split; [lia|]. intros fuel o Ho. exists (S fuel). simpl.
      unfold arm_step. rewrite Hk. destruct pc; congruence.
Qed.

End ArmingProgress.


Lemma loop_is_left_by (env : nat -> arm_obs) (pc : arm_pc) (t u : nat) :
  pc <> CHECK_LEVEL -> (t <= u)%nat ->
  (forall k, (k <= u)%nat -> obs_exiting (env k) = false) ->
  leaves pc (env u) ->
  exists t', (t <= t' <= u)%nat
    /\ forall fuel o, arm_run fuel env (next_pc pc) t' = Some o ->
         exists fuel', arm_run fuel' env pc t = Some o.
Proof.
  intros Hpc Hle Hrun Hleave.
  replace u with (t + (u - t))%nat in Hleave by lia.
  destruct (loop_is_left env pc (u - t) t Hpc) as (t' & Ht' & Hgo).
  - intros k Hk. apply Hrun. lia.
  - exact Hleave.
  - exists t'. split; [lia | exact Hgo].
Qed.

(** X6.  The arming sequence does arm: if up to an instant T the program
    is not exiting and the vehicle stays level, and the kill switch is
    seen released, then the throttle stick down, up and down again, in
    this order and by T, then with enough fuel the sequence returns
    armed at an instant no later than T, having sent its forty minimum
    pulses, loaded the configuration and reinitialised the filters. *)
Theorem arming_completes {FL : filter_lib} (env : nat -> arm_obs)
    (loaded : core_config_t) (w : arm_world) (T : nat) :
  (forall t, (t <= T)%nat -> obs_exiting (env t) = false) ->
  (forall t, (t <= T)%nat -> is_level (env t)) ->
  seen_in_order env [kill_released; throttle_down; throttle_up; throttle_down]
    0 T ->
  exists fuel te, (te <= T)%nat
    /\ throttle_down (env te)
    /\ wait_for_arming_sequence fuel env loaded w
       = Some (ARMED_AT te,
               {| aw_config := loaded;
                  aw_state := initialize_filters loaded (aw_state w);
                  aw_setpoint := set_core_mode (aw_setpoint w) ATTITUDE |},
               wake_escs 10
               ++ [LoadCoreConfig; InitializeFilters; SetCoreMode ATTITUDE;
                   Printf; SetRED 0]).
Proof.
  intros Hrun Hlevel Hseen. simpl in Hseen.
  destruct Hseen as (t2 & _ & Hk & t3 & H23 & Hd & t4 & H34 & Hu
                     & t5 & H45 & Hd2 & H5T).
  assert (Hex : forall u, (u <= T)%nat ->
            forall k, (k <= u)%nat -> obs_exiting (env k) = false).
  { intros u Hu' k Hk'. apply Hrun. lia. }
  destruct (loop_is_left_by env WAIT_LEVEL 0 0 ltac:(discriminate)
              ltac:(lia) (Hex 0%nat ltac:(lia)) (Hlevel 0%nat ltac:(lia)))
    as (a0 & Ha0 & G0).
  destruct (loop_is_left_by env WAIT_KILL_SWITCH a0 t2 ltac:(discriminate)
              ltac:(lia) (Hex t2 ltac:(lia)) Hk) as (a1 & Ha1 & G1).
  destruct (loop_is_left_by env WAIT_THROTTLE_DOWN a1 t3 ltac:(discriminate)
              ltac:(lia) (Hex t3 ltac:(lia)) Hd) as (a2 & Ha2 & G2).
  destruct (loop_is_left_by env WAIT_THROTTLE_UP a2 t4 ltac:(discriminate)
              ltac:(lia) (Hex t4 ltac:(lia)) Hu) as (a3 & Ha3 & G3).
  (* the last loop is left at the first instant from a3 on with the
     throttle down *)
  assert (Hlast : exists a4, (a3 <= a4 <= t5)%nat
            /\ throttle_down (env a4)
            /\ forall fuel o, arm_run fuel env CHECK_LEVEL a4 = Some o ->
                 exists fuel', arm_run fuel' env WAIT_THROTTLE_DOWN_AGAIN a3
                               = Some o).
  { assert (Hgen : forall d t, (t + d = t5)%nat ->
              exists a4, (t <= a4 <= t5)%nat
                /\ throttle_down (env a4)
                /\ forall fuel o, arm_run fuel env CHECK_LEVEL a4 = Some o ->
                     exists fuel', arm_run fuel' env WAIT_THROTTLE_DOWN_AGAIN t
                                   = Some o).
    { induction d as [|d IH]; intros t Ht.
      - exists t. split; [lia|]. replace t with t5 by lia.
        split; [exact Hd2|]. intros fuel o Ho. exists (S fuel). cbn [arm_run].
        unfold arm_step.
        now rewrite (leaves_stops_waiting WAIT_THROTTLE_DOWN_AGAIN _ Hd2).
      - destruct (keeps_waiting WAIT_THROTTLE_DOWN_AGAIN (env t)) eqn:Hkw.
        + destruct (IH (S t) ltac:(lia)) as (a4 & Ha4 & Hdn & Hgo).
          exists a4. split; [lia|]. split; [exact Hdn|]. intros fuel o Ho.
          destruct (Hgo fuel o Ho) as (fuel' & Hf). exists (S fuel'). cbn [arm_run].
          unfold arm_step. now rewrite Hkw, (Hrun (S t)) by lia.
        + exists t. split; [lia|].
          split; [exact (keeps_waiting_false WAIT_THROTTLE_DOWN_AGAIN _ Hkw)|].
          intros fuel o Ho. exists (S fuel). cbn [arm_run]. unfold arm_step.
          now rewrite Hkw. }
    apply (Hgen (t5 - a3)%nat a3). lia. }
  destruct Hlast as (a4 & Ha4 & Hdn & G4).
  assert (Hcheck : arm_run 1 env CHECK_LEVEL a4 = Some (ARMED_AT a4)).
  { cbn [arm_run]. unfold arm_step.
    pose proof (leaves_stops_waiting CHECK_LEVEL (env a4)
                  (Hlevel a4 ltac:(lia))) as Hl.
    cbn [keeps_waiting] in Hl. now rewrite Hl. }
  destruct (G4 _ _ Hcheck) as (f4 & F4).
  destruct (G3 _ _ F4) as (f3 & F3).
  destruct (G2 _ _ F3) as (f2 & F2).
  destruct (G1 _ _ F2) as (f1 & F1).
  destruct (G0 _ _ F1) as (f0 & F0).
  exists f0, a4. split; [lia|]. split; [exact Hdn|].
  unfold wait_for_arming_sequence. now rewrite F0.
Qed.

(** X7.  The arming sequence gives way to a shutdown: with the program
    exiting from its first sleep on, four evaluations of its loop
    conditions are enough for it to return, and it returns without
    arming, whatever the attitude, the kill switch and the stick: no
    pulse is sent and the globals are left alone. *)
Theorem arming_aborts_on_exit {FL : filter_lib} (fuel : nat)
    (env : nat -> arm_obs) (loaded : core_config_t) (w : arm_world) :
  (forall t, obs_exiting (env (S t)) = true) ->
  (4 <= fuel)%nat ->
  wait_for_arming_sequence fuel env loaded w = Some (EXITED, w, []).
Proof.
  intros Hexit Hfuel.
  assert (Hrun : arm_run fuel env WAIT_LEVEL 0 = Some EXITED).
  { do 4 (destruct fuel as [|fuel]; [lia|]). clear Hfuel.
    cbn [arm_run]. unfold arm_step at 1. cbn [keeps_waiting].
    destruct (tipped (env 0%nat)); [now rewrite Hexit|]. cbn [next_pc arm_run].
    unfold arm_step at 1. cbn [keeps_waiting].
    destruct (negb _); [now rewrite Hexit|]. cbn [next_pc arm_run].
    unfold arm_step at 1. cbn [keeps_waiting].
    cmp (obs_throttle_stick (env 0%nat)) (-0.9); [now rewrite Hexit|].
    cbn [next_pc arm_run]. unfold arm_step at 1. cbn [keeps_waiting].
    unfold Qltb. cmp 0.9 (obs_throttle_stick (env 0%nat));
      [now rewrite Hexit | exfalso; lra]. }
  unfold wait_for_arming_sequence. now rewrite Hrun.
Qed.


Lemma arming_completes_witness :
  exists fuel te, (te <= 2)%nat
    /\ wait_for_arming_sequence fuel arming_env scenario_config boot_arm_world
       = Some (ARMED_AT te,
               {| aw_config := scenario_config;
                  aw_state := initialize_filters scenario_config boot_state;
                  aw_setpoint := setpoint_of ATTITUDE 0 0 0 0 0 |},
               wake_escs 10
               ++ [LoadCoreConfig; InitializeFilters; SetCoreMode ATTITUDE;
                   Printf; SetRED 0]).
Proof.
  destruct (arming_completes arming_env scenario_config boot_arm_world 2)
    as (fuel & te & Hte & _ & H).
  - intros t _. destruct t as [|[|t]]; reflexivity.
  - intros t _. destruct t as [|[|t]]; split; vm_compute; discriminate.
  - simpl. exists 0%nat. split; [lia|]. split; [reflexivity|].
    exists 0%nat. split; [lia|]. split; [vm_compute; discriminate|].
    exists 1%nat. split; [lia|]. split; [vm_compute; discriminate|].
    exists 2%nat. split; [lia|]. split; [vm_compute; discriminate | lia].
  - exists fuel, te. split; [exact Hte | exact H].
Defined.

Lemma arming_aborts_on_exit_witness :
  wait_for_arming_sequence 4 exiting_env scenario_config boot_arm_world
  = Some (EXITED, boot_arm_world, []).
Proof.
  apply (arming_aborts_on_exit 4 exiting_env scenario_config boot_arm_world);
    [reflexivity | lia].
Defined.

(** ** The flight stack *)

Lemma check_timeouts_kill_switch (p : dsm2_poll) (w : watcher_world) :
  kill_switch (user_interface (fst (check_timeouts p w)))
  = kill_switch (user_interface w).
Proof.
  unfold check_timeouts.
  destruct (negb _ && Qgtb _ DSM2_DISARM_TIMEOUT); [reflexivity|].
  destruct (negb _ && Qgtb _ DSM2_LAND_TIMEOUT); reflexivity.
Qed.

Section StackProperties.

Context {FL : filter_lib}.

(** A turn that finds the core armed and no kill request translates the
    flight mode and does nothing else. *)
Lemma flight_stack_turn_armed (fuel : nat) (env : nat -> arm_obs)
    (loaded : core_config_t) (ui : user_interface_t)
    (after_arming previous_flight_mode : flight_mode_t) (w : arm_world) :
  core_mode (aw_setpoint w) <> DISARMED ->
  kill_requested ui = false ->
  exists eff,
    flight_stack_turn fuel env loaded ui after_arming previous_flight_mode w
    = Some ({| aw_config := aw_config w;
               aw_state := aw_state w;
               aw_setpoint := translate_flight_mode (aw_config w) ui
                                (aw_setpoint w) |},
            flight_mode ui, eff)
    /\ forall ch v, ~ In (SendServoPulse ch v) eff.
Proof.
  intros Harmed Hkill. unfold flight_stack_turn. rewrite Hkill.
  destruct (core_mode_eqb (core_mode (aw_setpoint w)) DISARMED) eqn:Hm;
    [apply core_mode_eqb_eq in Hm; congruence|].
  eexists. split; [reflexivity|]. intros ch v Hin.
  destruct (flight_mode_eqb previous_flight_mode (flight_mode ui));
    simpl in Hin; intuition discriminate.
Qed.

(** X8.  In USER_ATTITUDE, with the core armed, the kill switch released,
    the sticks in [-1,1] and non-negative limits in the configuration, a
    turn of the flight stack leaves a setpoint in mode ATTITUDE whose
    throttle is in [0,1] and whose roll, pitch and yaw rate are within
    the configured limits; it leaves the yaw setpoint, the core state
    and the configuration alone. *)
Theorem attitude_setpoint_in_limits (fuel : nat) (env : nat -> arm_obs)
    (loaded : core_config_t) (ui : user_interface_t)
    (after_arming previous_flight_mode : flight_mode_t) (w : arm_world) :
  core_mode (aw_setpoint w) <> DISARMED ->
  flight_mode ui = USER_ATTITUDE ->
  kill_switch ui = 0%Z ->
  sticks_in_range ui ->
  0 <= max_roll_setpoint (aw_config w) ->
  0 <= max_pitch_setpoint (aw_config w) ->
  0 <= max_yaw_rate (aw_config w) ->
  exists w' eff,
    flight_stack_turn fuel env loaded ui after_arming previous_flight_mode w
    = Some (w', USER_ATTITUDE, eff)
    /\ core_mode (aw_setpoint w') = ATTITUDE
    /\ 0 <= throttle (aw_setpoint w') <= 1
    /\ Qabs (sp_roll (aw_setpoint w')) <= max_roll_setpoint (aw_config w)
    /\ Qabs (sp_pitch (aw_setpoint w')) <= max_pitch_setpoint (aw_config w)
    /\ Qabs (yaw_rate (aw_setpoint w')) <= max_yaw_rate (aw_config w)
    /\ sp_yaw (aw_setpoint w') = sp_yaw (aw_setpoint w)
    /\ aw_state w' = aw_state w
    /\ aw_config w' = aw_config w.
Proof.
  intros Harmed Hmode Hks (Ht & Hy & Hr & Hp) Hmr Hmp Hmy.
  assert (Hkill : kill_requested ui = false).
  { unfold kill_requested. now rewrite Hmode, Hks. }
  destruct (flight_stack_turn_armed fuel env loaded ui after_arming
              previous_flight_mode w Harmed Hkill) as (eff & Hturn & _).
  rewrite Hmode in Hturn.
  eexists. exists eff. split; [exact Hturn|].
  unfold translate_flight_mode. rewrite Hmode.
  cbn [aw_setpoint aw_state aw_config core_mode throttle sp_roll sp_pitch
       yaw_rate sp_yaw].
  assert (Hscale : forall x m, -1 <= x <= 1 -> 0 <= m -> Qabs (x * m) <= m).
  { intros x m Hx Hm. apply Qabs_Qle_condition. split; nra. }
  split; [reflexivity|]. split.
  { split.
    - apply Qle_shift_div_l; [reflexivity | lra].
    - apply Qle_shift_div_r; [reflexivity | lra]. }
  repeat split; try (now apply Hscale).
Qed.

(** X9.  The watcher and the flight stack together: more than
    DSM2_LAND_TIMEOUT and at most DSM2_DISARM_TIMEOUT after the last
    frame, a turn of the watcher without a new frame that finds the core
    armed, followed by a turn of the flight stack on what it wrote, the
    kill switch released, leaves the emergency landing setpoint: mode
    ATTITUDE, throttle EMERGENCY_LAND_THR, roll, pitch and yaw rate 0,
    the yaw setpoint as it was. *)
Theorem signal_loss_sets_landing_setpoint (fuel : nat) (env : nat -> arm_obs)
    (loaded : core_config_t) (after_arming previous_flight_mode : flight_mode_t)
    (p : dsm2_poll) (ww : watcher_world) (aw : arm_world) :
  using_dsm2 ww <> 0%Z ->
  is_new_dsm2_data p = 0%Z ->
  DSM2_LAND_TIMEOUT < current_time p - last_dsm2_time ww
                    <= DSM2_DISARM_TIMEOUT ->
  kill_switch (user_interface ww) = 0%Z ->
  let ww' := fst (DSM2_watcher_turn p (seen_by p ww)) in
  armed (seen_by p ww) ->
  aw_setpoint aw = ww_setpoint ww' ->
  exists aw' eff,
    flight_stack_turn fuel env loaded (user_interface ww') after_arming
      previous_flight_mode aw = Some (aw', EMERGENCY_LAND, eff)
    /\ core_mode (aw_setpoint aw') = ATTITUDE
    /\ throttle (aw_setpoint aw') = EMERGENCY_LAND_THR
    /\ sp_roll (aw_setpoint aw') = 0
    /\ sp_pitch (aw_setpoint aw') = 0
    /\ yaw_rate (aw_setpoint aw') = 0
    /\ sp_yaw (aw_setpoint aw') = sp_yaw (aw_setpoint aw).
Proof.
  intros Husing Hnew Hwin Hks ww' Hseen Hsp.
  assert (Hturn : ww' = fst (check_timeouts p (seen_by p ww))).
  { unfold ww', DSM2_watcher_turn. rewrite Hnew.
    change (using_dsm2 (seen_by p ww)) with (using_dsm2 ww).
    destruct (using_dsm2 ww =? 0)%Z eqn:Hu;
      [apply Z.eqb_eq in Hu; congruence | reflexivity]. }
  destruct (check_timeouts_turn p (seen_by p ww))
    as (Hsilent & _ & _ & Hstay & _).
  cbv zeta in Hsilent, Hstay. rewrite <- Hturn in Hsilent, Hstay.
  change (last_dsm2_time (seen_by p ww)) with (last_dsm2_time ww) in Hsilent.
  destruct Hsilent as (_ & Henter & Hsame).
  pose proof (timeout_secs_land _ _ (proj1 Hwin)) as Hpast.
  pose proof (timeout_secs_disarm _ _ (proj2 Hwin)) as Hwithin.
  assert (Hks' : kill_switch (user_interface ww') = 0%Z).
  { rewrite Hturn, check_timeouts_kill_switch. exact Hks. }
  assert (Hland : flight_mode (user_interface ww') = EMERGENCY_LAND).
  { destruct (flight_mode_eqb (flight_mode (user_interface ww)) EMERGENCY_LAND)
      eqn:Hfm.
    - apply flight_mode_eqb_eq in Hfm. now apply Hstay.
    - apply not_landing_eqb in Hfm.
      apply Henter; [intros [_ H]; lra | exact Hfm | lra]. }
  assert (Harmed : core_mode (aw_setpoint aw) <> DISARMED).
  { rewrite Hsp.
    destruct (flight_mode_eqb (flight_mode (user_interface ww)) EMERGENCY_LAND)
      eqn:Hfm.
    - apply flight_mode_eqb_eq in Hfm.
      rewrite Hsame; [exact Hseen | intros [_ H]; lra | intros [H _]; exact (H Hfm)].
    - apply not_landing_eqb in Hfm.
      destruct Henter as (_ & _ & _ & _ & _ & ->);
        [intros [_ H]; lra | exact Hfm | lra | exact Hseen]. }
  assert (Hkill : kill_requested (user_interface ww') = false).
  { unfold kill_requested. rewrite Hland, Hks'. reflexivity. }
  destruct (flight_stack_turn_armed fuel env loaded (user_interface ww')
              after_arming previous_flight_mode aw Harmed Hkill)
    as (eff & Hfs & _).
  eexists. exists eff. split; [rewrite <- Hland; exact Hfs|].
  unfold translate_flight_mode. rewrite Hland.
  cbn [aw_setpoint core_mode throttle sp_roll sp_pitch yaw_rate sp_yaw].
  repeat split.
Qed.

(** X10.  Whatever a turn of the flight stack does (translate, disarm,
    run the arming sequence to success or to an exit), it leaves the yaw
    setpoint, the altitude and the position setpoints as they were; in
    the reserved flight modes, with the core armed and no kill request,
    it leaves the whole setpoint as it was.  A turn that finds the core
    armed and no kill request remembers the flight mode it read; a turn
    that goes through the arming sequence remembers the flight mode it
    reads after the sequence has returned. *)
Theorem flight_stack_turn_frame (fuel : nat) (env : nat -> arm_obs)
    (loaded : core_config_t) (ui : user_interface_t)
    (after_arming previous_flight_mode fm : flight_mode_t) (w w' : arm_world)
    (eff : list effect) :
  flight_stack_turn fuel env loaded ui after_arming previous_flight_mode w
  = Some (w', fm, eff) ->
  sp_yaw (aw_setpoint w') = sp_yaw (aw_setpoint w)
  /\ sp_altitude (aw_setpoint w') = sp_altitude (aw_setpoint w)
  /\ position_X (aw_setpoint w') = position_X (aw_setpoint w)
  /\ position_Y (aw_setpoint w') = position_Y (aw_setpoint w)
  /\ (core_mode (aw_setpoint w) <> DISARMED -> kill_requested ui = false ->
      flight_mode ui <> USER_ATTITUDE -> flight_mode ui <> EMERGENCY_LAND ->
      aw_setpoint w' = aw_setpoint w)
  /\ (core_mode (aw_setpoint w) <> DISARMED -> kill_requested ui = false ->
      fm = flight_mode ui)
  /\ (core_mode (aw_setpoint w) = DISARMED \/ kill_requested ui = true ->
      fm = after_arming).
Proof.
  unfold flight_stack_turn, wait_for_arming_sequence.
  destruct (kill_requested ui) eqn:Hkill; cbn [disarm].
  - cbn [core_mode set_core_mode core_mode_eqb].
    destruct (arm_run fuel env WAIT_LEVEL 0) as [[te |]|]; [| |discriminate];
      intros H; injection H as <- <- <-; cbn; repeat split; intros;
      congruence.
  - destruct (core_mode_eqb (core_mode (aw_setpoint w)) DISARMED) eqn:Hm.
    + destruct (arm_run fuel env WAIT_LEVEL 0) as [[te |]|]; [| |discriminate];
        intros H; injection H as <- <- <-; cbn; repeat split; intros;
        apply core_mode_eqb_eq in Hm; congruence.
    + assert (Hne : core_mode (aw_setpoint w) <> DISARMED).
      { intros H. apply core_mode_eqb_eq in H. congruence. }
      intros H; injection H as <- <- <-. unfold translate_flight_mode. cbn.
      destruct (flight_mode ui); cbn; repeat split; intros;
        try congruence; intuition congruence.
Qed.

(** X11.  A kill request holds: a turn of the flight stack that reads
    EMERGENCY_KILL or an engaged kill switch, while the arming sequence
    it then enters sees the kill switch engaged at every instant, ends,
    if it ends, with the core disarmed, the core state and the
    configuration untouched and no pulse sent. *)
Theorem kill_request_holds (fuel : nat) (env : nat -> arm_obs)
    (loaded : core_config_t) (ui : user_interface_t)
    (after_arming previous_flight_mode fm : flight_mode_t) (w w' : arm_world)
    (eff : list effect) :
  kill_requested ui = true ->
  (forall t, obs_kill_switch (env t) <> 0%Z) ->
  flight_stack_turn fuel env loaded ui after_arming previous_flight_mode w
  = Some (w', fm, eff) ->
  aw_setpoint w' = set_core_mode (aw_setpoint w) DISARMED
  /\ aw_state w' = aw_state w
  /\ aw_config w' = aw_config w
  /\ (forall ch v, ~ In (SendServoPulse ch v) eff)
  /\ In (SetCoreMode DISARMED) eff.
Proof.
  intros Hkill Henv. unfold flight_stack_turn, wait_for_arming_sequence.
  rewrite Hkill. cbn [disarm core_mode set_core_mode core_mode_eqb].
  destruct (arm_run fuel env WAIT_LEVEL 0) as [[te |]|] eqn:Hrun;
    [| |discriminate].
  - exfalso. destruct (armed_needs env fuel te Hrun) as (_ & (t & Hk) & _).
    exact (Henv t Hk).
  - intros H. injection H as <- <- <-. cbn [aw_setpoint aw_state aw_config].
    repeat split.
    + intros ch v Hin.
      destruct (flight_mode_eqb previous_flight_mode (flight_mode ui)),
               (core_mode_eqb (core_mode (aw_setpoint w)) DISARMED);
        simpl in Hin; intuition discriminate.
    + destruct (flight_mode_eqb previous_flight_mode (flight_mode ui)),
               (core_mode_eqb (core_mode (aw_setpoint w)) DISARMED);
        simpl; tauto.
Qed.

End StackProperties.

Lemma attitude_setpoint_in_limits_witness :
  exists w' eff,
    flight_stack_turn 0 arming_env scenario_config flying_ui USER_ATTITUDE
      USER_ATTITUDE flying_arm_world = Some (w', USER_ATTITUDE, eff)
    /\ 0 <= throttle (aw_setpoint w') <= 1.
Proof.
  destruct (attitude_setpoint_in_limits 0 arming_env scenario_config flying_ui
              USER_ATTITUDE USER_ATTITUDE flying_arm_world)
    as (w' & eff & H & _ & Hthr & _).
  - vm_compute. discriminate.
  - reflexivity.
  - reflexivity.
  - repeat split; vm_compute; discriminate.
  - vm_compute. discriminate.
  - vm_compute. discriminate.
  - vm_compute. discriminate.
  - exists w', eff. split; [exact H | exact Hthr].
Defined.

Lemma signal_loss_sets_landing_setpoint_witness :
  exists aw' eff,
    flight_stack_turn 0 arming_env scenario_config
      (user_interface (fst (DSM2_watcher_turn
                              (silent_poll 0 0.31 (fun sp => sp))
                              (seen_by (silent_poll 0 0.31 (fun sp => sp))
                                 radio_flying_world))))
      USER_ATTITUDE USER_ATTITUDE
      {| aw_config := scenario_config;
         aw_state := boot_state;
         aw_setpoint := ww_setpoint radio_flying_world |}
    = Some (aw', EMERGENCY_LAND, eff)
    /\ throttle (aw_setpoint aw') = EMERGENCY_LAND_THR.
Proof.
  destruct (signal_loss_sets_landing_setpoint 0 arming_env scenario_config
              USER_ATTITUDE USER_ATTITUDE (silent_poll 0 0.31 (fun sp => sp))
              radio_flying_world
              {| aw_config := scenario_config;
                 aw_state := boot_state;
                 aw_setpoint := ww_setpoint radio_flying_world |})
    as (aw' & eff & H & _ & Hthr & _).
  - discriminate.
  - reflexivity.
  - split; vm_compute; [reflexivity | discriminate].
  - reflexivity.
  - vm_compute. discriminate.
  - vm_compute. reflexivity.
  - exists aw', eff. split; [exact H | exact Hthr].
Defined.

Lemma flight_stack_turn_frame_witness :
  sp_yaw (aw_setpoint
            {| aw_config := scenario_config;
               aw_state := core_state flying_world;
               aw_setpoint := translate_flight_mode scenario_config flying_ui
                                (core_setpoint flying_world) |})
  = sp_yaw (aw_setpoint flying_arm_world).
Proof.
  refine (proj1 (flight_stack_turn_frame 0 arming_env scenario_config
            flying_ui EMERGENCY_LAND USER_ATTITUDE USER_ATTITUDE
            flying_arm_world
            {| aw_config := scenario_config;
               aw_state := core_state flying_world;
               aw_setpoint := translate_flight_mode scenario_config flying_ui
                                (core_setpoint flying_world) |}
            [Usleep 10000] _)).
  reflexivity.
Defined.

(** In flight, the pilot engages the kill switch and never releases it;
    the program exits after the second sleep of the arming sequence. *)
Lemma kill_request_holds_witness :
  core_mode (aw_setpoint flying_arm_world) = ATTITUDE
  /\ exists w' fm eff,
       flight_stack_turn 20 killed_env scenario_config
         (set_kill_switch flying_ui 1) USER_ATTITUDE USER_ATTITUDE
         flying_arm_world = Some (w', fm, eff)
       /\ core_mode (aw_setpoint w') = DISARMED
       /\ aw_state w' = aw_state flying_arm_world
       /\ In (SetCoreMode DISARMED) eff.
Proof.
  split; [reflexivity|].
  eexists. eexists. eexists. split; [reflexivity|].
  destruct (kill_request_holds 20 killed_env scenario_config
              (set_kill_switch flying_ui 1) USER_ATTITUDE USER_ATTITUDE
              USER_ATTITUDE flying_arm_world _ _
              eq_refl (fun t => Z.neq_sym _ _ (Z.lt_neq 0 1 eq_refl)) eq_refl)
    as (Hsp & Hstate & _ & _ & Hin).
  split; [now rewrite Hsp|]. split; [exact Hstate | exact Hin].
Defined.

(** ** The pause button and the LEDs *)

Lemma pause_rounds_spec (n i : nat) (released : nat -> bool) :
  let r := pause_rounds n i released in
  (fst r = true <-> forall k, (k < n)%nat -> released (i + k)%nat = false)
  /\ (fst r = true -> snd r = repeat (Usleep 100000) n)
  /\ (fst r = false ->
      exists k, (k < n)%nat /\ released (i + k)%nat = true
        /\ (forall j, (j < k)%nat -> released (i + j)%nat = false)
        /\ snd r = repeat (Usleep 100000) (S k)).
Proof.
  revert i. induction n as [|n IH]; intros i; cbn [pause_rounds].
  - cbn. split; [split; [intros _ k Hk; lia | reflexivity]|].
    split; [reflexivity | discriminate].
  - destruct (released i) eqn:Hi.
    + cbn [fst snd]. split; [|split].
      * split; [discriminate|]. intros H. specialize (H 0%nat ltac:(lia)).
        rewrite Nat.add_0_r in H. congruence.
      * discriminate.
      * intros _. exists 0%nat. rewrite Nat.add_0_r.
        split; [lia|]. split; [exact Hi|]. split; [intros j Hj; lia | reflexivity].
    + specialize (IH (S i)). cbv zeta in IH.
      destruct (pause_rounds n (S i) released) as [held eff].
      cbn [fst snd] in *. destruct IH as (Hiff & Hheld & Hrel).
      split; [|split].
      * rewrite Hiff. split; intros H k Hk.
        -- destruct k as [|k]; [now rewrite Nat.add_0_r|].
           replace (i + S k)%nat with (S i + k)%nat by lia. apply H. lia.
        -- replace (S i + k)%nat with (i + S k)%nat by lia. apply H. lia.
      * intros H. now rewrite (Hheld H).
      * intros H. destruct (Hrel H) as (k & Hk & Hrk & Hbefore & Heff).
        exists (S k). split; [lia|].
        replace (i + S k)%nat with (S i + k)%nat by lia.
        split; [exact Hrk|]. split.
        -- intros j Hj. destruct j as [|j]; [now rewrite Nat.add_0_r|].
           replace (i + S j)%nat with (S i + j)%nat by lia. apply Hbefore. lia.
        -- now rewrite Heff.
Qed.

Lemma sleeps_repeat (us : Z) (n : nat) : sleeps (repeat (Usleep us) n) = n.
Proof. induction n as [|n IH]; [reflexivity|]. unfold sleeps in *. simpl. now rewrite IH. Qed.

Lemma sleeps_app (a b : list effect) : sleeps (a ++ b) = (sleeps a + sleeps b)%nat.
Proof. unfold sleeps. now rewrite filter_app, length_app. Qed.

Lemma sleeps_disarm (sp : core_setpoint_t) : sleeps (snd (disarm sp)) = 0%nat.
Proof.
  unfold disarm. cbn [snd]. now destruct (core_mode_eqb (core_mode sp) DISARMED).
Qed.

(** X12.  A press of the pause button always disarms, and asks the
    program to exit exactly when the button is still down at each of the
    ten samples taken 100 ms apart: then it has slept ten times.  If the
    button is found released at sample k, it returns after k+1 sleeps
    without asking for the exit. *)
Theorem pause_press (released : nat -> bool) (sp : core_setpoint_t) :
  let r := on_pause_press released sp in
  pr_setpoint r = set_core_mode sp DISARMED
  /\ (pr_exiting r = true <-> forall k, (k < 10)%nat -> released k = false)
  /\ (pr_exiting r = true -> sleeps (pr_effects r) = 10%nat)
  /\ (pr_exiting r = false ->
      exists k, (k < 10)%nat /\ released k = true
        /\ (forall j, (j < k)%nat -> released j = false)
        /\ sleeps (pr_effects r) = S k)
  /\ (sleeps (pr_effects r) <= 10)%nat.
Proof.
  cbv zeta. unfold on_pause_press.
  pose proof (pause_rounds_spec 10 0 released) as H. cbv zeta in H.
  pose proof (sleeps_disarm sp) as Hd.
  destruct (disarm sp) as [sp' eff] eqn:Hdis.
  assert (Hsp : sp' = set_core_mode sp DISARMED).
  { unfold disarm in Hdis. now injection Hdis as <- _. }
  destruct (pause_rounds 10 0 released) as [held slept].
  cbn [fst snd pr_setpoint pr_exiting pr_effects] in *.
  destruct H as (Hiff & Hheld & Hrel).
  split; [exact Hsp|]. split; [exact Hiff|].
  assert (Hall : held = true -> sleeps (eff ++ slept) = 10%nat).
  { intros Hh. rewrite sleeps_app, Hd, (Hheld Hh), sleeps_repeat. reflexivity. }
  assert (Hsome : held = false ->
            exists k, (k < 10)%nat /\ released k = true
              /\ (forall j, (j < k)%nat -> released j = false)
              /\ sleeps (eff ++ slept) = S k).
  { intros Hh. destruct (Hrel Hh) as (k & Hk & Hrk & Hbefore & Heff).
    exists k. split; [exact Hk|]. split; [exact Hrk|]. split; [exact Hbefore|].
    rewrite sleeps_app, Hd, Heff, sleeps_repeat. reflexivity. }
  split; [exact Hall|]. split; [exact Hsome|].
  destruct held.
  - rewrite Hall by reflexivity. lia.
  - destruct (Hsome eq_refl) as (k & Hk & _ & _ & ->). lia.
Qed.

Lemma pause_press_witness :
  pr_exiting (on_pause_press long_press (setpoint_of ATTITUDE 0.5 0 0 0 0)) = true
  /\ sleeps (pr_effects (on_pause_press short_press
                           (setpoint_of ATTITUDE 0.5 0 0 0 0))) = 4%nat.
Proof.
  split.
  - apply (pause_press long_press (setpoint_of ATTITUDE 0.5 0 0 0 0)).
    intros k _. reflexivity.
  - destruct (pause_press short_press (setpoint_of ATTITUDE 0.5 0 0 0 0))
      as (_ & _ & _ & _ & _).
    reflexivity.
Defined.

Lemma led_manager_disarmed_turn (toggle : Z) :
  led_manager_turn DISARMED (fst (led_manager_turn DISARMED toggle))
  = led_manager_turn DISARMED toggle.
Proof.
  unfold led_manager_turn. cbn [core_mode_eqb].
  destruct (toggle =? 0)%Z; reflexivity.
Qed.

(** X13.  While the core stays disarmed the LED manager does not blink
    the red LED: every turn sets it to the level of the first (LOW if
    the local [toggle] was non-zero, HIGH if it was 0), and the local
    never changes side.  After a turn with the core armed (green HIGH,
    red LOW) every disarmed turn sets the red LED HIGH. *)
Theorem led_manager_does_not_blink (n : nat) (toggle : Z) (m : core_mode_t) :
  led_manager (repeat DISARMED n) toggle
  = repeat [SetRED (if (toggle =? 0)%Z then HIGH else LOW); Usleep 500000] n
  /\ (m <> DISARMED ->
      led_manager (m :: repeat DISARMED n) toggle
      = [SetGRN HIGH; SetRED LOW; Usleep 500000]
        :: repeat [SetRED HIGH; Usleep 500000] n).
Proof.
  assert (Hrun : forall k t,
            led_manager (repeat DISARMED k) t
            = repeat [SetRED (if (t =? 0)%Z then HIGH else LOW);
                      Usleep 500000] k).
  { induction k as [|k IH]; intros t; [reflexivity|].
    cbn [repeat led_manager]. unfold led_manager_turn. cbn [core_mode_eqb].
    destruct (t =? 0)%Z eqn:Ht; cbn [negb]; rewrite IH; reflexivity. }
  split; [apply Hrun|].
  intros Hm. cbn [led_manager]. unfold led_manager_turn.
  destruct m; [congruence | |]; cbn [core_mode_eqb]; now rewrite Hrun.
Qed.

(** ** More of the radio watcher *)

Lemma turn_cases (p : dsm2_poll) (w : watcher_world) :
  DSM2_watcher_turn p w = on_new_frame p w
  \/ DSM2_watcher_turn p w = check_timeouts p w
  \/ DSM2_watcher_turn p w = (w, []).
Proof.
  unfold DSM2_watcher_turn.
  destruct (is_new_dsm2_data p) as [|[q|q|]|q]; auto.
  destruct (using_dsm2 w =? 0)%Z; auto.
Qed.

Lemma turn_keeps_sticks_in_range (p : dsm2_poll) (w : watcher_world) :
  channels_in_range p -> sticks_in_range (user_interface w) ->
  sticks_in_range (user_interface (fst (DSM2_watcher_turn p w))).
Proof.
  intros Hch Hin. destruct (turn_cases p w) as [-> | [-> | ->]];
    [| |exact Hin].
  - unfold on_new_frame. destruct (Qltb _ 0); cbn.
    + exact Hin.
    + pose proof (Hch 1%Z). pose proof (Hch 2%Z).
      pose proof (Hch 3%Z). pose proof (Hch 4%Z).
      unfold sticks_in_range. cbn. repeat split; lra.
  - unfold check_timeouts.
    destruct (negb _ && Qgtb _ DSM2_DISARM_TIMEOUT); [exact Hin|].
    destruct (negb _ && Qgtb _ DSM2_LAND_TIMEOUT); [|exact Hin].
    unfold sticks_in_range. cbn. repeat split; lra.
Qed.

Lemma turn_setpoint (p : dsm2_poll) (w : watcher_world) :
  ww_setpoint (fst (DSM2_watcher_turn p w)) = ww_setpoint w
  \/ ww_setpoint (fst (DSM2_watcher_turn p w))
     = set_core_mode (ww_setpoint w) DISARMED.
Proof.
  destruct (turn_cases p w) as [-> | [-> | ->]]; [| |now left].
  - unfold on_new_frame. destruct (Qltb _ 0); cbn; auto.
  - unfold check_timeouts.
    destruct (negb _ && Qgtb _ DSM2_DISARM_TIMEOUT); cbn; [auto|].
    destruct (negb _ && Qgtb _ DSM2_LAND_TIMEOUT); cbn; auto.
Qed.

(** X14.  The sticks stay in range: if the receiver hands out channels
    in [-1,1], then from a user interface with its four sticks in
    [-1,1] every turn of the watcher, with or without a frame, timed out
    or not, leaves the four sticks in [-1,1]. *)
Theorem sticks_stay_in_range (polls : list dsm2_poll) (w : watcher_world) :
  Forall channels_in_range polls ->
  sticks_in_range (user_interface w) ->
  Forall (fun turn => sticks_in_range (user_interface (snd turn)))
         (DSM2_watcher polls w).
Proof.
  revert w. induction polls as [|p polls IH]; intros w Hch Hin; simpl.
  - constructor.
  - apply Forall_cons_iff in Hch. destruct Hch as [Hp Hch].
    assert (Hafter : sticks_in_range
              (user_interface (fst (DSM2_watcher_turn p (seen_by p w))))).
    { apply turn_keeps_sticks_in_range; [exact Hp | exact Hin]. }
    constructor; [exact Hafter | now apply IH].
Qed.

(** X15.  The mode switch has no say: whatever channel 6 reads, a turn of
    the watcher leaves the same world and makes the same calls. *)
Theorem channel_6_is_ignored (p : dsm2_poll) (v : Q) (w : watcher_world) :
  DSM2_watcher_turn (with_channel p 6 v) w = DSM2_watcher_turn p w.
Proof.
  unfold DSM2_watcher_turn. cbn [is_new_dsm2_data with_channel].
  destruct (is_new_dsm2_data p) as [|[q|q|]|q]; try reflexivity.
  unfold on_new_frame. cbn [get_dsm2_ch_normalized with_channel frame_time Z.eqb Pos.eqb].
  destruct (Qltb _ 0); [reflexivity|].
  destruct (Qgtb v 0), (Qgtb (get_dsm2_ch_normalized p 6) 0); reflexivity.
Qed.

(** X16.  The watcher never arms: in every turn of every run it leaves
    the setpoint it saw as it is or sets its mode to DISARMED, all other
    fields untouched; so a core that a turn leaves armed was armed when
    the turn started. *)
Theorem watcher_only_disarms (polls : list dsm2_poll) (w : watcher_world) :
  Forall (fun turn =>
            (ww_setpoint (snd turn) = ww_setpoint (fst turn)
             \/ ww_setpoint (snd turn)
                = set_core_mode (ww_setpoint (fst turn)) DISARMED)
            /\ (armed (snd turn) -> armed (fst turn)))
         (DSM2_watcher polls w).
Proof.
  revert w. induction polls as [|p polls IH]; intros w; simpl.
  - constructor.
  - constructor; [|apply IH]. cbn [fst snd].
    pose proof (turn_setpoint p (seen_by p w)) as H.
    split; [exact H|]. unfold armed.
    destruct H as [-> | ->]; [tauto | cbn; congruence].
Qed.

(** X17.  A short dropout has no effect: after a frame with the kill
    switch released, turns without a new frame that find [timeout_secs]
    no more than DSM2_LAND_TIMEOUT change nothing, so the flight mode
    stays USER_ATTITUDE and the sticks keep the values of the frame. *)
Theorem short_dropout_is_ignored (pf : dsm2_poll) (polls : list dsm2_poll)
    (w : watcher_world) :
  is_new_dsm2_data pf = 1%Z ->
  0 <= get_dsm2_ch_normalized pf 5 ->
  silent polls ->
  Forall (fun p => timeout_secs (frame_time pf) (current_time p)
                   <= DSM2_LAND_TIMEOUT) polls ->
  match DSM2_watcher (pf :: polls) w with
  | [] => False
  | (_, after_frame) :: rest =>
      flight_mode (user_interface after_frame) = USER_ATTITUDE
      /\ Forall (fun turn =>
                   snd turn = fst turn
                   /\ user_interface (snd turn) = user_interface after_frame)
                rest
  end.
Proof.
  intros Hnew Hch Hsilent Hshort. cbn [DSM2_watcher].
  set (w1 := fst (DSM2_watcher_turn pf (seen_by pf w))).
  assert (Hw1 : w1 = fst (on_new_frame pf (seen_by pf w))).
  { unfold w1, DSM2_watcher_turn. now rewrite Hnew. }
  assert (Hfields : using_dsm2 w1 = 1%Z /\ last_dsm2_time w1 = frame_time pf
                    /\ flight_mode (user_interface w1) = USER_ATTITUDE).
  { rewrite Hw1. unfold on_new_frame, Qltb.
    cmp 0 (get_dsm2_ch_normalized pf 5); [lra|]. cbn.
    destruct (Qgtb _ 0); repeat split. }
  destruct Hfields as (Hu & Hl & Hfm). split; [exact Hfm|].
  assert (Hst : started (frame_time pf) w1).
  { split; [rewrite Hu; discriminate | exact Hl]. }
  clearbody w1. clear Hw1 Hu Hl Hfm.
  assert (Hgen : forall ps w2, started (frame_time pf) w2 -> silent ps ->
            Forall (fun p => timeout_secs (frame_time pf) (current_time p)
                             <= DSM2_LAND_TIMEOUT) ps ->
            Forall (fun turn => snd turn = fst turn
                      /\ user_interface (snd turn) = user_interface w2)
                   (DSM2_watcher ps w2)).
  { induction ps as [|p ps IH]; intros w2 [Hu Hl] Hs Hsh; simpl; [constructor|].
    apply Forall_cons_iff in Hs. destruct Hs as [Hp Hs].
    apply Forall_cons_iff in Hsh. destruct Hsh as [Hpt Hsh].
    destruct (silent_step p w2 Hu Hp) as (Ht & Hu' & Hl' & _).
    cbv zeta in Ht, Hu', Hl'. rewrite Hl in Ht, Hl'.
    destruct Ht as (_ & _ & Hsame).
    assert (Heq : fst (DSM2_watcher_turn p (seen_by p w2)) = seen_by p w2).
    { apply Hsame; intros [_ H];
        unfold DSM2_LAND_TIMEOUT, DSM2_DISARM_TIMEOUT in *; lra. }
    constructor.
    - cbn [fst snd]. split; [exact Heq | now rewrite Heq].
    - rewrite Heq.
      assert (Hrest := IH (seen_by p w2) (conj Hu Hl) Hs Hsh).
      revert Hrest. apply Forall_impl. intros turn [H1 H2]. now split. }
  exact (Hgen polls w1 Hst Hsilent Hshort).
Qed.

Lemma sticks_stay_in_range_witness :
  Forall (fun turn => sticks_in_range (user_interface (snd turn)))
         (DSM2_watcher [stick_frame; silent_poll 1 0.5 (fun sp => sp); kill_frame]
            radio_flying_world).
Proof.
  apply (sticks_stay_in_range
           [stick_frame; silent_poll 1 0.5 (fun sp => sp); kill_frame]
           radio_flying_world).
  - apply Forall_cons; [|apply Forall_cons; [|apply Forall_cons;
      [|apply Forall_nil]]];
      intros c; cbn; try (destruct (c =? 5)%Z); split; discriminate.
  - repeat split; discriminate.
Defined.

Lemma short_dropout_is_ignored_witness :
  match DSM2_watcher [stick_frame; silent_poll 1 0.1 (fun sp => sp);
                      silent_poll 1 0.29 (fun sp => sp)] radio_flying_world with
  | [] => False
  | (_, after_frame) :: rest =>
      flight_mode (user_interface after_frame) = USER_ATTITUDE
      /\ Forall (fun turn =>
                   snd turn = fst turn
                   /\ user_interface (snd turn) = user_interface after_frame)
                rest
  end.
Proof.
  apply (short_dropout_is_ignored stick_frame
           [silent_poll 1 0.1 (fun sp => sp); silent_poll 1 0.29 (fun sp => sp)]
           radio_flying_world).
  - reflexivity.
  - discriminate.
  - apply Forall_cons; [reflexivity|]. apply Forall_cons; [reflexivity|].
    apply Forall_nil.
  - apply Forall_cons; [vm_compute; discriminate|].
    apply Forall_cons; [vm_compute; discriminate|]. apply Forall_nil.
Defined.

(** A turn exactly DSM2_LAND_TIMEOUT after the last frame is past it for
    the code: the float nearest to 0.3 is above the double 0.3, and the
    turn enters EMERGENCY_LAND. *)
Example dropout_of_300_ms :
  timeout_secs 0 0.3 == 10066330 # 33554432
  /\ map enters_land
       (DSM2_watcher [silent_poll 0 0.3 (fun sp => sp)] radio_flying_world)
     = [true].
Proof. split; vm_compute; reflexivity. Qed.
